(** * linctl, package [files]: images in markdown, transfers, file metadata

    A shallow embedding of [pkg/files/files.go] and of its caller
    [UploadFileToLinear] (package [api]), together with the parts of the Go
    standard library these functions rest on ([unicode/utf8], [regexp],
    [strings], [path/filepath], [net/http]), followed by the properties the
    specification states about them.

    Conventions.
    - A Go [string] and a Go [[]byte] are sequences of bytes: [string], whose
      characters are the 8-bit [ascii] values.  Where the library decodes
      UTF-8 the model decodes it too ([utf8.DecodeRune]).
    - A Go [error] is modelled by its message ([Error()]); [fmt.Errorf] with
      [%s], [%w] is string concatenation.
    - What the operating system, the network and the Unicode tables provide is
      a parameter ([Runtime]); filesystem effects are explicit state passing
      over [World]. *)

From Stdlib Require Import ZArith Zbitwise List Ascii String Bool Lia Permutation.
From stdpp Require Import base strings list gmap fin_maps.

Local Open Scope Z_scope.

(** ** Bytes *)

(** The numeric value of a byte, [0 <= byte_val c < 256]. *)
Definition byte_val (c : ascii) : Z := Z.of_N (N_of_ascii c).

(** [[]byte(s)] *)
Definition bytes_of (s : string) : list ascii := String.list_ascii_of_string s.

(** [string(b)] *)
Definition string_of (b : list ascii) : string := String.string_of_list_ascii b.

(** [len(s)] *)
Definition len (s : string) : Z := Z.of_nat (String.length s).

(** ** unicode/utf8 *)

Module utf8.

Definition RuneError : Z := 0xFFFD.
Definition RuneSelf : Z := 0x80.

Definition maskx : Z := 0x3F.
Definition mask2 : Z := 0x1F.
Definition mask3 : Z := 0x0F.
Definition mask4 : Z := 0x07.
Definition locb : Z := 0x80.
Definition hicb : Z := 0xBF.

(** Entries of the table [first]: the low three bits are the length of the
    encoding, the high four bits index [acceptRanges]. *)
Definition xx : Z := 0xF1.
Definition as_ : Z := 0xF0.
Definition s1 : Z := 0x02.
Definition s2 : Z := 0x13.
Definition s3 : Z := 0x03.
Definition s4 : Z := 0x23.
Definition s5 : Z := 0x34.
Definition s6 : Z := 0x04.
Definition s7 : Z := 0x44.

(** [first[b]], the table written as its runs. *)
Definition first (b : Z) : Z :=
  if b <? 0x80 then as_
  else if b <? 0xC2 then xx
  else if b <? 0xE0 then s1
  else if b =? 0xE0 then s2
  else if b <? 0xED then s3
  else if b =? 0xED then s4
  else if b <? 0xF0 then s3
  else if b =? 0xF0 then s5
  else if b <? 0xF4 then s6
  else if b =? 0xF4 then s7
  else xx.

(** [acceptRanges[i]]: the bounds of the second byte. *)
Definition acceptRanges (i : Z) : Z * Z :=
  if i =? 0 then (locb, hicb)
  else if i =? 1 then (0xA0, hicb)
  else if i =? 2 then (locb, 0x9F)
  else if i =? 3 then (0x90, hicb)
  else if i =? 4 then (locb, 0x8F)
  else (0, 0).

Definition out_of (lo hi b : Z) : bool := (b <? lo) || (hi <? b).

(** [utf8.DecodeRuneInString]: the first rune of [s] and its width in bytes.
    An invalid or truncated encoding decodes to [(RuneError, 1)]. *)
Definition DecodeRune (s : list ascii) : Z * nat :=
  match s with
  | [] => (RuneError, 0%nat)
  | c0 :: t0 =>
    let b0 := byte_val c0 in
    let x := first b0 in
    if as_ <=? x then ((if Z.odd x then RuneError else b0), 1%nat)
    else
      let sz := Z.land x 7 in
      let '(lo, hi) := acceptRanges (Z.shiftr x 4) in
      if Z.of_nat (length s) <? sz then (RuneError, 1%nat)
      else match t0 with
      | [] => (RuneError, 1%nat)
      | c1 :: t1 =>
        let b1 := byte_val c1 in
        if out_of lo hi b1 then (RuneError, 1%nat)
        else if sz <=? 2 then
          (Z.lor (Z.shiftl (Z.land b0 mask2) 6) (Z.land b1 maskx), 2%nat)
        else match t1 with
        | [] => (RuneError, 1%nat)
        | c2 :: t2 =>
          let b2 := byte_val c2 in
          if out_of locb hicb b2 then (RuneError, 1%nat)
          else if sz <=? 3 then
            (Z.lor (Z.lor (Z.shiftl (Z.land b0 mask3) 12)
                          (Z.shiftl (Z.land b1 maskx) 6))
                   (Z.land b2 maskx), 3%nat)
          else match t2 with
          | [] => (RuneError, 1%nat)
          | c3 :: _ =>
            let b3 := byte_val c3 in
            if out_of locb hicb b3 then (RuneError, 1%nat)
            else
              (Z.lor (Z.lor (Z.lor (Z.shiftl (Z.land b0 mask4) 18)
                                   (Z.shiftl (Z.land b1 maskx) 12))
                            (Z.shiftl (Z.land b2 maskx) 6))
                     (Z.land b3 maskx), 4%nat)
          end
        end
      end
  end.

(** One decoded rune with the bytes it was decoded from. *)
Definition token : Type := Z * list ascii.

(** The runes of a string in order, as [for _, r := range s] and the input
    reader of [regexp] see them.  Every step consumes at least one byte, so
    [length s] steps are enough. *)
Fixpoint decode (fuel : nat) (s : list ascii) : list token :=
  match fuel, s with
  | S f, _ :: _ =>
    let '(r, w) := DecodeRune s in
    (r, take w s) :: decode f (drop w s)
  | _, _ => []
  end.

Definition runes (s : list ascii) : list token := decode (length s) s.

(** The bytes a sequence of runes was decoded from. *)
Definition text (ts : list token) : list ascii := concat (map snd ts).

End utf8.

(** ** unicode *)

Module unicode.

(** [unicode.IsSpace]: the Latin-1 cases of the function, then the ranges of
    the table [White_Space] above Latin-1. *)
Definition IsSpace (r : Z) : bool :=
  if r <=? 0xFF then
    (r =? 0x09) || (r =? 0x0A) || (r =? 0x0B) || (r =? 0x0C) || (r =? 0x0D)
    || (r =? 0x20) || (r =? 0x85) || (r =? 0xA0)
  else
    (r =? 0x1680) || ((0x2000 <=? r) && (r <=? 0x200A))
    || (r =? 0x2028) || (r =? 0x2029) || (r =? 0x202F) || (r =? 0x205F)
    || (r =? 0x3000).

End unicode.

(** ** regexp

    The three patterns of the package use literals, negated character classes,
    greedy repetition of a class and capture groups.  Matching is
    leftmost-first: among the matches that start at the leftmost possible
    position, the one a backtracking search would find first.  The model
    lists, for a pattern and an input, every way the pattern can match a
    prefix of the input in that order of preference; the match is the head
    of the list. *)

Module regexp.

(** A character class: inclusive rune ranges, possibly negated. *)
Record class : Type := Class_ { negated : bool; ranges : list (Z * Z) }.

Definition in_ranges (rs : list (Z * Z)) (r : Z) : bool :=
  existsb (fun p => (fst p <=? r) && (r <=? snd p)) rs.

Definition in_class (c : class) (r : Z) : bool :=
  xorb (negated c) (in_ranges (ranges c) r).

Inductive Regexp : Type :=
| Eps                         (* the empty pattern *)
| Lit (r : Z)                 (* one literal rune *)
| Cls (c : class)             (* [...]  *)
| Star (c : class)            (* [...]* , greedy *)
| Plus (c : class)            (* [...]+ , greedy *)
| Cap (e : Regexp)            (* ( e ) , a capture group *)
| Cat (e1 e2 : Regexp).       (* e1 e2 *)

(** One way of matching a prefix: the text matched, the text of the capture
    groups (in the order of their opening parentheses), and the input left. *)
Definition outcome : Type := list ascii * list (list ascii) * list utf8.token.

(** [c*] on [ts]: the longest run first, then the shorter ones. *)
Fixpoint star (c : class) (ts : list utf8.token) : list (list ascii * list utf8.token) :=
  match ts with
  | t :: ts' =>
    if in_class c (fst t)
    then map (fun o => (snd t ++ fst o, snd o)) (star c ts') ++ [([], ts)]
    else [([], ts)]
  | [] => [([], [])]
  end.

Fixpoint alternatives (e : Regexp) (ts : list utf8.token) : list outcome :=
  match e with
  | Eps => [([], [], ts)]
  | Lit r =>
    match ts with
    | t :: ts' => if fst t =? r then [(snd t, [], ts')] else []
    | [] => []
    end
  | Cls c =>
    match ts with
    | t :: ts' => if in_class c (fst t) then [(snd t, [], ts')] else []
    | [] => []
    end
  | Star c => map (fun o => (fst o, [], snd o)) (star c ts)
  | Plus c =>
    match ts with
    | t :: ts' =>
      if in_class c (fst t)
      then map (fun o => (snd t ++ fst o, [], snd o)) (star c ts')
      else []
    | [] => []
    end
  | Cap e1 =>
    map (fun o => match o with (m, caps, rest) => (m, m :: caps, rest) end)
        (alternatives e1 ts)
  | Cat e1 e2 =>
    flat_map (fun o1 => match o1 with (m1, caps1, rest1) =>
      map (fun o2 => match o2 with (m2, caps2, rest2) =>
             (m1 ++ m2, caps1 ++ caps2, rest2) end)
          (alternatives e2 rest1) end)
      (alternatives e1 ts)
  end.

(** The match that starts at the head of [ts], if there is one. *)
Definition match_here (e : Regexp) (ts : list utf8.token) : option outcome :=
  head (alternatives e ts).

(** The leftmost match in [ts], with the text skipped before it. *)
Fixpoint search (e : Regexp) (ts : list utf8.token) : option (list ascii * outcome) :=
  match match_here e ts with
  | Some o => Some ([], o)
  | None =>
    match ts with
    | [] => None
    | t :: ts' =>
      match search e ts' with
      | Some (pre, o) => Some (snd t ++ pre, o)
      | None => None
      end
    end
  end.

(** One match of the scan of [FindAll] and [ReplaceAll]: the unmatched text
    between the previous match and this one, the match, and its groups. *)
Record found : Type := Found {
  gap : list ascii;
  whole : list ascii;
  groups : list (list ascii)
}.

(** The loop shared by [FindAllStringSubmatch(s, -1)] and [ReplaceAllString]:
    successive leftmost matches, each search starting where the previous match
    ended; the second component is the text after the last match.  The
    library's extra step after a match of the empty string is left out: none
    of the patterns of this package matches the empty string
    ([patterns_consume] below), so every round consumes input and
    [S (length ts)] rounds are enough ([allMatches_rounds]). *)
Fixpoint allMatches (rounds : nat) (e : Regexp) (ts : list utf8.token)
  : list found * list ascii :=
  match rounds with
  | O => ([], utf8.text ts)
  | S n =>
    match search e ts with
    | None => ([], utf8.text ts)
    | Some (pre, (m, caps, rest)) =>
      let r := allMatches n e rest in
      (Found pre m caps :: fst r, snd r)
    end
  end.

Definition scan (e : Regexp) (s : string) : list found * list ascii :=
  let ts := utf8.runes (bytes_of s) in
  allMatches (S (length ts)) e ts.

(** [re.FindAllStringSubmatch(s, -1)]: for every match the slice holding the
    whole match followed by the text of each group. *)
Definition FindAllStringSubmatch (e : Regexp) (s : string) : list (list string) :=
  map (fun f => map string_of (whole f :: groups f)) (fst (scan e s)).

(** [re.ReplaceAllString(src, repl)] for a replacement without [$]. *)
Definition ReplaceAllString (e : Regexp) (src repl : string) : string :=
  let r := scan e src in
  string_of (concat (map (fun f => gap f ++ bytes_of repl) (fst r)) ++ snd r).

(** Helpers to write patterns. *)
Definition lit (c : ascii) : Regexp := Lit (byte_val c).
Definition range (lo hi : ascii) : Z * Z := (byte_val lo, byte_val hi).
Definition one (c : ascii) : Z * Z := range c c.
Definition none_of (rs : list (Z * Z)) : class := Class_ true rs.
Fixpoint seq (es : list Regexp) : Regexp :=
  match es with
  | [] => Eps
  | [e] => e
  | e :: es' => Cat e (seq es')
  end.

End regexp.

(** ** strings *)

Module strings.

(** [strings.HasPrefix] *)
Fixpoint HasPrefix (s prefix : string) {struct prefix} : bool :=
  match prefix with
  | EmptyString => true
  | String p prefix' =>
    match s with
    | EmptyString => false
    | String c s' => if Ascii.eqb c p then HasPrefix s' prefix' else false
    end
  end.

(** [strings.Index]: the position of the first occurrence of [substr] in
    [s], or [-1]. *)
Fixpoint Index (s substr : string) : Z :=
  if HasPrefix s substr then 0
  else match s with
       | EmptyString => -1
       | String _ s' => let i := Index s' substr in if i <? 0 then -1 else i + 1
       end.

(** [strings.Contains] *)
Definition Contains (s substr : string) : bool := 0 <=? Index s substr.

Fixpoint drop_spaces (ts : list utf8.token) : list utf8.token :=
  match ts with
  | t :: ts' => if unicode.IsSpace (fst t) then drop_spaces ts' else ts
  | [] => []
  end.

(** [strings.TrimSpace]: [s] without its leading and trailing white space, as
    defined by Unicode.  (The library trims the tail by decoding backwards; a
    trailing white-space rune is a valid encoding, which both directions
    delimit alike.) *)
Definition TrimSpace (s : string) : string :=
  string_of (utf8.text
    (reverse (drop_spaces (reverse (drop_spaces (utf8.runes (bytes_of s))))))).

Definition isASCII (s : string) : bool :=
  forallb (fun c => byte_val c <? utf8.RuneSelf) (bytes_of s).

Definition lower_byte (c : ascii) : ascii :=
  let b := byte_val c in
  if (65 <=? b) && (b <=? 90) then ascii_of_N (Z.to_N (b + 32)) else c.

(** [strings.ToLower].  A string of ASCII bytes is lowered byte by byte; for
    any other string the library maps [unicode.ToLower] over the runes, which
    needs the Unicode case tables: that path is the parameter
    [lower_unicode]. *)
Definition ToLower (lower_unicode : string -> string) (s : string) : string :=
  if isASCII s then string_of (map lower_byte (bytes_of s))
  else lower_unicode s.

End strings.

(** ** path/filepath (Unix) *)

Module filepath.

(** [os.IsPathSeparator] *)
Definition IsPathSeparator (c : ascii) : bool := Ascii.eqb c "/".

(** The loop of [filepath.Ext]: [i] is one more than the index examined. *)
Fixpoint ext_loop (path : string) (i : nat) : string :=
  match i with
  | O => ""
  | S j =>
    match String.get j path with
    | Some c =>
      if IsPathSeparator c then ""
      else if Ascii.eqb c "." then String.substring j (String.length path - j) path
      else ext_loop path j
    | None => ""
    end
  end.

(** [filepath.Ext]: the suffix beginning at the final dot in the final
    element of [path]; empty if there is no dot. *)
Definition Ext (path : string) : string := ext_loop path (String.length path).

End filepath.

(** ** net/http *)

Module http.

(** [validHeaderFieldByte]: the [tchar] of RFC 7230. *)
Definition validHeaderFieldByte (c : ascii) : bool :=
  let b := byte_val c in
  ((48 <=? b) && (b <=? 57)) || ((65 <=? b) && (b <=? 90))
  || ((97 <=? b) && (b <=? 122))
  || existsb (Ascii.eqb c) (bytes_of "!#$%&'*+-.^_`|~").

(** The loop of [canonicalMIMEHeaderKey]: upper case for the first letter
    and for a letter after a dash, lower case for the others. *)
Fixpoint canonical (upper : bool) (a : list ascii) : list ascii :=
  match a with
  | [] => []
  | c :: a' =>
    let b := byte_val c in
    let c' :=
      if upper && ((97 <=? b) && (b <=? 122)) then ascii_of_N (Z.to_N (b - 32))
      else if negb upper && ((65 <=? b) && (b <=? 90)) then ascii_of_N (Z.to_N (b + 32))
      else c in
    c' :: canonical (Ascii.eqb c' "-") a'
  end.

(** [textproto.CanonicalMIMEHeaderKey]: a key holding a byte that is not
    valid in a field name is returned unchanged. *)
Definition CanonicalMIMEHeaderKey (s : string) : string :=
  if forallb validHeaderFieldByte (bytes_of s)
  then string_of (canonical true (bytes_of s))
  else s.

(** [http.Header], a [map[string][]string] keyed by canonical names. *)
Abbreviation MIMEHeader := (gmap string (list string)).

(** [h.Set(key, value)] *)
Definition Header_Set (h : MIMEHeader) (key value : string) : MIMEHeader :=
  <[CanonicalMIMEHeaderKey key := [value]]> h.

(** [h.Get(key)] *)
Definition Header_Get (h : MIMEHeader) (key : string) : string :=
  match h !! CanonicalMIMEHeaderKey key with
  | Some (v :: _) => v
  | _ => ""
  end.

(** [http.Request], the fields the package sets: [Body] is [None] for the
    [nil] body of a GET. *)
Record Request : Type := {
  Method : string;
  URL : string;
  Header : MIMEHeader;
  Body : option string
}.

(** A response body as [io.ReadAll] and [io.Copy] see it: the bytes
    delivered, and the error that ended the stream if it did not end well. *)
Record ReadCloser : Type := {
  delivered : string;
  broken : option string
}.

(** [http.Response] *)
Record Response : Type := {
  Status : string;
  StatusCode : Z;
  RespBody : ReadCloser
}.

Definition StatusOK : Z := 200.
Definition StatusNoContent : Z := 204.

(** [io.ReadAll] *)
Definition ReadAll (r : ReadCloser) : string * option string :=
  (delivered r, broken r).

End http.

(** ** What the platform provides

    The filesystem (its states and calls), the HTTP transport, and the
    library functions that are not modelled above.  A call that can fail
    returns [inl err] with the error's message. *)

Definition result (A : Type) : Type := string + A.

(** [os.FileInfo], with the result of its method [Size()]. *)
Module os.
Record FileInfo : Type := { Size : Z }.
End os.

Class Runtime : Type := {
  FS : Type;
  File : Type;
  (** the error of [http.NewRequestWithContext] for a URL that does not parse *)
  url_error : string -> option string;
  (** [client.Do]: the transport's error or the server's response *)
  client_Do : http.Request -> result http.Response;
  filepath_Dir : string -> string;
  filepath_Base : string -> string;
  os_MkdirAll : string -> Z -> FS -> option string * FS;
  os_Create : string -> FS -> result File * FS;
  io_Copy : File -> http.ReadCloser -> FS -> option string * FS;
  os_Stat : string -> FS -> result os.FileInfo;
  os_ReadFile : string -> FS -> result string;
  (** [strings.Map(unicode.ToLower, s)] *)
  lower_unicode : string -> string
}.

(** The state a call can change or add to: the filesystem, and the requests
    handed to the transport so far, oldest first. *)
Record World `{Runtime} : Type := {
  disk : FS;
  wire : list http.Request
}.

(** A computation with effects on the world. *)
Definition M `{Runtime} (A : Type) : Type := World -> A * World.

(** The idiom [v, err := call; if err != nil { return fmt.Errorf(msg+": %w", err) }]. *)
Definition try `{Runtime} {A : Type} (c : M (result A)) (msg : string)
    (k : A -> M (option string)) : M (option string) :=
  fun w =>
    match c w with
    | (inl err, w') => (Some (msg +:+ err), w')
    | (inr a, w') => k a w'
    end.

Notation "x <- c 'or_return' msg ;; k" := (try c msg (fun x => k))
  (at level 100, c at next level, msg at next level, right associativity).

Definition pure `{Runtime} {A : Type} (r : A) : M A := fun w => (r, w).

Definition on_disk `{Runtime} {A : Type} (f : FS -> A * FS) : M A :=
  fun w => let r := f (disk w) in (fst r, {| disk := snd r; wire := wire w |}).

Definition checked (e : option string) : result unit :=
  match e with Some err => inl err | None => inr tt end.

(** [http.NewRequestWithContext(ctx, method, url, body)] with a context that
    is not nil and one of the methods GET and PUT. *)
Definition NewRequestWithContext `{Runtime} (method url : string) (body : option string)
  : M (result http.Request) :=
  pure match url_error url with
       | Some err => inl err
       | None => inr {| http.Method := method; http.URL := url;
                        http.Header := ∅; http.Body := body |}
       end.

(** [(&http.Client{}).Do(req)] *)
Definition Do `{Runtime} (req : http.Request) : M (result http.Response) :=
  fun w => (client_Do req, {| disk := disk w; wire := wire w ++ [req] |}).

Definition MkdirAll `{Runtime} (dir : string) (perm : Z) : M (result unit) :=
  on_disk (fun fs => let r := os_MkdirAll dir perm fs in (checked (fst r), snd r)).

Definition Create `{Runtime} (name : string) : M (result File) :=
  on_disk (os_Create name).

Definition Copy `{Runtime} (dst : File) (src : http.ReadCloser) : M (result unit) :=
  on_disk (fun fs => let r := io_Copy dst src fs in (checked (fst r), snd r)).

(** ** pkg/files/files.go *)

Module files.

Import regexp.

(** The double quote character. *)
Definition dq : ascii := "034".

(** [ImageInfo] *)
Record ImageInfo : Type := {
  URL : string;
  AltText : string;
  IsLinearURL : bool
}.

(** The pattern of the markdown image syntax: an exclamation mark, the alt
    text in square brackets (group 1, any runes but the closing bracket,
    possibly none), the URL in parentheses (group 2, one or more runes but
    the closing parenthesis). *)
Definition markdownRegex : Regexp :=
  seq [lit "!"; lit "["; Cap (Star (none_of [one "]"])); lit "]";
       lit "("; Cap (Plus (none_of [one ")"])); lit ")"].

(** The pattern of the HTML tag: [<img], one or more runes but [>], then
    [src=] and the URL between double quotes (group 1, one or more runes but
    the double quote). *)
Definition htmlRegex : Regexp :=
  seq [lit "<"; lit "i"; lit "m"; lit "g"; Plus (none_of [one ">"]);
       lit "s"; lit "r"; lit "c"; lit "="; lit dq;
       Cap (Plus (none_of [one dq])); lit dq].

(** [match[i]], used under a guard on [len(match)]. *)
Definition at_ (match_ : list string) (i : nat) : string := nth i match_ "".

(** [ExtractImagesFromMarkdown] *)
Definition ExtractImagesFromMarkdown (markdown : string) : list ImageInfo :=
  let images := [] in
  let matches := FindAllStringSubmatch markdownRegex markdown in
  let images :=
    fold_left (fun images match_ =>
      if (3 <=? length match_)%nat
      then images ++ [ {| URL := at_ match_ 2;
                          AltText := at_ match_ 1;
                          IsLinearURL := strings.Contains (at_ match_ 2) "linear.app" |} ]
      else images) matches images in
  let matches := FindAllStringSubmatch htmlRegex markdown in
  let images :=
    fold_left (fun images match_ =>
      if (2 <=? length match_)%nat
      then images ++ [ {| URL := at_ match_ 1;
                          AltText := "";
                          IsLinearURL := strings.Contains (at_ match_ 1) "linear.app" |} ]
      else images) matches images in
  images.

(** [DownloadImage]; the result is the error, [None] for [nil]. *)
Definition DownloadImage `{Runtime} (url outputPath authHeader : string)
  : M (option string) :=
  req <- NewRequestWithContext "GET" url None
    or_return "failed to create request: " ;;
  let req :=
    if decide (authHeader <> "")
    then {| http.Method := http.Method req; http.URL := http.URL req;
            http.Header := http.Header_Set (http.Header req) "Authorization" authHeader;
            http.Body := http.Body req |}
    else req in
  resp <- Do req or_return "failed to download image: " ;;
  if decide (http.StatusCode resp <> http.StatusOK)
  then pure (Some ("download failed with status: " +:+ http.Status resp))
  else
    let dir := filepath_Dir outputPath in
    (* 493 is the mode 0755 *)
    _ <- MkdirAll dir 493 or_return "failed to create output directory: " ;;
    out <- Create outputPath or_return "failed to create output file: " ;;
    _ <- Copy out (http.RespBody resp) or_return "failed to write image data: " ;;
    pure None.

(** [UploadFileInfo] *)
Record UploadFileInfo : Type := {
  UploadURL : string;
  AssetURL : string;
  Headers : gmap string string;
  ContentType : string;
  Size : Z
}.

(** The order in which [range m] visits the entries of a map is left open
    by the language: any arrangement of the entries. *)
Definition visits (order : list (string * string)) (m : gmap string string) : Prop :=
  order ≡ₚ map_to_list m.

(** The request [UploadToPresignedURL] builds from [req]: the two headers it
    sets, then one [Set] per entry of [info.Headers].  [pick] is the choice of
    the order in which [range info.Headers] visits the entries. *)
Definition with_headers (req : http.Request) (info : UploadFileInfo)
    (pick : gmap string string -> list (string * string)) : http.Request :=
  let h := http.Header_Set (http.Header req) "Content-Type" (ContentType info) in
  let h := http.Header_Set h "Cache-Control" "public, max-age=31536000" in
  let h := fold_left (fun h kv => http.Header_Set h (fst kv) (snd kv))
                     (pick (Headers info)) h in
  {| http.Method := http.Method req; http.URL := http.URL req;
     http.Header := h; http.Body := http.Body req |}.

(** [UploadToPresignedURL] for an [info] that is not nil. *)
Definition UploadToPresignedURL `{Runtime} (info : UploadFileInfo)
    (fileContent : string) (pick : gmap string string -> list (string * string))
  : M (option string) :=
  req <- NewRequestWithContext "PUT" (UploadURL info) (Some fileContent)
    or_return "failed to create upload request: " ;;
  let req := with_headers req info pick in
  resp <- Do req or_return "failed to upload file: " ;;
  if decide (http.StatusCode resp <> http.StatusOK /\
             http.StatusCode resp <> http.StatusNoContent)
  then
    let body := fst (http.ReadAll (http.RespBody resp)) in
    pure (Some ("upload failed with status " +:+ http.Status resp +:+ ": " +:+ body))
  else pure None.

(** [ReadFile] *)
Definition ReadFile `{Runtime} (filePath : string) : M (result string) :=
  fun w =>
    match os_ReadFile filePath (disk w) with
    | inl err => (inl ("failed to read file " +:+ filePath +:+ ": " +:+ err), w)
    | inr data => (inr data, w)
    end.

(** [GetFileInfo]: the three results [size], [contentType], [err]. *)
Definition GetFileInfo `{Runtime} (filePath : string) : M (Z * string * option string) :=
  fun w =>
    match os_Stat filePath (disk w) with
    | inl err => ((0, "", Some ("failed to stat file: " +:+ err)), w)
    | inr info =>
      let size := os.Size info in
      let ext := strings.ToLower lower_unicode (filepath.Ext filePath) in
      let contentType :=
        if (ext =? ".jpg")%string || (ext =? ".jpeg")%string then "image/jpeg"
        else if (ext =? ".png")%string then "image/png"
        else if (ext =? ".gif")%string then "image/gif"
        else if (ext =? ".webp")%string then "image/webp"
        else if (ext =? ".svg")%string then "image/svg+xml"
        else if (ext =? ".bmp")%string then "image/bmp"
        else if (ext =? ".mp4")%string then "video/mp4"
        else if (ext =? ".webm")%string then "video/webm"
        else if (ext =? ".mov")%string then "video/quicktime"
        else if (ext =? ".pdf")%string then "application/pdf"
        else "application/octet-stream" in
      ((size, contentType, None), w)
    end.

(** [s[:n]]; [None] is the run-time panic for a bound out of range. *)
Definition slice_to (s : string) (n : Z) : option string :=
  if (0 <=? n) && (n <=? len s)
  then Some (String.substring 0 (Z.to_nat n) s)
  else None.

(** The class of [SanitizeFilename]: any rune but the ASCII letters and
    digits, the dot, the underscore and the dash. *)
Definition unsafeRegex : Regexp :=
  Cls (none_of [range "a" "z"; range "A" "Z"; range "0" "9";
                one "."; one "_"; one "-"]).

(** [SanitizeFilename]; [None] would be a panic. *)
Definition SanitizeFilename (name : string) : option string :=
  let safe := ReplaceAllString unsafeRegex name "_" in
  if 200 <? len safe then slice_to safe 200 else Some safe.

(** The string holding the line feed. *)
Definition newline : string := String "010" EmptyString.

(** [InjectImageIntoMarkdown] *)
Definition InjectImageIntoMarkdown (markdown imageURL altText : string) : string :=
  let altText := if decide (altText = "") then "image" else altText in
  let imageMarkdown := "![" +:+ altText +:+ "](" +:+ imageURL +:+ ")" in
  if decide (strings.TrimSpace markdown = "") then imageMarkdown
  else markdown +:+ newline +:+ newline +:+ imageMarkdown.

End files.

(** ** pkg/api: UploadFileToLinear *)

Module api.

(** One entry of the header list of an upload grant. *)
Record HeaderEntry : Type := { Key : string; Value : string }.

(** The result of [c.FileUpload], with the fields [UploadFileToLinear]
    reads.  The type is declared in a file of package [api] that is not part
    of the sources at hand. *)
Record UploadFile : Type := {
  UploadURL : string;
  AssetURL : string;
  Headers : list HeaderEntry;
  ContentType : string
}.

(** The receiver [c *Client]: of its methods only [FileUpload] is called,
    a request to the remote service that answers with an upload grant. *)
Record Client `{Runtime} : Type := {
  FileUpload : string -> Z -> string -> M (result UploadFile)
}.

(** [UploadFileToLinear]; the results are the asset URL and the error.
    [pick] is the choice of the order in which the upload visits the
    headers. *)
Definition UploadFileToLinear `{Runtime} (c : Client) (filePath : string)
    (pick : gmap string string -> list (string * string)) : M (string * option string) :=
  fun w =>
    match files.GetFileInfo filePath w with
    | ((_, _, Some err), w) => (("", Some ("failed to get file info: " +:+ err)), w)
    | ((size, contentType, None), w) =>
      match files.ReadFile filePath w with
      | (inl err, w) => (("", Some ("failed to read file: " +:+ err)), w)
      | (inr fileContent, w) =>
        let filename := filepath_Base filePath in
        match FileUpload c filename size contentType w with
        | (inl err, w) => (("", Some ("failed to request upload URL: " +:+ err)), w)
        | (inr uploadInfo, w) =>
          let headers :=
            fold_left (fun (headers : gmap string string) h => <[Key h := Value h]> headers)
                      (Headers uploadInfo) ∅ in
          let uploadFileInfo :=
            {| files.UploadURL := UploadURL uploadInfo;
               files.AssetURL := AssetURL uploadInfo;
               files.Headers := headers;
               files.ContentType := ContentType uploadInfo;
               files.Size := size |} in
          match files.UploadToPresignedURL uploadFileInfo fileContent pick w with
          | (Some err, w) => (("", Some ("failed to upload file: " +:+ err)), w)
          | (None, w) => ((AssetURL uploadInfo, None), w)
          end
        end
      end
    end.

End api.

(** ** A platform to run the functions on

    A small filesystem (directories and files by name), a server that
    answers every request with [canned], and libraries that do the least. *)

Module sim.

Record disk_state : Type := {
  dirs : list string;
  contents : gmap string string
}.

Definition mkdir (dir : string) (perm : Z) (fs : disk_state) : option string * disk_state :=
  (None, {| dirs := dir :: dirs fs; contents := contents fs |}).

Definition create (name : string) (fs : disk_state) : result string * disk_state :=
  (inr name, {| dirs := dirs fs; contents := <[name := ""]> (contents fs) |}).

Definition copy (name : string) (src : http.ReadCloser) (fs : disk_state)
  : option string * disk_state :=
  (http.broken src,
   {| dirs := dirs fs; contents := <[name := http.delivered src]> (contents fs) |}).

Definition stat (name : string) (fs : disk_state) : result os.FileInfo :=
  match contents fs !! name with
  | Some data => inr {| os.Size := len data |}
  | None => inl ("stat " +:+ name +:+ ": no such file or directory")
  end.

Definition read (name : string) (fs : disk_state) : result string :=
  match contents fs !! name with
  | Some data => inr data
  | None => inl ("open " +:+ name +:+ ": no such file or directory")
  end.

Definition platform (canned : result http.Response) : Runtime := {|
  FS := disk_state;
  File := string;
  url_error := fun _ => None;
  client_Do := fun _ => canned;
  filepath_Dir := fun p => p;
  filepath_Base := fun p => p;
  os_MkdirAll := mkdir;
  os_Create := create;
  io_Copy := copy;
  os_Stat := stat;
  os_ReadFile := read;
  lower_unicode := fun s => s
|}.

Definition response (code : Z) (status body : string) : http.Response :=
  {| http.Status := status; http.StatusCode := code;
     http.RespBody := {| http.delivered := body; http.broken := None |} |}.

Definition not_found : http.Response := response 404 "404 Not Found" "no such object".

(** A disk with one file. *)
Definition one_file (name data : string) : disk_state :=
  {| dirs := []; contents := {[ name := data ]} |}.

(** A disk that cannot be written: only a directory that exists can be
    "made", no file can be created.  A URL that starts with a colon does
    not parse. *)
Definition parse (u : string) : option string :=
  if strings.HasPrefix u ":" then Some ("parse " +:+ u +:+ ": missing protocol scheme")
  else None.

Definition mkdir_ro (dir : string) (perm : Z) (fs : disk_state) : option string * disk_state :=
  if decide (dir ∈ dirs fs) then (None, fs)
  else (Some ("mkdir " +:+ dir +:+ ": read-only file system"), fs).

Definition create_ro (name : string) (fs : disk_state) : result string * disk_state :=
  (inl ("open " +:+ name +:+ ": read-only file system"), fs).

Definition readonly (canned : result http.Response) : Runtime := {|
  FS := disk_state;
  File := string;
  url_error := parse;
  client_Do := fun _ => canned;
  filepath_Dir := fun p => p;
  filepath_Base := fun p => p;
  os_MkdirAll := mkdir_ro;
  os_Create := create_ro;
  io_Copy := copy;
  os_Stat := stat;
  os_ReadFile := read;
  lower_unicode := fun s => s
|}.

(** A disk whose files can be examined but not read. *)
Definition locked (canned : result http.Response) : Runtime := {|
  FS := disk_state;
  File := string;
  url_error := parse;
  client_Do := fun _ => canned;
  filepath_Dir := fun p => p;
  filepath_Base := fun p => p;
  os_MkdirAll := mkdir;
  os_Create := create;
  io_Copy := copy;
  os_Stat := stat;
  os_ReadFile := fun name _ => inl ("open " +:+ name +:+ ": permission denied");
  lower_unicode := fun s => s
|}.

(** A client whose [FileUpload] gives every call the same answer. *)
Definition client `{Runtime} (answer : result api.UploadFile) : api.Client :=
  {| api.FileUpload := fun _ _ _ w => (answer, w) |}.

End sim.

(** * Vocabulary of the properties *)

(** A rune of the ASCII range stands for its own single byte; any other rune
    is decoded from bytes outside the ASCII range. *)
Definition tok_ok (t : utf8.token) : Prop :=
  (exists c, t = (byte_val c, [c]) /\ byte_val c < 0x80)
  \/ (0x80 <= fst t /\ snd t <> [] /\ Forall (fun c => 0x80 <= byte_val c) (snd t)).

(** Scanning a text from left to right for occurrences of a form.
    [at_head s x rest] says that the form occurs at the very start of [s],
    with the parts [x], and that [rest] is the text after the occurrence.
    [scanned s xs] lists the occurrences the scan reports: the leftmost one,
    then those of the scan of the text after it. *)
Section Scan.

Context {X : Type}.
Variable at_head : list ascii -> X -> list ascii -> Prop.

Inductive scanned : list ascii -> list X -> Prop :=
| scanned_none (s : list ascii) :
    (forall pre s' x rest, s = pre ++ s' -> ~ at_head s' x rest) ->
    scanned s []
| scanned_next (s pre s' : list ascii) (x : X) (rest : list ascii) (xs : list X) :
    s = pre ++ s' ->
    at_head s' x rest ->
    (forall pre2 s2 x2 rest2, s = pre2 ++ s2 -> (length pre2 < length pre)%nat ->
                              ~ at_head s2 x2 rest2) ->
    scanned rest xs ->
    scanned s (x :: xs).

End Scan.

(** The longest prefix of runes of a class, and the runes after it. *)
Fixpoint span (c : regexp.class) (ts : list utf8.token) : list utf8.token * list utf8.token :=
  match ts with
  | t :: ts' =>
    if regexp.in_class c (fst t)
    then (t :: fst (span c ts'), snd (span c ts'))
    else ([], ts)
  | [] => ([], [])
  end.

(** The outcomes [l] of the rest of a pattern, after a part that matched
    [m] with the groups [caps]. *)
Definition glue (m : list ascii) (caps : list (list ascii)) (l : list regexp.outcome)
  : list regexp.outcome :=
  map (fun o => (m ++ fst (fst o), caps ++ snd (fst o), snd o)) l.

(** A pattern that cannot start with a rune of the class [c]. *)
Definition rejects (e : regexp.Regexp) (c : regexp.class) : Prop :=
  forall (t : utf8.token) (ts : list utf8.token),
    regexp.in_class c (fst t) = true -> regexp.alternatives e (t :: ts) = [].

(** Form A at the head of [s]: the markdown image [![alt](url)], the alt
    text free of the closing bracket, the URL not empty and free of the
    closing parenthesis.  The parts are the alt text and the URL. *)
Definition formA_at (s : list ascii) (parts : list (list ascii)) (rest : list ascii) : Prop :=
  exists alt url,
    parts = [alt; url]
    /\ s = bytes_of "![" ++ alt ++ bytes_of "](" ++ url ++ bytes_of ")" ++ rest
    /\ ~ In "]"%char alt /\ url <> [] /\ ~ In ")"%char url.

(** Form B at the head of [s]: [<img], some text free of [>], then [src=]
    and the URL between double quotes, the URL not empty and free of the
    double quote. *)
Definition formB_split (s junk url rest : list ascii) : Prop :=
  s = bytes_of "<img" ++ junk ++ bytes_of "src=" ++ [files.dq] ++ url ++ [files.dq] ++ rest
  /\ junk <> [] /\ ~ In ">"%char junk /\ url <> [] /\ ~ In files.dq url.

(** Where a tag can be read in several ways (it holds [src=] more than
    once), the reading with the longest text before [src=] counts.  The part
    is the URL. *)
Definition formB_at (s : list ascii) (parts : list (list ascii)) (rest : list ascii) : Prop :=
  exists junk url,
    parts = [url] /\ formB_split s junk url rest
    /\ forall junk' url' rest', formB_split s junk' url' rest' ->
                                (length junk' <= length junk)%nat.

(** The rune of an ASCII byte, as decoded. *)
Definition tk (c : ascii) : utf8.token := (byte_val c, [c]).

(** The classes of the two patterns of images. *)
Definition notRB : regexp.class := regexp.none_of [regexp.one "]"].
Definition notRP : regexp.class := regexp.none_of [regexp.one ")"].
Definition notGT : regexp.class := regexp.none_of [regexp.one ">"].
Definition notDQ : regexp.class := regexp.none_of [regexp.one files.dq].

(** The end of the HTML pattern, from [src=] on. *)
Definition srcRegex : regexp.Regexp :=
  regexp.seq [regexp.lit "s"; regexp.lit "r"; regexp.lit "c"; regexp.lit "=";
              regexp.lit files.dq; regexp.Cap (regexp.Plus notDQ); regexp.lit files.dq].

(** [src=], then the URL between double quotes, at the head of [s]. *)
Definition src_split (s url rest : list ascii) : Prop :=
  s = bytes_of "src=" ++ [files.dq] ++ url ++ [files.dq] ++ rest
  /\ url <> [] /\ ~ In files.dq url.

(** The image reported for an occurrence of Form A, of Form B. *)
Definition imageA (parts : list (list ascii)) : files.ImageInfo :=
  {| files.URL := string_of (nth 1 parts []);
     files.AltText := string_of (nth 0 parts []);
     files.IsLinearURL := strings.Contains (string_of (nth 1 parts [])) "linear.app" |}.

Definition imageB (parts : list (list ascii)) : files.ImageInfo :=
  {| files.URL := string_of (nth 0 parts []);
     files.AltText := "";
     files.IsLinearURL := strings.Contains (string_of (nth 0 parts [])) "linear.app" |}.

(** [s] holds [sub] somewhere. *)
Definition substring_of (sub s : string) : Prop :=
  exists pre post, s = pre +:+ sub +:+ post.

(** The characters [SanitizeFilename] lets through: [A-Za-z0-9._-]. *)
Definition in_set (c : ascii) : Prop :=
  byte_val "a" <= byte_val c <= byte_val "z"
  \/ byte_val "A" <= byte_val c <= byte_val "Z"
  \/ byte_val "0" <= byte_val c <= byte_val "9"
  \/ c = "."%char \/ c = "_"%char \/ c = "-"%char.

(** One rune after [ReplaceAllString] with a class: the replacement for a
    rune of the class, its own bytes for any other. *)
Definition replaced (c : regexp.class) (repl : list ascii) (t : utf8.token) : list ascii :=
  if regexp.in_class c (fst t) then repl else snd t.

(** The class of [SanitizeFilename]. *)
Definition safe_ranges : list (Z * Z) :=
  [regexp.range "a" "z"; regexp.range "A" "Z"; regexp.range "0" "9";
   regexp.one "."; regexp.one "_"; regexp.one "-"].
Definition unsafe : regexp.class := regexp.none_of safe_ranges.

Ltac byte_consts :=
  change (byte_val "a") with 97 in *; change (byte_val "z") with 122 in *;
  change (byte_val "A") with 65 in *; change (byte_val "Z") with 90 in *;
  change (byte_val "0") with 48 in *; change (byte_val "9") with 57 in *;
  change (byte_val ".") with 46 in *; change (byte_val "_") with 95 in *;
  change (byte_val "-") with 45 in *.

(** A text of white space only. *)
Definition blank (s : string) : Prop :=
  Forall (fun t => unicode.IsSpace (fst t) = true) (utf8.runes (bytes_of s)).

(** The table of content types by extension, and the generic binary type. *)
Definition mime_table : list (string * string) :=
  [(".jpg", "image/jpeg"); (".jpeg", "image/jpeg"); (".png", "image/png");
   (".gif", "image/gif"); (".webp", "image/webp"); (".svg", "image/svg+xml");
   (".bmp", "image/bmp"); (".mp4", "video/mp4"); (".webm", "video/webm");
   (".mov", "video/quicktime"); (".pdf", "application/pdf")].

Definition octet_stream : string := "application/octet-stream".

Fixpoint lookup_table (table : list (string * string)) (ext : string) : option string :=
  match table with
  | [] => None
  | (e, ct) :: table' => if (ext =? e)%string then Some ct else lookup_table table' ext
  end.

(** The content type the table gives an extension already in lower case. *)
Definition content_type_for (ext : string) : string :=
  match lookup_table mime_table ext with
  | Some ct => ct
  | None => octet_stream
  end.

(** The request [DownloadImage] hands to the transport. *)
Definition download_request (url authHeader : string) : http.Request :=
  {| http.Method := "GET"; http.URL := url;
     http.Header := if decide (authHeader <> "")
                     then http.Header_Set ∅ "Authorization" authHeader else ∅;
     http.Body := None |}.

(** The request [UploadToPresignedURL] hands to the transport. *)
Definition upload_request (info : files.UploadFileInfo) (fileContent : string)
    (pick : gmap string string -> list (string * string)) : http.Request :=
  files.with_headers
    {| http.Method := "PUT"; http.URL := files.UploadURL info;
       http.Header := ∅; http.Body := Some fileContent |} info pick.

(** An upload target with two header names that differ in letter case. *)
Definition two_cases : files.UploadFileInfo :=
  {| files.UploadURL := "https://bucket/put"; files.AssetURL := "https://a/1";
     files.Headers := {[ "x-a" := "1"; "X-A" := "2" ]};
     files.ContentType := "image/png"; files.Size := 3 |}.

(** The image reference [InjectImageIntoMarkdown] writes. *)
Definition reference (imageURL altText : string) : string :=
  "![" +:+ (if decide (altText = "") then "image" else altText) +:+ "](" +:+ imageURL +:+ ")".

(** The upload target [UploadFileToLinear] makes of a grant and of the size
    of the file. *)
Definition target_of (uploadInfo : api.UploadFile) (size : Z) : files.UploadFileInfo :=
  {| files.UploadURL := api.UploadURL uploadInfo;
     files.AssetURL := api.AssetURL uploadInfo;
     files.Headers :=
       fold_left (fun (headers : gmap string string) h =>
                    <[api.Key h := api.Value h]> headers)
                 (api.Headers uploadInfo) ∅;
     files.ContentType := api.ContentType uploadInfo;
     files.Size := size |}.

(** What [SanitizeFilename] makes of one byte of a name of ASCII bytes. *)
Definition scrub (c : ascii) : ascii :=
  if regexp.in_ranges safe_ranges (byte_val c) then c else "_"%char.

(** What [SanitizeFilename] makes of one rune: the byte of a rune of a
    single byte is treated as above, a rune of several bytes becomes an
    underscore. *)
Definition scrub_rune (t : utf8.token) : ascii :=
  match snd t with
  | [c] => scrub c
  | _ => "_"%char
  end.

(** * Properties *)

(** ** Bytes and strings *)

Lemma byte_val_range (c : ascii) : 0 <= byte_val c < 256.
Proof.
  unfold byte_val. pose proof (N_ascii_bounded c) as Hb. lia.
Qed.

Lemma byte_val_inj (c d : ascii) : byte_val c = byte_val d -> c = d.
Proof.
  unfold byte_val. intros Heq. apply N2Z.inj in Heq.
  rewrite <- (ascii_N_embedding c), <- (ascii_N_embedding d). by rewrite Heq.
Qed.

Lemma string_of_bytes_of (s : string) : string_of (bytes_of s) = s.
Proof. apply String.string_of_list_ascii_of_string. Qed.

Lemma bytes_of_string_of (b : list ascii) : bytes_of (string_of b) = b.
Proof. apply String.list_ascii_of_string_of_list_ascii. Qed.

Lemma bytes_of_app (s t : string) : bytes_of (s +:+ t) = bytes_of s ++ bytes_of t.
Proof.
  induction s as [|c s IH]; [done|].
  change (bytes_of (String c s +:+ t)) with (c :: bytes_of (s +:+ t)).
  by rewrite IH.
Qed.

Lemma string_of_app (a b : list ascii) : string_of (a ++ b) = string_of a +:+ string_of b.
Proof.
  rewrite <- (string_of_bytes_of (string_of a +:+ string_of b)).
  by rewrite bytes_of_app, !bytes_of_string_of.
Qed.

Lemma bytes_of_inj (s t : string) : bytes_of s = bytes_of t -> s = t.
Proof.
  intros Heq. rewrite <- (string_of_bytes_of s), <- (string_of_bytes_of t).
  by rewrite Heq.
Qed.

Lemma length_bytes_of (s : string) : length (bytes_of s) = String.length s.
Proof. induction s as [|c s IH]; [done|]. simpl. by rewrite IH. Qed.

(** ** UTF-8 decoding *)

Section Utf8.

Import utf8.

Lemma lor_ge_l (a b : Z) : 0 <= a -> 0 <= b -> a <= Z.lor a b.
Proof.
  intros Ha Hb. pose proof (Z.sub_lor_l_same_l b a) as Heq.
  assert (0 <= Z.land b (Z.lnot a)) by (apply Z.land_nonneg; auto).
  lia.
Qed.

Lemma lor_ge_r (a b : Z) : 0 <= a -> 0 <= b -> b <= Z.lor a b.
Proof. intros. rewrite Z.lor_comm. by apply lor_ge_l. Qed.

Lemma lor_pos (a b : Z) : 0 <= a -> 0 <= b -> 0 <= Z.lor a b.
Proof. intros. by apply Z.lor_nonneg. Qed.


Local Arguments byte_val : simpl never.

Lemma first_cases (b : Z) :
  0 <= b < 256 ->
  (b < 0x80 /\ first b = as_) \/ (0x80 <= b /\ first b = xx)
  \/ (0xC2 <= b < 0xE0 /\ first b = s1) \/ (b = 0xE0 /\ first b = s2)
  \/ (0xE1 <= b < 0xF0 /\ first b = s3) \/ (b = 0xED /\ first b = s4)
  \/ (b = 0xF0 /\ first b = s5) \/ (0xF1 <= b < 0xF4 /\ first b = s6)
  \/ (b = 0xF4 /\ first b = s7).
Proof.
  intros Hb. unfold first.
  repeat match goal with
         | |- context [ if ?x <? ?y then _ else _ ] => destruct (Z.ltb_spec x y)
         | |- context [ if ?x =? ?y then _ else _ ] => destruct (Z.eqb_spec x y)
         end; lia.
Qed.

(** The payload bits of a byte. *)
Lemma payload (b : Z) (n : Z) :
  0 <= n -> 0 <= Z.land b (Z.ones n) /\ Z.land b (Z.ones n) = b mod 2 ^ n.
Proof.
  intros Hn. rewrite Z.land_ones by done. split; [|done].
  apply Z.mod_pos_bound. by apply Z.pow_pos_nonneg.
Qed.

Lemma rune2_ge (b0 b1 : Z) :
  0xC2 <= b0 < 0xE0 ->
  0x80 <= Z.lor (Z.shiftl (Z.land b0 mask2) 6) (Z.land b1 maskx).
Proof.
  intros H0.
  destruct (payload b0 5) as [Hp0 Hm0]; [lia|].
  destruct (payload b1 6) as [Hp1 Hm1]; [lia|].
  change mask2 with (Z.ones 5). change maskx with (Z.ones 6).
  rewrite Z.shiftl_mul_pow2 by lia.
  etrans; [|apply lor_ge_l; lia].
  rewrite Hm0. change (2 ^ 5) with 32. change (2 ^ 6) with 64.
  Z.div_mod_to_equations. lia.
Qed.

Lemma rune3_ge (b0 b1 b2 : Z) :
  (b0 = 0xE0 /\ 0xA0 <= b1 <= 0xBF) \/ 0xE1 <= b0 < 0xF0 ->
  0x80 <= Z.lor (Z.lor (Z.shiftl (Z.land b0 mask3) 12)
                       (Z.shiftl (Z.land b1 maskx) 6))
                (Z.land b2 maskx).
Proof.
  intros H0.
  destruct (payload b0 4) as [Hp0 Hm0]; [lia|].
  destruct (payload b1 6) as [Hp1 Hm1]; [lia|].
  destruct (payload b2 6) as [Hp2 Hm2]; [lia|].
  change mask3 with (Z.ones 4). change maskx with (Z.ones 6).
  rewrite !Z.shiftl_mul_pow2 by lia.
  etrans; [|apply lor_ge_l; [apply lor_pos|]; lia].
  destruct H0 as [[-> H1]|H0].
  - etrans; [|apply lor_ge_r; lia].
    rewrite Hm1. change (2 ^ 6) with 64. Z.div_mod_to_equations. lia.
  - etrans; [|apply lor_ge_l; lia].
    rewrite Hm0. change (2 ^ 4) with 16. change (2 ^ 12) with 4096.
    Z.div_mod_to_equations. lia.
Qed.

Lemma rune4_ge (b0 b1 b2 b3 : Z) :
  (b0 = 0xF0 /\ 0x90 <= b1 <= 0xBF) \/ 0xF1 <= b0 <= 0xF4 ->
  0x80 <= Z.lor (Z.lor (Z.lor (Z.shiftl (Z.land b0 mask4) 18)
                              (Z.shiftl (Z.land b1 maskx) 12))
                       (Z.shiftl (Z.land b2 maskx) 6))
                (Z.land b3 maskx).
Proof.
  intros H0.
  destruct (payload b0 3) as [Hp0 Hm0]; [lia|].
  destruct (payload b1 6) as [Hp1 Hm1]; [lia|].
  destruct (payload b2 6) as [Hp2 Hm2]; [lia|].
  destruct (payload b3 6) as [Hp3 Hm3]; [lia|].
  change mask4 with (Z.ones 3). change maskx with (Z.ones 6).
  rewrite !Z.shiftl_mul_pow2 by lia.
  etrans; [|apply lor_ge_l; [apply lor_pos; [apply lor_pos|]|]; lia].
  etrans; [|apply lor_ge_l; [apply lor_pos|]; lia].
  destruct H0 as [[-> H1]|H0].
  - etrans; [|apply lor_ge_r; lia].
    rewrite Hm1. change (2 ^ 6) with 64. change (2 ^ 12) with 4096.
    Z.div_mod_to_equations. lia.
  - etrans; [|apply lor_ge_l; lia].
    rewrite Hm0. change (2 ^ 3) with 8. change (2 ^ 18) with 262144.
    Z.div_mod_to_equations. lia.
Qed.

Lemma out_of_false (lo hi b : Z) : out_of lo hi b = false -> lo <= b <= hi.
Proof. unfold out_of. intros [H1 H2]%orb_false_elim. lia. Qed.

Lemma DecodeRune_ok (c0 : ascii) (t0 : list ascii) (r : Z) (w : nat) :
  DecodeRune (c0 :: t0) = (r, w) ->
  (1 <= w <= length (c0 :: t0))%nat /\ tok_ok (r, take w (c0 :: t0)).
Proof.
  pose proof (byte_val_range c0) as H0.
  assert (Herr : 0x80 <= byte_val c0 ->
          (1 <= 1 <= length (c0 :: t0))%nat /\ tok_ok (RuneError, take 1 (c0 :: t0))).
  { intros Hge. split; [simpl; lia|]. right. simpl.
    split; [unfold RuneError; lia|]. split; [done|]. by constructor. }
  unfold DecodeRune.
  destruct (first_cases _ H0) as [[Hb ->]|[[Hb ->]|[[Hb ->]|[[Hb ->]|[[Hb ->]|[[Hb ->]|[[Hb ->]|[[Hb ->]|[Hb ->]]]]]]]]];
    simpl; intros Hd.
  { simplify_eq. split; [simpl; lia|]. left. by exists c0. }
  all: repeat match type of Hd with
         | context [match ?l with [] => _ | _ :: _ => _ end] => destruct l
         | context [if ?b then _ else _] => destruct b eqn:?
         end; simplify_eq; try (apply Herr; lia).
  all: repeat match goal with
         | H : out_of _ _ _ = false |- _ => apply out_of_false in H
         end; unfold locb, hicb in *.
  all: split; [simpl; lia|]; right; simpl.
  all: split;
    [match goal with
     | |- _ <= Z.lor (Z.lor (Z.lor _ _) _) _ => apply rune4_ge
     | |- _ <= Z.lor (Z.lor _ _) _ => apply rune3_ge
     | |- _ => apply rune2_ge
     end; lia|].
  all: split; [done|]; repeat constructor; lia.
Qed.

Local Arguments DecodeRune : simpl never.

Lemma DecodeRune_ascii (c : ascii) (s : list ascii) :
  byte_val c < 0x80 -> DecodeRune (c :: s) = (byte_val c, 1%nat).
Proof.
  intros Hc. unfold DecodeRune, first.
  destruct (Z.ltb_spec (byte_val c) 128); [done|lia].
Qed.

Lemma decode_cons (n : nat) (c : ascii) (s : list ascii) :
  decode (S n) (c :: s) =
  (fst (DecodeRune (c :: s)), take (snd (DecodeRune (c :: s))) (c :: s))
    :: decode n (drop (snd (DecodeRune (c :: s))) (c :: s)).
Proof. cbn [decode]. by destruct (DecodeRune (c :: s)). Qed.

(** More rounds than bytes change nothing. *)
Lemma decode_fuel (n m : nat) (s : list ascii) :
  (length s <= n)%nat -> (length s <= m)%nat -> decode n s = decode m s.
Proof.
  revert m s. induction n as [|n IH]; intros m s Hn Hm.
  - destruct s; [|simpl in Hn; lia]. by destruct m.
  - destruct s as [|c s]; [by destruct m|].
    destruct m as [|m]; [simpl in Hm; lia|].
    rewrite !decode_cons. f_equal.
    destruct (DecodeRune (c :: s)) as [r w] eqn:Hd.
    apply DecodeRune_ok in Hd as [Hw _]. simpl snd.
    apply IH; rewrite length_drop; cbn [length] in *; lia.
Qed.

Lemma runes_cons (c : ascii) (s : list ascii) :
  runes (c :: s) =
  (fst (DecodeRune (c :: s)), take (snd (DecodeRune (c :: s))) (c :: s))
    :: runes (drop (snd (DecodeRune (c :: s))) (c :: s)).
Proof.
  unfold runes. cbn [length]. rewrite decode_cons. f_equal.
  destruct (DecodeRune (c :: s)) as [r w] eqn:Hd.
  apply DecodeRune_ok in Hd as [Hw _]. simpl snd.
  apply decode_fuel; rewrite ?length_drop; cbn [length] in *; lia.
Qed.

Lemma runes_cons_ascii (c : ascii) (s : list ascii) :
  byte_val c < 0x80 -> runes (c :: s) = (byte_val c, [c]) :: runes s.
Proof. intros Hc. rewrite runes_cons, DecodeRune_ascii by done. done. Qed.

(** Induction on a string rune by rune. *)
Lemma rune_ind (P : list ascii -> Prop) :
  P [] ->
  (forall c s, P (drop (snd (DecodeRune (c :: s))) (c :: s)) -> P (c :: s)) ->
  forall s, P s.
Proof.
  intros Hnil Hcons s.
  induction s as [s IH] using (induction_ltof1 _ (@length ascii)).
  destruct s as [|c s]; [done|].
  apply Hcons. apply IH. unfold ltof.
  destruct (DecodeRune (c :: s)) as [r w] eqn:Hd.
  apply DecodeRune_ok in Hd as [Hw _]. simpl snd.
  rewrite length_drop. cbn [length] in *. lia.
Qed.

(** Decoding loses no byte. *)
Lemma runes_text (s : list ascii) : text (runes s) = s.
Proof.
  induction s as [|c s IH] using rune_ind; [done|].
  rewrite runes_cons. unfold text in *. simpl. rewrite IH.
  apply take_drop.
Qed.

Lemma runes_ok (s : list ascii) : Forall tok_ok (runes s).
Proof.
  induction s as [|c s IH] using rune_ind; [constructor|].
  rewrite runes_cons. constructor; [|done].
  destruct (DecodeRune (c :: s)) as [r w] eqn:Hd.
  by apply DecodeRune_ok in Hd as [_ Hok].
Qed.

Lemma tok_ok_bytes (t : token) (c : ascii) :
  tok_ok t -> c ∈ snd t -> byte_val c < 0x80 -> t = (byte_val c, [c]).
Proof.
  intros [(d & -> & Hd)|(_ & _ & Hall)] Hin Hc.
  - simpl in Hin. apply list_elem_of_singleton in Hin. by subst.
  - rewrite Forall_forall in Hall. apply Hall in Hin. lia.
Qed.

(** The runes of [a ++ c :: b], for an ASCII byte [c], are runes of [a]
    followed by the runes of [c :: b]: no rune spans the seam. *)
Lemma runes_app_ascii (a : list ascii) (c : ascii) (b : list ascii) :
  byte_val c < 0x80 ->
  exists ta, runes (a ++ c :: b) = ta ++ runes (c :: b)
             /\ text ta = a /\ Forall tok_ok ta.
Proof.
  intros Hc.
  induction a as [a IH] using (induction_ltof1 _ (@length ascii)).
  destruct a as [|a0 a].
  { exists []. by repeat split. }
  rewrite <- app_comm_cons, runes_cons.
  destruct (DecodeRune (a0 :: a ++ c :: b)) as [r w] eqn:Hd.
  apply DecodeRune_ok in Hd as [Hw Hok]. cbn [fst snd].
  assert (Hle : (w <= length (a0 :: a))%nat).
  { destruct (decide (w <= length (a0 :: a))%nat) as [|Hgt]; [done|exfalso].
    destruct Hok as [(d & Heq & _)|(_ & _ & Hall)].
    - injection Heq as _ Htake.
      apply (f_equal length) in Htake. rewrite length_take in Htake.
      cbn [length] in *. lia.
    - cbn [snd] in Hall. rewrite Forall_forall in Hall.
      assert (Hin : c ∈ take w ((a0 :: a) ++ c :: b)).
      { apply list_elem_of_lookup. exists (length (a0 :: a)).
        rewrite lookup_take_lt by lia.
        by rewrite lookup_app_r, Nat.sub_diag by lia. }
      apply Hall in Hin. lia. }
  rewrite app_comm_cons in *.
  rewrite take_app_le, drop_app_le in * by done.
  destruct (IH (drop w (a0 :: a))) as (ta & Hr & Ht & Hta).
  { unfold ltof. rewrite length_drop. cbn [length] in *. lia. }
  exists ((r, take w (a0 :: a)) :: ta). split; [by rewrite Hr|].
  split; [|by constructor].
  unfold text in *. cbn [map concat snd]. rewrite Ht. apply take_drop.
Qed.

(** The bytes of runes of the ASCII range, and only those, are ASCII. *)
Lemma tok_ok_rune (t : token) (c : ascii) :
  tok_ok t -> fst t = byte_val c -> byte_val c < 0x80 -> snd t = [c].
Proof.
  intros [(d & -> & Hd)|(Hge & _ & _)] Heq Hc.
  - cbn in *. apply byte_val_inj in Heq. by subst.
  - lia.
Qed.

End Utf8.

(** ** The matcher *)

Section Engine.

Import utf8 regexp.

Lemma text_app (a b : list token) : text (a ++ b) = text a ++ text b.
Proof. unfold text. by rewrite map_app, concat_app. Qed.

Lemma text_cons (t : token) (ts : list token) : text (t :: ts) = snd t ++ text ts.
Proof. done. Qed.

(** Every way [c*] matches takes a prefix of runes of the class. *)
Lemma star_consumes (c : class) (ts : list token) (m : list ascii) (rest : list token) :
  In (m, rest) (star c ts) ->
  exists tm, ts = tm ++ rest /\ m = text tm
             /\ Forall (fun t => in_class c (fst t) = true) tm.
Proof.
  revert m rest. induction ts as [|t ts IH]; intros m rest Hin.
  - simpl in Hin. destruct Hin as [[= <- <-]|[]]. by exists [].
  - simpl in Hin. destruct (in_class c (fst t)) eqn:Hc.
    + apply in_app_or in Hin as [Hin|[[= <- <-]|[]]]; [|by exists []].
      apply in_map_iff in Hin as ([m' rest'] & [= <- <-] & Hin).
      destruct (IH _ _ Hin) as (tm & -> & -> & Hall).
      exists (t :: tm). split_and!; [done..|]. by constructor.
    + destruct Hin as [[= <- <-]|[]]. by exists [].
Qed.

(** Every way a pattern matches takes a prefix of the input. *)
Lemma alternatives_consumes (e : Regexp) (ts : list token)
    (m : list ascii) (caps : list (list ascii)) (rest : list token) :
  In (m, caps, rest) (alternatives e ts) ->
  exists tm, ts = tm ++ rest /\ m = text tm.
Proof.
  revert ts m caps rest.
  induction e as [|r|c|c|c|e IH|e1 IH1 e2 IH2]; intros ts m caps rest Hin; simpl in Hin.
  - destruct Hin as [[= <- <- <-]|[]]. by exists [].
  - destruct ts as [|t ts]; [done|]. destruct (fst t =? r); [|done].
    destruct Hin as [[= <- <- <-]|[]]. exists [t]. split; [done|].
    unfold text. simpl. by rewrite app_nil_r.
  - destruct ts as [|t ts]; [done|]. destruct (in_class c (fst t)); [|done].
    destruct Hin as [[= <- <- <-]|[]]. exists [t]. split; [done|].
    unfold text. simpl. by rewrite app_nil_r.
  - apply in_map_iff in Hin as ([m' rest'] & [= <- <- <-] & Hin).
    apply star_consumes in Hin as (tm & ? & ? & _). by exists tm.
  - destruct ts as [|t ts]; [done|]. destruct (in_class c (fst t)); [|done].
    apply in_map_iff in Hin as ([m' rest'] & [= <- <- <-] & Hin).
    apply star_consumes in Hin as (tm & -> & -> & _). by exists (t :: tm).
  - apply in_map_iff in Hin as ([[m' caps'] rest'] & [= <- <- <-] & Hin).
    by apply IH in Hin.
  - apply in_flat_map in Hin as ([[m1 caps1] rest1] & Hin1 & Hin).
    apply in_map_iff in Hin as ([[m2 caps2] rest2] & [= <- <- <-] & Hin2).
    apply IH1 in Hin1 as (tm1 & -> & ->). apply IH2 in Hin2 as (tm2 & -> & ->).
    exists (tm1 ++ tm2). by rewrite <- app_assoc, text_app.
Qed.

Lemma match_here_consumes (e : Regexp) (ts : list token)
    (m : list ascii) (caps : list (list ascii)) (rest : list token) :
  match_here e ts = Some (m, caps, rest) ->
  exists tm, ts = tm ++ rest /\ m = text tm.
Proof.
  unfold match_here. intros Hh. apply head_Some in Hh as [l Hl].
  apply (alternatives_consumes e ts m caps rest). rewrite Hl. by left.
Qed.

(** [search] returns the match at the leftmost position that has one. *)
Lemma search_Some (e : Regexp) (ts : list token) (pre : list ascii) (o : outcome) :
  search e ts = Some (pre, o) ->
  exists tpre ts', ts = tpre ++ ts' /\ pre = text tpre
    /\ match_here e ts' = Some o
    /\ forall t1 t2, ts = t1 ++ t2 -> (length t1 < length tpre)%nat ->
                     match_here e t2 = None.
Proof.
  revert pre. induction ts as [|t ts IH]; intros pre Hs; simpl in Hs.
  - destruct (match_here e []) as [o'|] eqn:Hm; [|done].
    injection Hs as <- <-. exists [], []. split_and!; [done..|].
    intros ? ? _ Hlt. simpl in Hlt. lia.
  - destruct (match_here e (t :: ts)) as [o'|] eqn:Hm.
    + injection Hs as <- <-. exists [], (t :: ts). split_and!; [done..|].
      intros ? ? _ Hlt. simpl in Hlt. lia.
    + destruct (search e ts) as [[pre' o']|] eqn:Hs'; [|done].
      injection Hs as <- <-.
      destruct (IH _ eq_refl) as (tpre & ts' & -> & -> & Hm' & Hleft).
      exists (t :: tpre), ts'. split_and!; [done..|].
      intros t1 t2 Heq Hlt. destruct t1 as [|t1h t1].
      * simpl in Heq. by subst t2.
      * injection Heq as -> Heq. apply (Hleft t1 t2 Heq). simpl in Hlt. lia.
Qed.

Lemma search_None (e : Regexp) (ts : list token) :
  search e ts = None -> forall t1 t2, ts = t1 ++ t2 -> match_here e t2 = None.
Proof.
  induction ts as [|t ts IH]; intros Hs t1 t2 Heq; simpl in Hs.
  - destruct (match_here e []) eqn:Hm; [done|].
    destruct t1; [|done]. simpl in Heq. by subst.
  - destruct (match_here e (t :: ts)) eqn:Hm; [done|].
    destruct (search e ts) as [[pre' o']|] eqn:Hs'; [done|].
    destruct t1 as [|t1h t1].
    + simpl in Heq. by subst.
    + injection Heq as -> Heq. by apply (IH eq_refl t1 t2).
Qed.

End Engine.

(** ** Scanning with a pattern *)

Section ScanPattern.

Import utf8 regexp.

(** What is left of the runes of a string after some of them is the runes of
    the text left. *)
Lemma runes_suffix (s : list ascii) (ta tb : list token) :
  runes s = ta ++ tb -> tb = runes (text tb).
Proof.
  revert s. induction ta as [|t ta IH]; intros s Heq.
  - simpl in Heq. by rewrite <- Heq, runes_text.
  - destruct s as [|c s]; [done|].
    rewrite runes_cons in Heq. injection Heq as _ Heq. by apply IH in Heq.
Qed.

Lemma prefix_text_le (ta tb ua ub : list token) :
  ta ++ tb = ua ++ ub -> (length ta <= length ua)%nat ->
  (length (text ta) <= length (text ua))%nat.
Proof.
  intros Heq Hle.
  assert (Hta : ta = take (length ta) ua).
  { rewrite <- (take_app_le ua ub) by done. by rewrite <- Heq, take_app_length. }
  rewrite <- (take_drop (length ta) ua), text_app, length_app, <- Hta. lia.
Qed.

Variable e : Regexp.
Variable at_head : list ascii -> list (list ascii) -> list ascii -> Prop.

(** An occurrence begins with an ASCII byte and is not empty; the pattern
    matches at the head of a text exactly when the form occurs there. *)
Hypothesis at_head_ascii : forall s x rest,
  at_head s x rest -> exists c s', s = c :: s' /\ byte_val c < 0x80.
Hypothesis at_head_shorter : forall s x rest,
  at_head s x rest -> (length rest < length s)%nat.
Hypothesis at_head_match : forall s x rest,
  at_head s x rest -> exists m, match_here e (runes s) = Some (m, x, runes rest).
Hypothesis match_at_head : forall s m x trest,
  match_here e (runes s) = Some (m, x, trest) -> at_head s x (text trest).

Lemma no_match_no_head (s pre s' : list ascii) (x : list (list ascii)) (rest : list ascii) :
  s = pre ++ s' -> at_head s' x rest ->
  exists ta, runes s = ta ++ runes s' /\ text ta = pre
             /\ is_Some (match_here e (runes s')).
Proof.
  intros -> Hat.
  destruct (at_head_ascii _ _ _ Hat) as (c & s'' & -> & Hc).
  destruct (runes_app_ascii pre c s'' Hc) as (ta & Hr & Ht & _).
  exists ta. split_and!; [done..|].
  destruct (at_head_match _ _ _ Hat) as [m Hm]. by rewrite Hm.
Qed.

Lemma allMatches_scanned (n : nat) (s : list ascii) :
  (length (runes s) < n)%nat ->
  scanned at_head s (map groups (fst (allMatches n e (runes s)))).
Proof.
  revert s. induction n as [|n IH]; intros s Hn; [lia|].
  cbn [allMatches].
  destruct (search e (runes s)) as [[pre [[m caps] trest]]|] eqn:Hs.
  - apply search_Some in Hs as (tpre & ts' & Hts & -> & Hm & Hleft).
    pose proof (runes_suffix _ _ _ Hts) as Hts'.
    pose proof Hm as Hc. apply match_here_consumes in Hc as (tm & Htm & ->).
    assert (Hrest : trest = runes (text trest)).
    { apply (runes_suffix s (tpre ++ tm)). by rewrite <- app_assoc, <- Htm. }
    rewrite Hts' in Hm. apply match_at_head in Hm.
    pose proof (at_head_shorter _ _ _ Hm) as Hshort.
    cbn [fst map groups].
    apply (scanned_next at_head s (text tpre) (text ts') caps (text trest)).
    + by rewrite <- text_app, <- Hts, runes_text.
    + done.
    + intros pre2 s2 x2 rest2 Hs2 Hlt Hat.
      destruct (no_match_no_head _ _ _ _ _ Hs2 Hat) as (ta & Hr & Ht & Hsome).
      destruct (decide (length ta < length tpre)%nat) as [Hl|Hl].
      * rewrite (Hleft ta (runes s2)) in Hsome; [by destruct Hsome|by rewrite <- Hr|done].
      * assert (length (text tpre) <= length (text ta))%nat; [|subst pre2; lia].
        apply (prefix_text_le tpre ts' ta (runes s2)); [by rewrite <- Hts, <- Hr|lia].
    + specialize (IH (text trest)). rewrite <- Hrest in IH. apply IH.
      assert (length trest < length ts')%nat; [|rewrite Hts, length_app in Hn; lia].
      rewrite Htm, length_app.
      destruct tm as [|t tm]; [|simpl; lia].
      simpl in Htm. subst ts'. lia.
  - cbn [fst map]. apply scanned_none. intros pre s' x rest Heq Hat.
    destruct (no_match_no_head _ _ _ _ _ Heq Hat) as (ta & Hr & _ & Hsome).
    rewrite (search_None e _ Hs ta (runes s')) in Hsome; [by destruct Hsome|done].
Qed.

Lemma at_head_functional (s : list ascii) (x x' : list (list ascii))
    (rest rest' : list ascii) :
  at_head s x rest -> at_head s x' rest' -> x = x' /\ rest = rest'.
Proof.
  intros [m Hm]%at_head_match [m' Hm']%at_head_match.
  rewrite Hm in Hm'. injection Hm' as _ <- Hr. split; [done|].
  by rewrite <- (runes_text rest), Hr, runes_text.
Qed.

(** The scan of a text has one result. *)
Lemma scanned_unique (s : list ascii) (xs ys : list (list (list ascii))) :
  scanned at_head s xs -> scanned at_head s ys -> xs = ys.
Proof.
  intros Hx. revert ys.
  induction Hx as [s Hnone|s pre s' x rest xs Hs Hat Hleft Hx IH]; intros ys Hy.
  - destruct Hy as [|s pre' s'' y rest' ys Hs' Hat' _ _]; [done|].
    by destruct (Hnone _ _ _ _ Hs' Hat').
  - destruct Hy as [s Hnone|s pre' s'' y rest' ys Hs' Hat' Hleft' Hy].
    { by destruct (Hnone _ _ _ _ Hs Hat). }
    assert (Hlen : length pre = length pre').
    { destruct (Nat.lt_trichotomy (length pre) (length pre')) as [Hlt|[Heq|Hgt]].
      - by destruct (Hleft' _ _ _ _ Hs Hlt Hat).
      - done.
      - by destruct (Hleft _ _ _ _ Hs' Hgt Hat'). }
    rewrite Hs in Hs'. apply app_inj_1 in Hs' as [-> ->]; [|done].
    destruct (at_head_functional _ _ _ _ _ Hat Hat') as [-> ->].
    f_equal. by apply IH.
Qed.

Lemma scan_scanned (s : string) :
  scanned at_head (bytes_of s) (map groups (fst (scan e s))).
Proof. unfold scan. apply allMatches_scanned. lia. Qed.

End ScanPattern.

Lemma scanned_parts {X : Type} (at_head : list ascii -> X -> list ascii -> Prop)
    (s : list ascii) (xs : list X) :
  scanned at_head s xs -> Forall (fun x => exists s' rest, at_head s' x rest) xs.
Proof.
  induction 1 as [|s pre s' x rest xs _ Hat _ _ IH]; constructor; [|done].
  by exists s', rest.
Qed.


(** ** The patterns, part by part *)

Section Patterns.

Import utf8 regexp.

Lemma span_eq (c : class) (ts : list token) : ts = fst (span c ts) ++ snd (span c ts).
Proof.
  induction ts as [|t ts IH]; [done|]. simpl.
  destruct (in_class c (fst t)); [|done]. simpl. by rewrite <- IH.
Qed.

Lemma span_in (c : class) (ts : list token) :
  Forall (fun t => in_class c (fst t) = true) (fst (span c ts)).
Proof.
  induction ts as [|t ts IH]; [constructor|]. simpl.
  destruct (in_class c (fst t)) eqn:Hc; [|constructor]. by constructor.
Qed.

Lemma span_stop (c : class) (ts : list token) (t : token) (ts' : list token) :
  snd (span c ts) = t :: ts' -> in_class c (fst t) = false.
Proof.
  induction ts as [|t0 ts IH]; [done|]. simpl.
  destruct (in_class c (fst t0)) eqn:Hc; [done|]. by intros [= -> ->].
Qed.

Lemma span_app (c : class) (ta : list token) (t : token) (ts : list token) :
  Forall (fun t => in_class c (fst t) = true) ta -> in_class c (fst t) = false ->
  span c (ta ++ t :: ts) = (ta, t :: ts).
Proof.
  intros Hall Ht. induction Hall as [|t0 ta H0 _ IH]; simpl.
  - by rewrite Ht.
  - by rewrite H0, IH.
Qed.

Lemma flat_map_map {A B C : Type} (f : B -> list C) (g : A -> B) (l : list A) :
  flat_map f (map g l) = flat_map (fun x => f (g x)) l.
Proof. induction l as [|x l IH]; [done|]. simpl. by rewrite IH. Qed.

Lemma glue_nil (l : list outcome) : glue [] [] l = l.
Proof.
  unfold glue. rewrite <- (map_id l) at 2. apply map_ext. by intros [[m caps] rest].
Qed.

Lemma head_glue (m : list ascii) (caps : list (list ascii)) (l : list outcome) :
  head (glue m caps l) =
  match head l with
  | Some o => Some (m ++ fst (fst o), caps ++ snd (fst o), snd o)
  | None => None
  end.
Proof. by destruct l. Qed.

(** A literal, then the rest. *)
Lemma alt_cat_lit (r : Z) (e : Regexp) (ts : list token) :
  alternatives (Cat (Lit r) e) ts =
  match ts with
  | t :: ts' => if fst t =? r then glue (snd t) [] (alternatives e ts') else []
  | [] => []
  end.
Proof.
  simpl. destruct ts as [|t ts]; [done|].
  destruct (fst t =? r); [|done]. simpl. rewrite app_nil_r.
  unfold glue. apply map_ext. by intros [[m caps] rest].
Qed.

(** A greedy run followed by something that cannot start with a rune of the
    class: only the longest run can be continued. *)
Lemma star_det {Y : Type} (K : list ascii -> list token -> list Y)
    (c : class) (ts : list token) :
  (forall m (t : token) (ts' : list token),
      in_class c (fst t) = true -> K m (t :: ts') = []) ->
  flat_map (fun o => K (fst o) (snd o)) (star c ts)
  = K (text (fst (span c ts))) (snd (span c ts)).
Proof.
  revert K. induction ts as [|t ts IH]; intros K HK; simpl.
  - by rewrite app_nil_r.
  - destruct (in_class c (fst t)) eqn:Hc; simpl.
    + rewrite flat_map_app, flat_map_map. simpl.
      rewrite (HK [] t ts Hc), !app_nil_r.
      rewrite (IH (fun m r => K (snd t ++ m) r)); [done|].
      intros. by apply HK.
    + by rewrite app_nil_r.
Qed.

Lemma alt_cat_cap_star (c : class) (e : Regexp) (ts : list token) :
  rejects e c ->
  alternatives (Cat (Cap (Star c)) e) ts =
  glue (text (fst (span c ts))) [text (fst (span c ts))] (alternatives e (snd (span c ts))).
Proof.
  intros Hrej. simpl. rewrite !map_map, flat_map_map.
  rewrite <- (star_det (fun m r => glue m [m] (alternatives e r))).
  - apply flat_map_ext. intros [m r]. simpl. unfold glue.
    apply map_ext. by intros [[m2 caps2] rest2].
  - intros m t ts' Hc. by rewrite (Hrej t ts' Hc).
Qed.

Lemma alt_cat_cap_plus (c : class) (e : Regexp) (ts : list token) :
  rejects e c ->
  alternatives (Cat (Cap (Plus c)) e) ts =
  match fst (span c ts) with
  | [] => []
  | _ => glue (text (fst (span c ts))) [text (fst (span c ts))]
              (alternatives e (snd (span c ts)))
  end.
Proof.
  intros Hrej. simpl. destruct ts as [|t ts]; [done|]. simpl.
  destruct (in_class c (fst t)) eqn:Hc; [|done]. simpl.
  rewrite !map_map, flat_map_map, !text_cons.
  rewrite <- (star_det (fun m r => glue (snd t ++ m) [snd t ++ m] (alternatives e r))).
  - apply flat_map_ext. intros [m r]. simpl. unfold glue.
    apply map_ext. by intros [[m2 caps2] rest2].
  - intros m t' ts' Hc'. by rewrite (Hrej t' ts' Hc').
Qed.

Lemma rejects_lit (r : Z) (c : class) : in_class c r = false -> rejects (Lit r) c.
Proof.
  intros Hr t ts Ht. simpl. destruct (Z.eqb_spec (fst t) r) as [Heq|]; [|done].
  rewrite Heq in Ht. congruence.
Qed.

Lemma rejects_cat_lit (r : Z) (e : Regexp) (c : class) :
  in_class c r = false -> rejects (Cat (Lit r) e) c.
Proof.
  intros Hr t ts Ht. rewrite alt_cat_lit.
  destruct (Z.eqb_spec (fst t) r) as [Heq|]; [|done].
  rewrite Heq in Ht. congruence.
Qed.

End Patterns.

(** ** The rounds of a scan *)

Section Rounds.

Import utf8 regexp.

Lemma cat_lit_consumes (r : Z) (e : Regexp) (ts : list token)
    (m : list ascii) (caps : list (list ascii)) (rest : list token) :
  In (m, caps, rest) (alternatives (Cat (Lit r) e) ts) -> (length rest < length ts)%nat.
Proof.
  rewrite alt_cat_lit. destruct ts as [|t ts]; [done|].
  destruct (fst t =? r); [|done]. unfold glue.
  intros ([[m2 caps2] rest2] & [= _ _ <-] & Hin)%in_map_iff.
  apply alternatives_consumes in Hin as (tm & -> & _).
  cbn [length]. rewrite List.length_app. lia.
Qed.

(** No pattern of the package matches the empty string. *)
Lemma patterns_consume (e : Regexp) (ts : list token)
    (m : list ascii) (caps : list (list ascii)) (rest : list token) :
  e = files.markdownRegex \/ e = files.htmlRegex \/ e = files.unsafeRegex ->
  In (m, caps, rest) (alternatives e ts) -> (length rest < length ts)%nat.
Proof.
  intros [-> | [-> | ->]].
  - apply cat_lit_consumes.
  - apply cat_lit_consumes.
  - unfold files.unsafeRegex. cbn [alternatives]. destruct ts as [|t ts]; [done|].
    destruct (in_class _ (fst t)); [|done]. intros [[= _ _ <-]|[]]. simpl. lia.
Qed.

(** For such a pattern the scan is over after at most one round per rune:
    more rounds than that change nothing. *)
Lemma allMatches_rounds (e : Regexp) (n n' : nat) (ts : list token) :
  (forall ts m caps rest, In (m, caps, rest) (alternatives e ts) ->
                          (length rest < length ts)%nat) ->
  (length ts < n)%nat -> (length ts < n')%nat ->
  allMatches n e ts = allMatches n' e ts.
Proof.
  intros Hcons. revert n' ts. induction n as [|n IH]; intros n' ts Hn Hn'; [lia|].
  destruct n' as [|n']; [lia|]. cbn [allMatches].
  destruct (search e ts) as [[pre [[m caps] rest]]|] eqn:Hs; [|done].
  apply search_Some in Hs as (tpre & ts' & -> & _ & Hm & _).
  apply head_Some in Hm as [l Hl].
  assert (Hlt : (length rest < length ts')%nat).
  { apply (Hcons ts' m caps rest). rewrite Hl. by left. }
  rewrite List.length_app in Hn, Hn'.
  rewrite (IH n' rest) by lia. done.
Qed.

End Rounds.

(** ** Form A and the markdown pattern *)

Section FormA.

Import utf8 regexp.

Local Arguments byte_val : simpl never.

Lemma in_none_of_one (c : ascii) (r : Z) :
  in_class (none_of [one c]) r = true <-> r <> byte_val c.
Proof.
  unfold in_class, none_of, one, range, in_ranges. simpl.
  destruct (Z.leb_spec (byte_val c) r), (Z.leb_spec r (byte_val c)); simpl; split;
    intros; try done; lia.
Qed.

Lemma in_none_of_one_false (c : ascii) : in_class (none_of [one c]) (byte_val c) = false.
Proof.
  destruct (in_class (none_of [one c]) (byte_val c)) eqn:Hc; [|done].
  by apply in_none_of_one in Hc.
Qed.

(** A text is free of an ASCII byte exactly when none of its runes is that
    byte's rune. *)
Lemma free_of_byte (c : ascii) (ts : list token) :
  byte_val c < 0x80 -> Forall tok_ok ts ->
  (~ In c (text ts) <-> Forall (fun t => in_class (none_of [one c]) (fst t) = true) ts).
Proof.
  intros Hc Hok. induction Hok as [|t ts Ht _ IH].
  { split; [constructor|]. by intros _ []. }
  rewrite text_cons, Forall_cons, <- IH, in_app_iff, in_none_of_one.
  assert (Hiff : In c (snd t) <-> fst t = byte_val c); [|tauto].
  destruct Ht as [(d & -> & Hd)|(Hge & _ & Hall)]; simpl.
  - split.
    + intros [->|[]]. done.
    + intros Heq%byte_val_inj. by left.
  - split.
    + intros Hin. rewrite Forall_forall in Hall.
      apply list_elem_of_In, Hall in Hin. lia.
    + lia.
Qed.

Lemma runes_tk (c : ascii) (s : list ascii) :
  byte_val c < 0x80 -> runes (c :: s) = tk c :: runes s.
Proof. apply runes_cons_ascii. Qed.

(** A rune of an ASCII byte at the head of the runes of a string is that
    byte at the head of the string. *)
Lemma tok_ok_tk (t : token) (c : ascii) :
  tok_ok t -> fst t = byte_val c -> byte_val c < 0x80 -> t = tk c.
Proof.
  intros Hok Heq Hc. destruct t as [r b]. simpl in Heq. subst r.
  pose proof (tok_ok_rune _ c Hok eq_refl Hc) as Hb. simpl in Hb. by subst b.
Qed.


(** The markdown pattern on runes: where it matches and what it yields. *)
Lemma markdown_match (ta tu trest : list token) :
  Forall (fun t => in_class notRB (fst t) = true) ta ->
  Forall (fun t => in_class notRP (fst t) = true) tu -> tu <> [] ->
  match_here files.markdownRegex
    (tk "!" :: tk "[" :: ta ++ tk "]" :: tk "(" :: tu ++ tk ")" :: trest)
  = Some (bytes_of "![" ++ text ta ++ bytes_of "](" ++ text tu ++ bytes_of ")",
          [text ta; text tu], trest).
Proof.
  intros Ha Hu Hne. unfold match_here, files.markdownRegex, lit. cbn [seq].
  rewrite !alt_cat_lit. cbn [fst snd tk lit]. rewrite !Z.eqb_refl, !head_glue.
  rewrite alt_cat_cap_star by (apply rejects_cat_lit, in_none_of_one_false).
  rewrite (span_app notRB ta (tk "]")) by (done || apply in_none_of_one_false).
  cbn [fst snd]. rewrite head_glue, !alt_cat_lit. cbn [fst snd tk lit].
  rewrite !Z.eqb_refl, !head_glue.
  rewrite alt_cat_cap_plus by (apply rejects_lit, in_none_of_one_false).
  rewrite (span_app notRP tu (tk ")")) by (done || apply in_none_of_one_false).
  cbn [fst snd]. destruct tu as [|t0 tu]; [done|].
  rewrite head_glue. cbn [alternatives lit tk fst snd]. rewrite Z.eqb_refl.
  cbn [head fst snd]. by rewrite !app_nil_r.
Qed.


(** One literal of a pattern against the head of the input. *)
Lemma head_cat_lit (c : ascii) (e : Regexp) (ts : list token) (o : outcome) :
  Forall tok_ok ts -> byte_val c < 0x80 ->
  head (alternatives (Cat (Lit (byte_val c)) e) ts) = Some o ->
  exists ts' o', ts = tk c :: ts' /\ Forall tok_ok ts'
    /\ head (alternatives e ts') = Some o'
    /\ o = (c :: fst (fst o'), snd (fst o'), snd o').
Proof.
  intros Hok Hc. rewrite alt_cat_lit. destruct ts as [|t ts]; [done|].
  destruct (Z.eqb_spec (fst t) (byte_val c)) as [Heq|]; [|done].
  apply Forall_cons in Hok as [Ht Hok].
  rewrite (tok_ok_tk t c Ht Heq Hc), head_glue.
  destruct (head (alternatives e ts)) as [o'|] eqn:He; [|done].
  intros [= <-]. by exists ts, o'.
Qed.

Lemma head_lit (c : ascii) (ts : list token) (o : outcome) :
  Forall tok_ok ts -> byte_val c < 0x80 ->
  head (alternatives (Lit (byte_val c)) ts) = Some o ->
  exists ts', ts = tk c :: ts' /\ o = ([c], [], ts').
Proof.
  intros Hok Hc. cbn [alternatives]. destruct ts as [|t ts]; [done|].
  destruct (Z.eqb_spec (fst t) (byte_val c)) as [Heq|]; [|done].
  apply Forall_cons in Hok as [Ht Hok].
  rewrite (tok_ok_tk t c Ht Heq Hc). intros [= <-]. by exists ts.
Qed.

(** A captured run of a class followed by something the class excludes. *)
Lemma head_cat_cap_star (c : class) (e : Regexp) (ts : list token) (o : outcome) :
  rejects e c -> Forall tok_ok ts ->
  head (alternatives (Cat (Cap (Star c)) e) ts) = Some o ->
  exists ta ts' o', ts = ta ++ ts' /\ Forall tok_ok ts'
    /\ Forall (fun t => in_class c (fst t) = true) ta
    /\ head (alternatives e ts') = Some o'
    /\ o = (text ta ++ fst (fst o'), text ta :: snd (fst o'), snd o').
Proof.
  intros Hrej Hok. rewrite alt_cat_cap_star, head_glue by done.
  pose proof (span_eq c ts) as Heq. pose proof (span_in c ts) as Hin.
  destruct (span c ts) as [ta ts']. cbn [fst snd] in *.
  destruct (head (alternatives e ts')) as [o'|] eqn:He; [|done].
  intros [= <-]. exists ta, ts', o'. split_and!; try done.
  rewrite Heq in Hok. by apply Forall_app in Hok as [_ ?].
Qed.

Lemma head_cat_cap_plus (c : class) (e : Regexp) (ts : list token) (o : outcome) :
  rejects e c -> Forall tok_ok ts ->
  head (alternatives (Cat (Cap (Plus c)) e) ts) = Some o ->
  exists ta ts' o', ts = ta ++ ts' /\ Forall tok_ok ts' /\ ta <> []
    /\ Forall (fun t => in_class c (fst t) = true) ta
    /\ head (alternatives e ts') = Some o'
    /\ o = (text ta ++ fst (fst o'), text ta :: snd (fst o'), snd o').
Proof.
  intros Hrej Hok. rewrite alt_cat_cap_plus by done.
  pose proof (span_eq c ts) as Heq. pose proof (span_in c ts) as Hin.
  destruct (span c ts) as [ta ts']. cbn [fst snd] in *.
  destruct ta as [|t ta]; [done|]. rewrite head_glue.
  destruct (head (alternatives e ts')) as [o'|] eqn:He; [|done].
  intros [= <-]. exists (t :: ta), ts', o'. split_and!; try done.
  rewrite Heq in Hok. by apply Forall_app in Hok as [_ ?].
Qed.

Lemma markdown_inv (ts : list token) (m : list ascii) (caps : list (list ascii))
    (trest : list token) :
  Forall tok_ok ts ->
  match_here files.markdownRegex ts = Some (m, caps, trest) ->
  exists ta tu,
    ts = tk "!" :: tk "[" :: ta ++ tk "]" :: tk "(" :: tu ++ tk ")" :: trest
    /\ Forall (fun t => in_class notRB (fst t) = true) ta
    /\ Forall (fun t => in_class notRP (fst t) = true) tu
    /\ tu <> [] /\ caps = [text ta; text tu].
Proof.
  intros Hok. unfold match_here, files.markdownRegex, lit. cbn [seq]. intros H.
  apply head_cat_lit in H as (ts1 & o1 & -> & Hok1 & H & [= -> -> ->]); [|done..].
  apply head_cat_lit in H as (ts2 & o2 & -> & Hok2 & H & ->); [|done..].
  apply head_cat_cap_star in H as (ta & ts3 & o3 & -> & Hok3 & Ha & H & ->);
    [|apply rejects_cat_lit, in_none_of_one_false|done].
  apply head_cat_lit in H as (ts4 & o4 & -> & Hok4 & H & ->); [|done..].
  apply head_cat_lit in H as (ts5 & o5 & -> & Hok5 & H & ->); [|done..].
  apply head_cat_cap_plus in H as (tu & ts6 & o6 & -> & Hok6 & Hne & Hu & H & ->);
    [|apply rejects_lit, in_none_of_one_false|done].
  apply head_lit in H as (ts7 & -> & ->); [|done..].
  cbn [fst snd] in *. by exists ta, tu.
Qed.

(** The pattern matches at the head of a text exactly where Form A occurs. *)
Lemma formA_match (s : list ascii) (parts : list (list ascii)) (rest : list ascii) :
  formA_at s parts rest ->
  exists m, match_here files.markdownRegex (runes s) = Some (m, parts, runes rest).
Proof.
  intros (alt & url & -> & -> & Halt & Hne & Hurl).
  cbn [bytes_of String.list_ascii_of_string app].
  rewrite !runes_tk by done.
  destruct (runes_app_ascii alt "]" ("(" :: url ++ ")" :: rest)%char)
    as (ta & -> & <- & Hta); [done|].
  rewrite !runes_tk by done.
  destruct (runes_app_ascii url ")" rest) as (tu & -> & <- & Htu); [done|].
  rewrite runes_tk by done.
  eexists. apply markdown_match.
  - by apply free_of_byte.
  - by apply free_of_byte.
  - by intros ->.
Qed.

Lemma match_formA (s m : list ascii) (parts : list (list ascii)) (trest : list token) :
  match_here files.markdownRegex (runes s) = Some (m, parts, trest) ->
  formA_at s parts (text trest).
Proof.
  intros H. pose proof (runes_ok s) as Hok.
  apply markdown_inv in H as (ta & tu & Heq & Ha & Hu & Hne & ->); [|done].
  rewrite Heq in Hok.
  apply Forall_cons in Hok as [_ Hok]. apply Forall_cons in Hok as [_ Hok].
  apply Forall_app in Hok as [Hoka Hok].
  apply Forall_cons in Hok as [_ Hok]. apply Forall_cons in Hok as [_ Hok].
  apply Forall_app in Hok as [Hoku _].
  exists (text ta), (text tu). split_and!.
  - done.
  - rewrite <- (runes_text s), Heq.
    rewrite !text_cons, text_app, !text_cons, text_app, text_cons. done.
  - by apply free_of_byte.
  - intros Ht. destruct tu as [|t tu]; [done|].
    apply Forall_cons in Hoku as [Ht0 _]. rewrite text_cons in Ht.
    apply app_eq_nil in Ht as [Ht _].
    destruct Ht0 as [(d & -> & _)|(_ & Hn & _)]; done.
  - by apply free_of_byte.
Qed.

Lemma formA_ascii (s : list ascii) (parts : list (list ascii)) (rest : list ascii) :
  formA_at s parts rest -> exists c s', s = c :: s' /\ byte_val c < 0x80.
Proof. intros (alt & url & _ & -> & _). by eexists _, _. Qed.

Lemma formA_shorter (s : list ascii) (parts : list (list ascii)) (rest : list ascii) :
  formA_at s parts rest -> (length rest < length s)%nat.
Proof.
  intros (alt & url & _ & -> & _). rewrite !length_app. simpl. lia.
Qed.

End FormA.

(** ** Greedy repetition with backtracking *)

Section Backtracking.

Import utf8 regexp.

Lemma star_last (c : class) (ts : list token) : In ([], ts) (star c ts).
Proof.
  destruct ts as [|t ts]; simpl; [by left|].
  destruct (in_class c (fst t)); [|by left].
  apply in_or_app. right. by left.
Qed.

(** Every prefix of runes of the class is one way [c*] matches. *)
Lemma star_complete (c : class) (tm rest : list token) :
  Forall (fun t => in_class c (fst t) = true) tm ->
  In (text tm, rest) (star c (tm ++ rest)).
Proof.
  induction 1 as [|t tm Ht _ IH]; [apply star_last|].
  simpl. rewrite Ht. apply in_or_app. left.
  apply in_map_iff. by exists (text tm, rest).
Qed.

Lemma flat_map_nil {A B : Type} (f : A -> list B) (l : list A) :
  flat_map f l = [] <-> forall x, In x l -> f x = [].
Proof.
  induction l as [|x l IH]; simpl.
  - split; [by intros _ ? []|done].
  - split.
    + intros [Hx Hl]%app_eq_nil y [<-|Hy]; [done|]. by apply IH.
    + intros H. rewrite (H x) by (by left). apply IH. intros y Hy. apply H. by right.
Qed.

Lemma head_app_cases {A : Type} (l1 l2 : list A) :
  head (l1 ++ l2) = match head l1 with Some x => Some x | None => head l2 end.
Proof. by destruct l1. Qed.

(** The first outcome after a greedy run: the longest run that can be
    continued, with the first way of continuing it. *)
Lemma star_head {Y : Type} (K : list ascii -> list token -> list Y)
    (c : class) (ts : list token) (y : Y) :
  head (flat_map (fun o => K (fst o) (snd o)) (star c ts)) = Some y <->
  exists tm rest,
    ts = tm ++ rest /\ Forall (fun t => in_class c (fst t) = true) tm
    /\ head (K (text tm) rest) = Some y
    /\ forall tm' rest', ts = tm' ++ rest' ->
         Forall (fun t => in_class c (fst t) = true) tm' ->
         (length tm < length tm')%nat -> K (text tm') rest' = [].
Proof.
  revert K. induction ts as [|t ts IH]; intros K.
  - simpl. rewrite app_nil_r. split.
    + intros Hh. exists [], []. split_and!; [done..|].
      intros tm' rest' Heq _ Hlt. destruct tm'; [simpl in Hlt; lia|done].
    + intros (tm & rest & Heq & _ & Hh & _).
      symmetry in Heq. apply app_eq_nil in Heq as [-> ->]. done.
  - simpl. destruct (in_class c (fst t)) eqn:Hc.
    + rewrite flat_map_app, flat_map_map, head_app_cases. simpl. rewrite app_nil_r.
      pose proof (IH (fun m r => K (snd t ++ m) r)) as IHy. simpl in IHy.
      destruct (head (flat_map (fun x => K (snd t ++ fst x) (snd x)) (star c ts)))
        as [y'|] eqn:Hh.
      * split.
        -- intros [= ->]. destruct IHy as [IHy _].
           destruct (IHy eq_refl) as (tm & rest & -> & Hall & Hk & Hmax).
           exists (t :: tm), rest. split_and!; [done|by constructor|done|].
           intros tm' rest' Heq Hall' Hlt.
           destruct tm' as [|t' tm']; [simpl in Hlt; lia|].
           injection Heq as <- Heq. apply Forall_cons in Hall' as [_ Hall'].
           rewrite text_cons. apply (Hmax tm' rest' Heq Hall'). simpl in Hlt. lia.
        -- intros (tm & rest & Heq & Hall & Hk & Hmax).
           destruct tm as [|t' tm].
           ++ exfalso. simpl in Heq. subst rest.
              apply head_Some in Hh as [l Hl].
              assert (Hnil : flat_map (fun x => K (snd t ++ fst x) (snd x)) (star c ts) = []);
                [|by rewrite Hnil in Hl].
              apply flat_map_nil. intros [m r] Hin. simpl.
              apply star_consumes in Hin as (tm & -> & -> & Hall').
              rewrite <- text_cons. apply (Hmax (t :: tm) r); [done|by constructor|simpl; lia].
           ++ injection Heq as <- Heq. apply Forall_cons in Hall as [_ Hall].
              apply IHy.
              exists tm, rest. split_and!; [done..|].
              intros tm' rest' Heq' Hall' Hlt. rewrite <- text_cons.
              apply (Hmax (t :: tm') rest'); [simpl; by f_equal|by constructor|simpl; lia].
      * apply head_None in Hh. rewrite flat_map_nil in Hh. split.
        -- intros Hk. exists [], (t :: ts). split_and!; [done..|].
           intros tm' rest' Heq Hall' Hlt.
           destruct tm' as [|t' tm']; [simpl in Hlt; lia|].
           injection Heq as <- ->. apply Forall_cons in Hall' as [_ Hall'].
           rewrite text_cons. apply (Hh (text tm', rest')). by apply star_complete.
        -- intros (tm & rest & Heq & Hall & Hk & Hmax).
           destruct tm as [|t' tm]; [simpl in Heq; by subst rest|exfalso].
           injection Heq as <- ->. apply Forall_cons in Hall as [_ Hall].
           pose proof (Hh (text tm, rest) (star_complete c tm rest Hall)) as Hnil.
           simpl in Hnil. by rewrite text_cons, Hnil in Hk.
    + simpl. rewrite app_nil_r. split.
      * intros Hk. exists [], (t :: ts). split_and!; [done..|].
        intros tm' rest' Heq Hall' Hlt.
        destruct tm' as [|t' tm']; [simpl in Hlt; lia|].
        injection Heq as <- ->. apply Forall_cons in Hall' as [Ht _]. congruence.
      * intros (tm & rest & Heq & Hall & Hk & _).
        destruct tm as [|t' tm]; [simpl in Heq; by subst rest|].
        injection Heq as <- ->. apply Forall_cons in Hall as [Ht _]. congruence.
Qed.

Lemma glue_eq_nil (m : list ascii) (caps : list (list ascii)) (l : list outcome) :
  glue m caps l = [] <-> l = [].
Proof. unfold glue. split; [apply map_eq_nil|by intros ->]. Qed.

(** A greedy run, not captured, and the rest of the pattern: the longest run
    after which the rest matches. *)
Lemma head_cat_plus (c : class) (e : Regexp) (ts : list token) (o : outcome) :
  head (alternatives (Cat (Plus c) e) ts) = Some o <->
  exists tj ts' o',
    ts = tj ++ ts' /\ tj <> []
    /\ Forall (fun t => in_class c (fst t) = true) tj
    /\ head (alternatives e ts') = Some o'
    /\ o = (text tj ++ fst (fst o'), snd (fst o'), snd o')
    /\ forall tj2 ts2, ts = tj2 ++ ts2 ->
         Forall (fun t => in_class c (fst t) = true) tj2 ->
         (length tj < length tj2)%nat -> alternatives e ts2 = [].
Proof.
  cbn [alternatives]. destruct ts as [|t ts].
  { split; [done|]. intros (tj & ts' & o' & Heq & Hne & _).
    symmetry in Heq. by apply app_eq_nil in Heq as [-> _]. }
  destruct (in_class c (fst t)) eqn:Hc.
  2:{ split; [done|]. intros (tj & ts' & o' & Heq & Hne & Hall & _).
      destruct tj as [|t' tj]; [done|]. injection Heq as <- _.
      apply Forall_cons in Hall as [Ht _]. congruence. }
  rewrite flat_map_map.
  rewrite (flat_map_ext _
    (fun x => (fun m r => glue (snd t ++ m) [] (alternatives e r)) (fst x) (snd x))).
  2:{ intros [m r]. simpl. unfold glue. apply map_ext. by intros [[m2 caps2] rest2]. }
  pose proof (star_head (fun m r => glue (snd t ++ m) [] (alternatives e r)) c ts o)
    as Hiff.
  cbv beta in *. rewrite Hiff. clear Hiff. split.
  - intros (tm & rest & -> & Hall & Hk & Hmax). rewrite head_glue in Hk.
    destruct (head (alternatives e rest)) as [o'|] eqn:He; [|done].
    injection Hk as <-. exists (t :: tm), rest, o'.
    split_and!; [done|done|by constructor|done|done|].
    intros tj2 ts2 Heq Hall2 Hlt. destruct tj2 as [|t2 tj2]; [simpl in Hlt; lia|].
    injection Heq as <- Heq. apply Forall_cons in Hall2 as [_ Hall2].
    eapply glue_eq_nil, (Hmax tj2 ts2 Heq Hall2). simpl in Hlt. lia.
  - intros (tj & ts' & o' & Heq & Hne & Hall & He & -> & Hmax).
    destruct tj as [|t' tj]; [done|]. injection Heq as <- ->.
    apply Forall_cons in Hall as [_ Hall].
    exists tj, ts'. split_and!; [done|done|by rewrite head_glue, He|].
    intros tm' rest' Heq Hall' Hlt. apply glue_eq_nil.
    apply (Hmax (t :: tm') rest'); [simpl; by f_equal|by constructor|simpl; lia].
Qed.

End Backtracking.

(** ** Form B and the HTML pattern *)

Section FormB.

Import utf8 regexp.

Local Arguments byte_val : simpl never.

Lemma text_nonempty (ts : list token) :
  Forall tok_ok ts -> ts <> [] -> text ts <> [].
Proof.
  intros Hok Hne Ht. destruct ts as [|t ts]; [done|].
  apply Forall_cons in Hok as [Ht0 _]. rewrite text_cons in Ht.
  apply app_eq_nil in Ht as [Ht _].
  destruct Ht0 as [(d & -> & _)|(_ & Hn & _)]; done.
Qed.

Lemma prefix_text_lt (ta tb ua ub : list token) :
  ta ++ tb = ua ++ ub -> (length ta < length ua)%nat -> Forall tok_ok ua ->
  (length (text ta) < length (text ua))%nat.
Proof.
  intros Heq Hlt Hok.
  assert (Hta : ta = take (length ta) ua).
  { rewrite <- (take_app_le ua ub) by lia. by rewrite <- Heq, take_app_length. }
  rewrite <- (take_drop (length ta) ua), text_app, length_app, <- Hta.
  assert (Hne : text (drop (length ta) ua) <> []).
  { apply text_nonempty; [by apply Forall_drop|].
    intros Hd. apply (f_equal length) in Hd. rewrite length_drop in Hd. simpl in Hd. lia. }
  destruct (text (drop (length ta) ua)); [done|]. simpl. lia.
Qed.

Lemma src_match (tu trest : list token) :
  Forall (fun t => in_class notDQ (fst t) = true) tu -> tu <> [] ->
  match_here srcRegex
    (tk "s" :: tk "r" :: tk "c" :: tk "=" :: tk files.dq :: tu ++ tk files.dq :: trest)
  = Some (bytes_of "src=" ++ [files.dq] ++ text tu ++ [files.dq], [text tu], trest).
Proof.
  intros Hu Hne. unfold match_here, srcRegex, lit. cbn [seq].
  rewrite !alt_cat_lit. cbn [fst snd tk]. rewrite !Z.eqb_refl, !head_glue.
  rewrite alt_cat_cap_plus by (apply rejects_lit, in_none_of_one_false).
  rewrite (span_app notDQ tu (tk files.dq)) by (done || apply in_none_of_one_false).
  cbn [fst snd]. destruct tu as [|t0 tu]; [done|].
  rewrite head_glue. cbn [alternatives tk fst snd]. rewrite Z.eqb_refl.
  cbn [head fst snd]. by rewrite !app_nil_r.
Qed.

Lemma src_inv (ts : list token) (m : list ascii) (caps : list (list ascii))
    (trest : list token) :
  Forall tok_ok ts ->
  match_here srcRegex ts = Some (m, caps, trest) ->
  exists tu,
    ts = tk "s" :: tk "r" :: tk "c" :: tk "=" :: tk files.dq :: tu ++ tk files.dq :: trest
    /\ Forall (fun t => in_class notDQ (fst t) = true) tu
    /\ tu <> [] /\ caps = [text tu].
Proof.
  intros Hok. unfold match_here, srcRegex, lit. cbn [seq]. intros H.
  apply head_cat_lit in H as (ts1 & o1 & -> & Hok1 & H & [= -> -> ->]); [|done..].
  apply head_cat_lit in H as (ts2 & o2 & -> & Hok2 & H & ->); [|done..].
  apply head_cat_lit in H as (ts3 & o3 & -> & Hok3 & H & ->); [|done..].
  apply head_cat_lit in H as (ts4 & o4 & -> & Hok4 & H & ->); [|done..].
  apply head_cat_lit in H as (ts5 & o5 & -> & Hok5 & H & ->); [|done..].
  apply head_cat_cap_plus in H as (tu & ts6 & o6 & -> & Hok6 & Hne & Hu & H & ->);
    [|apply rejects_lit, in_none_of_one_false|done].
  apply head_lit in H as (ts7 & -> & ->); [|done..].
  cbn [fst snd] in *. by exists tu.
Qed.

Lemma src_split_match (s url rest : list ascii) :
  src_split s url rest ->
  exists m, match_here srcRegex (runes s) = Some (m, [url], runes rest).
Proof.
  intros (-> & Hne & Hurl).
  cbn [bytes_of String.list_ascii_of_string app].
  rewrite !runes_tk by done.
  destruct (runes_app_ascii url files.dq rest) as (tu & -> & <- & Htu); [done|].
  rewrite runes_tk by done.
  eexists. apply src_match.
  - by apply free_of_byte.
  - by intros ->.
Qed.

Lemma match_src_split (s m : list ascii) (caps : list (list ascii)) (trest : list token) :
  match_here srcRegex (runes s) = Some (m, caps, trest) ->
  exists url, caps = [url] /\ src_split s url (text trest).
Proof.
  intros H. pose proof (runes_ok s) as Hok.
  apply src_inv in H as (tu & Heq & Hu & Hne & ->); [|done].
  rewrite Heq in Hok. do 5 apply Forall_cons in Hok as [_ Hok].
  apply Forall_app in Hok as [Hoku _].
  exists (text tu). split; [done|]. split_and!.
  - rewrite <- (runes_text s), Heq. by rewrite !text_cons, text_app, text_cons.
  - by apply text_nonempty.
  - by apply free_of_byte.
Qed.

Lemma htmlRegex_eq :
  files.htmlRegex =
  Cat (Lit (byte_val "<")) (Cat (Lit (byte_val "i")) (Cat (Lit (byte_val "m"))
    (Cat (Lit (byte_val "g")) (Cat (Plus notGT) srcRegex)))).
Proof. reflexivity. Qed.

Lemma formB_split_src (s junk url rest : list ascii) :
  formB_split s junk url rest <->
  exists s2, s = bytes_of "<img" ++ junk ++ s2 /\ junk <> [] /\ ~ In ">"%char junk
             /\ src_split s2 url rest.
Proof.
  unfold formB_split, src_split. split.
  - intros (-> & ? & ? & ? & ?). by eexists.
  - intros (s2 & -> & ? & ? & -> & ? & ?). done.
Qed.

(** The runes of a text that reads as Form B. *)
Lemma formB_runes (s junk url rest : list ascii) :
  formB_split s junk url rest ->
  exists tj s2,
    runes s = tk "<" :: tk "i" :: tk "m" :: tk "g" :: tj ++ runes s2
    /\ text tj = junk /\ tj <> []
    /\ Forall (fun t => in_class notGT (fst t) = true) tj
    /\ src_split s2 url rest.
Proof.
  intros (s2 & -> & Hne & Hgt & Hsrc)%formB_split_src.
  pose proof Hsrc as (-> & _).
  cbn [bytes_of String.list_ascii_of_string app].
  rewrite !runes_tk by done.
  lazymatch goal with
  | |- context [runes (junk ++ ?c :: ?X)] =>
    destruct (runes_app_ascii junk c X) as (tj & Hr & Ht & Htj); [done|];
    exists tj, (c :: X)
  end.
  split_and!; [by rewrite Hr|done| |by apply free_of_byte; rewrite ?Ht|done].
  intros ->. simpl in Ht. by subst junk.
Qed.

Lemma formB_match (s : list ascii) (parts : list (list ascii)) (rest : list ascii) :
  formB_at s parts rest ->
  exists m, match_here files.htmlRegex (runes s) = Some (m, parts, runes rest).
Proof.
  intros (junk & url & -> & Hsplit & Hmax).
  destruct (formB_runes _ _ _ _ Hsplit) as (tj & s2 & Hr & Ht & Hne & Hall & Hsrc).
  destruct (src_split_match _ _ _ Hsrc) as [m2 Hm2].
  pose proof (runes_ok s) as Hok. rewrite Hr in Hok.
  do 4 apply Forall_cons in Hok as [_ Hok].
  unfold match_here. rewrite htmlRegex_eq, Hr, !alt_cat_lit. cbn [fst snd tk].
  rewrite !Z.eqb_refl, !head_glue.
  assert (Hplus : head (alternatives (Cat (Plus notGT) srcRegex) (tj ++ runes s2))
                  = Some (text tj ++ m2, [url], runes rest)).
  { apply head_cat_plus. exists tj, (runes s2), (m2, [url], runes rest).
    split_and!; [done..|].
    intros tj2 ts2 Heq Hall2 Hlt.
    destruct (alternatives srcRegex ts2) as [|[[m3 caps3] trest3] l] eqn:Halt; [done|exfalso].
    assert (Hts2 : ts2 = runes (text ts2)).
    { apply (runes_suffix s (tk "<" :: tk "i" :: tk "m" :: tk "g" :: tj2)).
      by rewrite Hr, Heq. }
    assert (Hm3 : match_here srcRegex (runes (text ts2)) = Some (m3, caps3, trest3)).
    { unfold match_here. by rewrite <- Hts2, Halt. }
    apply match_src_split in Hm3 as (url3 & -> & Hsrc3).
    rewrite Heq in Hok. apply Forall_app in Hok as [Hok2 _].
    assert (Hlen : (length (text tj) < length (text tj2))%nat).
    { by apply (prefix_text_lt tj (runes s2) tj2 ts2). }
    assert (Hs : formB_split s (text tj2) url3 (text trest3)).
    { apply formB_split_src. exists (text ts2). split_and!; [| | |done].
      - rewrite <- (runes_text s), Hr, Heq.
        by rewrite !text_cons, text_app.
      - intros Hnil. rewrite Hnil in Hlen. simpl in Hlen. lia.
      - by apply free_of_byte. }
    apply Hmax in Hs. rewrite <- Ht in Hs. lia. }
  rewrite Hplus. cbn [fst snd]. by eexists.
Qed.

Lemma match_formB (s m : list ascii) (parts : list (list ascii)) (trest : list token) :
  match_here files.htmlRegex (runes s) = Some (m, parts, trest) ->
  formB_at s parts (text trest).
Proof.
  intros H. pose proof (runes_ok s) as Hok.
  unfold match_here in H. rewrite htmlRegex_eq in H.
  apply head_cat_lit in H as (ts1 & o1 & Hr & Hok1 & H & [= -> -> ->]); [|done..].
  apply head_cat_lit in H as (ts2 & o2 & -> & Hok2 & H & ->); [|done..].
  apply head_cat_lit in H as (ts3 & o3 & -> & Hok3 & H & ->); [|done..].
  apply head_cat_lit in H as (ts4 & o4 & -> & Hok4 & H & ->); [|done..].
  apply head_cat_plus in H as (tj & ts5 & o5 & -> & Hne & Hall & H & -> & Hmax).
  apply Forall_app in Hok4 as [Hokj Hok5].
  destruct o5 as [[m5 caps5] trest5]. cbn [fst snd] in *.
  assert (Hts5 : ts5 = runes (text ts5)).
  { apply (runes_suffix s (tk "<" :: tk "i" :: tk "m" :: tk "g" :: tj)). by rewrite Hr. }
  pose proof H as Hsrc. fold (match_here srcRegex ts5) in Hsrc.
  rewrite Hts5 in Hsrc. apply match_src_split in Hsrc as (url & -> & Hsrc).
  exists (text tj), url. split; [done|]. split.
  - apply formB_split_src. exists (text ts5). split_and!; [| | |done].
    + rewrite <- (runes_text s), Hr. by rewrite !text_cons, text_app.
    + by apply text_nonempty.
    + by apply free_of_byte.
  - intros junk' url' rest' Hsplit.
    destruct (formB_runes _ _ _ _ Hsplit) as (tj' & s2' & Hr' & Ht' & Hne' & Hall' & Hsrc').
    rewrite Hr in Hr'. injection Hr' as Hr'.
    destruct (decide (length tj < length tj')%nat) as [Hlt|Hge].
    + exfalso. destruct (src_split_match _ _ _ Hsrc') as [m' Hm'].
      unfold match_here in Hm'. by rewrite (Hmax tj' (runes s2') Hr' Hall' Hlt) in Hm'.
    + rewrite <- Ht'. apply (prefix_text_le tj' (runes s2') tj ts5); [done|lia].
Qed.

Lemma formB_ascii (s : list ascii) (parts : list (list ascii)) (rest : list ascii) :
  formB_at s parts rest -> exists c s', s = c :: s' /\ byte_val c < 0x80.
Proof. intros (junk & url & _ & (-> & _) & _). by eexists _, _. Qed.

Lemma formB_shorter (s : list ascii) (parts : list (list ascii)) (rest : list ascii) :
  formB_at s parts rest -> (length rest < length s)%nat.
Proof.
  intros (junk & url & _ & (-> & _) & _). rewrite !length_app. simpl. lia.
Qed.

End FormB.

(** ** strings.Contains *)

Section Contains.

Lemma append_cons (c : ascii) (s t : string) : String c s +:+ t = String c (s +:+ t).
Proof. done. Qed.

Lemma append_nil (t : string) : "" +:+ t = t.
Proof. done. Qed.

Lemma HasPrefix_spec (s prefix : string) :
  strings.HasPrefix s prefix = true <-> exists post, s = prefix +:+ post.
Proof.
  revert s. induction prefix as [|p prefix IH]; intros s; simpl.
  - split; [intros _; by exists s|done].
  - destruct s as [|c s].
    + split; [done|]. by intros [post Hp].
    + destruct (Ascii.eqb_spec c p) as [->|Hne].
      * rewrite IH. split; intros [post Hp]; exists post.
        -- by rewrite append_cons, <- Hp.
        -- rewrite append_cons in Hp. by injection Hp.
      * split; [done|]. intros [post Hp]. rewrite append_cons in Hp. by injection Hp.
Qed.

Lemma Index_ge (s substr : string) : -1 <= strings.Index s substr.
Proof.
  induction s as [|c s IH]; simpl.
  - destruct (strings.HasPrefix "" substr); lia.
  - destruct (strings.HasPrefix (String c s) substr); [lia|].
    destruct (Z.ltb_spec (strings.Index s substr) 0); lia.
Qed.

Lemma Index_found (s substr : string) :
  0 <= strings.Index s substr <-> substring_of substr s.
Proof.
  unfold substring_of. induction s as [|c s IH]; simpl.
  - destruct (strings.HasPrefix "" substr) eqn:Hp.
    + apply HasPrefix_spec in Hp as [post Hp]. split; [|lia].
      intros _. by exists "", post.
    + split; [lia|]. intros (pre & post & Heq).
      destruct pre; [|done]. rewrite append_nil in Heq.
      assert (strings.HasPrefix "" substr = true); [|congruence].
      apply HasPrefix_spec. by exists post.
  - destruct (strings.HasPrefix (String c s) substr) eqn:Hp.
    + apply HasPrefix_spec in Hp as [post Hp]. split; [|lia].
      intros _. by exists "", post.
    + pose proof (Index_ge s substr).
      destruct (Z.ltb_spec (strings.Index s substr) 0) as [Hlt|Hge].
      * split; [lia|]. intros (pre & post & Heq). destruct pre as [|c' pre].
        -- rewrite append_nil in Heq.
           assert (strings.HasPrefix (String c s) substr = true); [|congruence].
           apply HasPrefix_spec. by exists post.
        -- rewrite append_cons in Heq. injection Heq as _ Heq.
           assert (0 <= strings.Index s substr); [|lia].
           apply IH. by exists pre, post.
      * split; [|lia]. intros _. destruct IH as [IH _].
        destruct (IH Hge) as (pre & post & ->). by exists (String c pre), post.
Qed.

(** [strings.Contains] is plain containment of the bytes. *)
Lemma Contains_spec (s substr : string) :
  strings.Contains s substr = true <-> substring_of substr s.
Proof.
  unfold strings.Contains. rewrite <- Index_found. apply Z.leb_le.
Qed.

End Contains.

(** ** ExtractImagesFromMarkdown *)

Section Extract.

Import utf8 regexp.

Lemma fold_images {A : Type} (guard : A -> bool) (f : A -> files.ImageInfo)
    (ms : list A) (acc : list files.ImageInfo) :
  Forall (fun m => guard m = true) ms ->
  fold_left (fun images m => if guard m then images ++ [f m] else images) ms acc
  = acc ++ map f ms.
Proof.
  intros Hall. revert acc. induction Hall as [|m ms Hm _ IH]; intros acc; simpl.
  - by rewrite app_nil_r.
  - by rewrite Hm, IH, <- app_assoc.
Qed.

Lemma scan_formA (markdown : string) :
  scanned formA_at (bytes_of markdown)
          (map groups (fst (scan files.markdownRegex markdown))).
Proof.
  apply scan_scanned.
  - apply formA_ascii.
  - apply formA_shorter.
  - apply formA_match.
  - apply match_formA.
Qed.

Lemma scan_formB (markdown : string) :
  scanned formB_at (bytes_of markdown)
          (map groups (fst (scan files.htmlRegex markdown))).
Proof.
  apply scan_scanned.
  - apply formB_ascii.
  - apply formB_shorter.
  - apply formB_match.
  - apply match_formB.
Qed.

(** The function written with the two scans. *)
Lemma extract_scans (markdown : string) :
  files.ExtractImagesFromMarkdown markdown
  = map imageA (map groups (fst (scan files.markdownRegex markdown)))
    ++ map imageB (map groups (fst (scan files.htmlRegex markdown))).
Proof.
  unfold files.ExtractImagesFromMarkdown, FindAllStringSubmatch.
  pose proof (scanned_parts _ _ _ (scan_formA markdown)) as HA.
  pose proof (scanned_parts _ _ _ (scan_formB markdown)) as HB.
  rewrite Forall_map in HA, HB.
  rewrite (fold_images (fun m => (3 <=? length m)%nat)).
  2:{ rewrite Forall_map. eapply Forall_impl; [exact HA|].
      intros f (s' & rest & alt & url & Hg & _). simpl. by rewrite Hg. }
  rewrite (fold_images (fun m => (2 <=? length m)%nat)).
  2:{ rewrite Forall_map. eapply Forall_impl; [exact HB|].
      intros f (s' & rest & junk & url & Hg & _). simpl. by rewrite Hg. }
  simpl. rewrite !map_map. f_equal.
  - apply map_ext_Forall. eapply Forall_impl; [exact HA|].
    intros f (s' & rest & alt & url & Hg & _). unfold imageA, files.at_. simpl.
    by rewrite Hg.
  - apply map_ext_Forall. eapply Forall_impl; [exact HB|].
    intros f (s' & rest & junk & url & Hg & _). unfold imageB, files.at_. simpl.
    by rewrite Hg.
Qed.

(** Any two lists the scans can report are the ones the function uses. *)
Lemma extract_of_scans (markdown : string) (xs ys : list (list (list ascii))) :
  scanned formA_at (bytes_of markdown) xs ->
  scanned formB_at (bytes_of markdown) ys ->
  files.ExtractImagesFromMarkdown markdown = map imageA xs ++ map imageB ys.
Proof.
  intros Hxs Hys. rewrite extract_scans.
  rewrite (scanned_unique files.markdownRegex formA_at formA_match (bytes_of markdown)
             xs _ Hxs (scan_formA markdown)).
  by rewrite (scanned_unique files.htmlRegex formB_at formB_match (bytes_of markdown)
                ys _ Hys (scan_formB markdown)).
Qed.

(** C4.  The result of [ExtractImagesFromMarkdown] is the occurrences of
    Form A found by the scan of the whole text from left to right, each with
    its alt text and its URL, followed by the occurrences of Form B found by
    a second scan of the whole text, each with its URL and the empty alt
    text; each scan has exactly one result, so the two groups are never
    interleaved; a text in which neither form occurs yields the empty list. *)
Theorem extract_forms_in_order (markdown : string) :
  exists formA formB : list (list (list ascii)),
    scanned formA_at (bytes_of markdown) formA
    /\ scanned formB_at (bytes_of markdown) formB
    /\ (forall xs, scanned formA_at (bytes_of markdown) xs -> xs = formA)
    /\ (forall ys, scanned formB_at (bytes_of markdown) ys -> ys = formB)
    /\ files.ExtractImagesFromMarkdown markdown = map imageA formA ++ map imageB formB
    /\ Forall (fun parts => exists alt url,
                 parts = [alt; url]
                 /\ files.AltText (imageA parts) = string_of alt
                 /\ files.URL (imageA parts) = string_of url) formA
    /\ Forall (fun parts => exists url,
                 parts = [url]
                 /\ files.AltText (imageB parts) = ""
                 /\ files.URL (imageB parts) = string_of url) formB
    /\ ((forall pre s' x rest, bytes_of markdown = pre ++ s' ->
           ~ formA_at s' x rest /\ ~ formB_at s' x rest) ->
        files.ExtractImagesFromMarkdown markdown = []).
Proof.
  pose proof (scan_formA markdown) as HA. pose proof (scan_formB markdown) as HB.
  exists (map groups (fst (scan files.markdownRegex markdown))),
         (map groups (fst (scan files.htmlRegex markdown))).
  split_and!.
  - done.
  - done.
  - intros xs Hxs.
    apply (scanned_unique files.markdownRegex formA_at formA_match (bytes_of markdown));
      done.
  - intros ys Hys.
    apply (scanned_unique files.htmlRegex formB_at formB_match (bytes_of markdown));
      done.
  - apply extract_scans.
  - eapply Forall_impl; [apply (scanned_parts _ _ _ HA)|].
    intros parts (s' & rest & alt & url & -> & _). by exists alt, url.
  - eapply Forall_impl; [apply (scanned_parts _ _ _ HB)|].
    intros parts (s' & rest & junk & url & -> & _). by exists url.
  - intros Hnone. rewrite extract_scans.
    destruct HA as [|s pre s' x rest xs Hs Hat _ _];
      [|by destruct (Hnone _ _ x rest Hs) as [[] _]].
    destruct HB as [|s pre s' x rest xs Hs Hat _ _];
      [|by destruct (Hnone _ _ x rest Hs) as [_ []]].
    done.
Qed.

(** The two groups follow the forms, not the positions: a tag that stands
    before a markdown image is reported after it. *)
Example extract_not_interleaved :
  map files.URL
    (files.ExtractImagesFromMarkdown
       (string_of (bytes_of "<img src=" ++ [files.dq] ++ bytes_of "b.png" ++ [files.dq]
                   ++ bytes_of "> ![a](c.png)")))
  = ["c.png"; "b.png"].
Proof. vm_compute. reflexivity. Qed.

(** C7.  For every image [ExtractImagesFromMarkdown] reports, [IsLinearURL]
    is true exactly when the URL holds the bytes of [linear.app] somewhere:
    containment of one string in the other, whatever the URL is. *)
Theorem known_host_is_substring (markdown : string) (img : files.ImageInfo) :
  In img (files.ExtractImagesFromMarkdown markdown) ->
  (files.IsLinearURL img = true <-> substring_of "linear.app" (files.URL img)).
Proof.
  rewrite extract_scans, in_app_iff, !in_map_iff.
  intros [(parts & <- & _)|(parts & <- & _)]; apply Contains_spec.
Qed.

Lemma known_host_is_substring_witness :
  let img := imageA [bytes_of "logo"; bytes_of "https://uploads.linear.app/a.png"] in
  In img (files.ExtractImagesFromMarkdown "see ![logo](https://uploads.linear.app/a.png)")
  /\ (files.IsLinearURL img = true <-> substring_of "linear.app" (files.URL img)).
Proof.
  intros img.
  assert (Hin : In img (files.ExtractImagesFromMarkdown
                          "see ![logo](https://uploads.linear.app/a.png)")).
  { vm_compute. by left. }
  split; [exact Hin|].
  exact (known_host_is_substring _ _ Hin).
Defined.

Lemma not_in_image (c : ascii) : c <> "i"%char -> c <> "m"%char -> c <> "a"%char ->
  c <> "g"%char -> c <> "e"%char -> ~ In c (bytes_of "image").
Proof. simpl. intuition congruence. Qed.

(** C9.  Appending an image to the empty document and extracting the images
    of the result gives back that one image: its URL, and its alt text, or
    [image] for an empty alt text.  The alt text must be free of the
    closing bracket, the URL not empty and free of the closing parenthesis,
    and both free of [<]. *)
Theorem inject_then_extract (assetURL altText : string) :
  ~ In "]"%char (bytes_of altText) -> ~ In "<"%char (bytes_of altText) ->
  assetURL <> "" ->
  ~ In ")"%char (bytes_of assetURL) -> ~ In "<"%char (bytes_of assetURL) ->
  files.ExtractImagesFromMarkdown (files.InjectImageIntoMarkdown "" assetURL altText)
  = [ {| files.URL := assetURL;
         files.AltText := if decide (altText = "") then "image" else altText;
         files.IsLinearURL := strings.Contains assetURL "linear.app" |} ].
Proof.
  intros Hrb Hlt Hne Hrp Hlt'.
  unfold files.InjectImageIntoMarkdown.
  destruct (decide (strings.TrimSpace "" = "")) as [_|Hn]; [|by destruct Hn].
  set (alt := if decide (altText = "") then "image" else altText).
  assert (Halt : ~ In "]"%char (bytes_of alt) /\ ~ In "<"%char (bytes_of alt)).
  { unfold alt. destruct (decide (altText = "")); [|done].
    split; by apply not_in_image. }
  destruct Halt as [Hrb' Hlt''].
  set (doc := "![" +:+ alt +:+ "](" +:+ assetURL +:+ ")").
  assert (Hdoc : bytes_of doc
                 = bytes_of "![" ++ bytes_of alt ++ bytes_of "](" ++ bytes_of assetURL
                   ++ bytes_of ")" ++ []).
  { unfold doc. by rewrite !bytes_of_app. }
  rewrite (extract_of_scans doc [[bytes_of alt; bytes_of assetURL]] []).
  - unfold imageA. simpl. by rewrite !string_of_bytes_of.
  - apply (scanned_next formA_at _ [] (bytes_of doc) _ []).
    + done.
    + exists (bytes_of alt), (bytes_of assetURL). split_and!; try done.
      intros Hnil. apply Hne. apply bytes_of_inj. by rewrite Hnil.
    + intros pre2 s2 x2 rest2 _ Hlen. simpl in Hlen. lia.
    + apply scanned_none. intros pre s' x rest Heq (alt' & url' & _ & -> & _).
      by destruct pre.
  - apply scanned_none. intros pre s' x rest Heq (junk & url & _ & (-> & _) & _).
    assert (Hin : In "<"%char (bytes_of doc)).
    { rewrite Heq. apply in_or_app. right. by left. }
    rewrite Hdoc, !in_app_iff in Hin. simpl in Hin.
    intuition congruence.
Qed.

Lemma inject_then_extract_witness :
  (~ In "]"%char (bytes_of "") /\ ~ In "<"%char (bytes_of "")
   /\ "https://uploads.linear.app/a.png" <> ""
   /\ ~ In ")"%char (bytes_of "https://uploads.linear.app/a.png")
   /\ ~ In "<"%char (bytes_of "https://uploads.linear.app/a.png"))
  /\ files.ExtractImagesFromMarkdown
       (files.InjectImageIntoMarkdown "" "https://uploads.linear.app/a.png" "")
     = [ {| files.URL := "https://uploads.linear.app/a.png";
            files.AltText := "image";
            files.IsLinearURL := true |} ].
Proof.
  assert (H : ~ In "]"%char (bytes_of "") /\ ~ In "<"%char (bytes_of "")
              /\ "https://uploads.linear.app/a.png" <> ""
              /\ ~ In ")"%char (bytes_of "https://uploads.linear.app/a.png")
              /\ ~ In "<"%char (bytes_of "https://uploads.linear.app/a.png")).
  { split_and!; solve [done | simpl; intuition congruence]. }
  split; [exact H|].
  destruct H as (H1 & H2 & H3 & H4 & H5).
  exact (inject_then_extract "https://uploads.linear.app/a.png" "" H1 H2 H3 H4 H5).
Defined.

End Extract.

(** ** SanitizeFilename *)

Section Sanitize.

Import utf8 regexp.

Local Arguments byte_val : simpl never.

Lemma search_cls_Some (c : class) (ts : list token) (pre m : list ascii)
    (caps : list (list ascii)) (rest : list token) :
  search (Cls c) ts = Some (pre, (m, caps, rest)) ->
  exists tpre t, ts = tpre ++ t :: rest /\ pre = text tpre
    /\ Forall (fun t => in_class c (fst t) = false) tpre
    /\ in_class c (fst t) = true.
Proof.
  revert pre. induction ts as [|t ts IH]; intros pre; [done|].
  cbn [search]. unfold match_here. cbn [alternatives].
  destruct (in_class c (fst t)) eqn:Hc.
  - simpl. intros H. injection H as <- <- <- <-. by exists [], t.
  - simpl. destruct (search (Cls c) ts) as [[pre' [[m' caps'] rest']]|] eqn:Hs; [|done].
    intros H. injection H as <- <- <- <-.
    destruct (IH _ eq_refl) as (tpre & t' & -> & -> & Hall & Ht').
    exists (t :: tpre), t'. split_and!; [done|done|by constructor|done].
Qed.

Lemma search_cls_None (c : class) (ts : list token) :
  search (Cls c) ts = None -> Forall (fun t => in_class c (fst t) = false) ts.
Proof.
  induction ts as [|t ts IH]; [constructor|].
  cbn [search]. unfold match_here. cbn [alternatives].
  destruct (in_class c (fst t)) eqn:Hc; [done|].
  simpl. destruct (search (Cls c) ts) as [[pre' o']|] eqn:Hs; [done|].
  intros _. constructor; [done|by apply IH].
Qed.

Lemma replaced_outside (c : class) (repl : list ascii) (ts : list token) :
  Forall (fun t => in_class c (fst t) = false) ts ->
  flat_map (replaced c repl) ts = text ts.
Proof.
  induction 1 as [|t ts Ht _ IH]; [done|].
  simpl. unfold replaced at 1. by rewrite Ht, IH.
Qed.

(** Replacing every match of a class, rune by rune. *)
Lemma replace_runes (c : class) (repl : list ascii) (n : nat) (ts : list token) :
  (length ts < n)%nat ->
  concat (map (fun f => gap f ++ repl) (fst (allMatches n (Cls c) ts)))
    ++ snd (allMatches n (Cls c) ts)
  = flat_map (replaced c repl) ts.
Proof.
  revert ts. induction n as [|n IH]; intros ts Hn; [lia|].
  cbn [allMatches].
  destruct (search (Cls c) ts) as [[pre [[m caps] rest]]|] eqn:Hs.
  - apply search_cls_Some in Hs as (tpre & t & -> & -> & Hall & Ht).
    cbn [fst snd map concat gap].
    rewrite flat_map_app, (replaced_outside c repl tpre Hall). cbn [flat_map].
    replace (replaced c repl t) with repl by (unfold replaced; by rewrite Ht).
    rewrite <- !app_assoc. do 2 f_equal.
    apply IH. rewrite length_app in Hn. simpl in Hn. lia.
  - apply search_cls_None in Hs. cbn [fst snd map concat].
    by rewrite replaced_outside.
Qed.

Lemma ReplaceAllString_cls (c : class) (src repl : string) :
  bytes_of (ReplaceAllString (Cls c) src repl)
  = flat_map (replaced c (bytes_of repl)) (runes (bytes_of src)).
Proof.
  unfold ReplaceAllString, scan. rewrite bytes_of_string_of.
  apply replace_runes. lia.
Qed.

Lemma safe_ranges_set (c : ascii) :
  in_ranges safe_ranges (byte_val c) = true <-> in_set c.
Proof.
  unfold in_ranges, safe_ranges, in_set, one, range. cbn [existsb fst snd].
  rewrite orb_false_r, !orb_true_iff, !andb_true_iff, !Z.leb_le.
  assert (Hdot : c = "."%char <-> byte_val c = byte_val ".").
  { split; [by intros ->|apply byte_val_inj]. }
  assert (Hund : c = "_"%char <-> byte_val c = byte_val "_").
  { split; [by intros ->|apply byte_val_inj]. }
  assert (Hdash : c = "-"%char <-> byte_val c = byte_val "-").
  { split; [by intros ->|apply byte_val_inj]. }
  rewrite Hdot, Hund, Hdash. byte_consts. lia.
Qed.

Lemma safe_ranges_ascii (r : Z) : in_ranges safe_ranges r = true -> r < 0x80.
Proof.
  unfold in_ranges, safe_ranges, one, range. cbn [existsb fst snd]. byte_consts.
  rewrite orb_false_r, !orb_true_iff, !andb_true_iff, !Z.leb_le. lia.
Qed.

Lemma in_unsafe (r : Z) : in_class unsafe r = negb (in_ranges safe_ranges r).
Proof. done. Qed.

Lemma in_set_ascii (c : ascii) : in_set c -> byte_val c < 0x80.
Proof. intros Hc%safe_ranges_set. by apply safe_ranges_ascii. Qed.

(** After the replacement only characters of the set are left. *)
Lemma replaced_in_set (ts : list token) :
  Forall tok_ok ts ->
  Forall in_set (flat_map (replaced unsafe (bytes_of "_")) ts).
Proof.
  induction 1 as [|t ts Ht _ IH]; [constructor|].
  cbn [flat_map]. apply Forall_app. split; [|done].
  unfold replaced. rewrite in_unsafe.
  destruct (in_ranges safe_ranges (fst t)) eqn:Hr; cbn [negb].
  - pose proof (safe_ranges_ascii _ Hr) as Hlt.
    destruct Ht as [(d & -> & Hd)|(Hge & _)]; [|lia].
    cbn [fst snd] in *. constructor; [|constructor]. by apply safe_ranges_set.
  - constructor; [|constructor]. unfold in_set. auto 10.
Qed.

(** A text of characters of the set is left as it is. *)
Lemma replaced_id (b : list ascii) :
  Forall in_set b -> flat_map (replaced unsafe (bytes_of "_")) (runes b) = b.
Proof.
  induction 1 as [|c b Hc _ IH]; [done|].
  rewrite runes_cons_ascii by (by apply in_set_ascii).
  cbn [flat_map]. rewrite IH. unfold replaced. rewrite in_unsafe. cbn [fst snd].
  apply safe_ranges_set in Hc. by rewrite Hc.
Qed.

Lemma bytes_of_substring (n : nat) (s : string) :
  bytes_of (String.substring 0 n s) = take n (bytes_of s).
Proof.
  revert s. induction n as [|n IH]; intros s.
  - by destruct s.
  - destruct s as [|c s]; [done|]. simpl. f_equal. apply IH.
Qed.

Lemma len_bytes (s : string) : len s = Z.of_nat (length (bytes_of s)).
Proof. unfold len. by rewrite length_bytes_of. Qed.

(** On a name of at most 200 characters of the set the function is the
    identity. *)
Lemma sanitize_fixed (out : string) :
  Forall in_set (bytes_of out) -> len out <= 200 ->
  files.SanitizeFilename out = Some out.
Proof.
  intros Hset Hlen. unfold files.SanitizeFilename.
  assert (Hsafe : ReplaceAllString files.unsafeRegex out "_" = out).
  { apply bytes_of_inj. rewrite (ReplaceAllString_cls unsafe). by apply replaced_id. }
  rewrite Hsafe. destruct (Z.ltb_spec 200 (len out)); [lia|done].
Qed.

(** C5.  [SanitizeFilename] never fails; its result has at most 200
    characters, all of them of the set [A-Za-z0-9._-]; and applied to its
    own result it returns that result. *)
Theorem sanitize_total_bounded_idempotent (name : string) :
  exists out,
    files.SanitizeFilename name = Some out
    /\ files.SanitizeFilename out = Some out
    /\ len out <= 200
    /\ Forall in_set (bytes_of out).
Proof.
  unfold files.SanitizeFilename at 1.
  set (safe := ReplaceAllString files.unsafeRegex name "_").
  assert (Hsafe : Forall in_set (bytes_of safe)).
  { unfold safe. rewrite (ReplaceAllString_cls unsafe).
    apply replaced_in_set, runes_ok. }
  destruct (Z.ltb_spec 200 (len safe)) as [Hlong|Hshort].
  - unfold files.slice_to.
    destruct (Z.leb_spec 200 (len safe)) as [_|]; [|lia]. cbn [andb Z.leb].
    assert (Hset : Forall in_set (bytes_of (String.substring 0 (Z.to_nat 200) safe))).
    { rewrite bytes_of_substring. by apply Forall_take. }
    assert (Hlen : len (String.substring 0 (Z.to_nat 200) safe) <= 200).
    { rewrite len_bytes, bytes_of_substring, length_take. lia. }
    eexists. split_and!; [done| |done..]. by apply sanitize_fixed.
  - exists safe. split_and!; [done| |done..]. by apply sanitize_fixed.
Qed.

Example sanitize_example :
  files.SanitizeFilename "my file (1).png" = Some "my_file__1_.png".
Proof. vm_compute. reflexivity. Qed.

End Sanitize.

(** ** InjectImageIntoMarkdown *)

Section Inject.

Import utf8.

Lemma drop_spaces_nil (ts : list token) :
  strings.drop_spaces ts = [] <-> Forall (fun t => unicode.IsSpace (fst t) = true) ts.
Proof.
  induction ts as [|t ts IH]; simpl.
  - split; [constructor|done].
  - destruct (unicode.IsSpace (fst t)) eqn:Ht.
    + rewrite IH. split; [by constructor|]. by intros [_ ?]%Forall_cons.
    + split; [done|]. intros [? _]%Forall_cons. congruence.
Qed.

Lemma drop_spaces_head (ts : list token) (t : token) (r : list token) :
  strings.drop_spaces ts = t :: r -> unicode.IsSpace (fst t) = false.
Proof.
  induction ts as [|t0 ts IH]; simpl; [done|].
  destruct (unicode.IsSpace (fst t0)) eqn:Ht; [done|]. by intros [= <- _].
Qed.

Lemma drop_spaces_ok (ts : list token) :
  Forall tok_ok ts -> Forall tok_ok (strings.drop_spaces ts).
Proof.
  induction 1 as [|t ts Ht Hts IH]; simpl; [constructor|].
  destruct (unicode.IsSpace (fst t)); [done|]. by constructor.
Qed.

(** Trimming leaves nothing exactly when the text is blank. *)
Lemma TrimSpace_empty (s : string) : strings.TrimSpace s = "" <-> blank s.
Proof.
  unfold strings.TrimSpace, blank. pose proof (runes_ok (bytes_of s)) as Hok.
  rewrite <- drop_spaces_nil.
  destruct (strings.drop_spaces (runes (bytes_of s))) as [|t r] eqn:Hd; [done|].
  split; [|done]. intros Hnil. exfalso.
  pose proof (drop_spaces_head _ _ _ Hd) as Ht.
  apply drop_spaces_ok in Hok. rewrite Hd in Hok.
  apply (f_equal bytes_of) in Hnil. rewrite bytes_of_string_of in Hnil.
  revert Hnil. apply text_nonempty.
  - apply Forall_reverse, drop_spaces_ok, Forall_reverse. done.
  - intros Hrev. apply (f_equal reverse) in Hrev. rewrite reverse_involutive in Hrev.
    apply drop_spaces_nil in Hrev.
    rewrite reverse_cons in Hrev. apply Forall_app in Hrev as [_ Hrev].
    apply Forall_cons in Hrev as [Hrev _]. congruence.
Qed.

(** C6.  [InjectImageIntoMarkdown] takes the word [image] for an empty alt
    text; for a document that is empty once trimmed of white space (a blank
    document) it returns the image reference [![alt](url)] alone; otherwise
    it returns the document, unchanged, followed by two line feeds and the
    reference. *)
Theorem inject_image_reference (markdown imageURL altText : string) :
  let alt := if decide (altText = "") then "image" else altText in
  let reference := "![" +:+ alt +:+ "](" +:+ imageURL +:+ ")" in
  (strings.TrimSpace markdown = "" <-> blank markdown)
  /\ (strings.TrimSpace markdown = "" ->
      files.InjectImageIntoMarkdown markdown imageURL altText = reference)
  /\ (strings.TrimSpace markdown <> "" ->
      files.InjectImageIntoMarkdown markdown imageURL altText
      = markdown +:+ files.newline +:+ files.newline +:+ reference)
  /\ files.InjectImageIntoMarkdown "" "http://x/a.png" "" = "![image](http://x/a.png)"
  /\ files.InjectImageIntoMarkdown "body text" "http://x/a.png" "cat"
     = "body text" +:+ files.newline +:+ files.newline +:+ "![cat](http://x/a.png)".
Proof.
  intros alt reference. unfold files.InjectImageIntoMarkdown. fold alt. fold reference.
  split_and!.
  - apply TrimSpace_empty.
  - intros Hb. by destruct (decide (strings.TrimSpace markdown = "")).
  - intros Hb. by destruct (decide (strings.TrimSpace markdown = "")).
  - vm_compute. reflexivity.
  - vm_compute. reflexivity.
Qed.

End Inject.

(** ** GetFileInfo *)

Section Metadata.

Lemma length_append (p q : string) :
  String.length (p +:+ q) = (String.length p + String.length q)%nat.
Proof. induction p as [|c p IH]; [done|]. rewrite append_cons. simpl. by rewrite IH. Qed.

Lemma get_append_r (p q : string) (n : nat) :
  String.get (String.length p + n) (p +:+ q) = String.get n q.
Proof. induction p as [|c p IH]; [done|]. rewrite append_cons. simpl. apply IH. Qed.

Lemma substring_all (q : string) : String.substring 0 (String.length q) q = q.
Proof. induction q as [|c q IH]; [done|]. simpl. by rewrite IH. Qed.

Lemma substring_append_r (p q : string) :
  String.substring (String.length p) (String.length q) (p +:+ q) = q.
Proof.
  induction p as [|c p IH]; [apply substring_all|]. rewrite append_cons. simpl. apply IH.
Qed.

Lemma get_in (n : nat) (e : string) (c : ascii) :
  String.get n e = Some c -> In c (bytes_of e).
Proof.
  revert n. induction e as [|d e IH]; intros n; [done|]. simpl.
  destruct n as [|n]; [intros [= ->]; by left|]. intros Hg. right. by apply (IH n).
Qed.

Lemma get_lt (n : nat) (e : string) :
  (n < String.length e)%nat -> exists c, String.get n e = Some c.
Proof.
  revert n. induction e as [|d e IH]; intros n; simpl; [lia|].
  destruct n as [|n]; [by exists d|]. intros Hn. apply IH. lia.
Qed.

(** The extension of a path that ends in a dot and a name free of dots and
    of separators. *)
Lemma Ext_suffix (p e : string) :
  ~ In "/"%char (bytes_of e) -> ~ In "."%char (bytes_of e) ->
  filepath.Ext (p +:+ "." +:+ e) = "." +:+ e.
Proof.
  intros Hsep Hdot. unfold filepath.Ext.
  assert (Hloop : forall k, (k <= String.length e)%nat ->
            filepath.ext_loop (p +:+ "." +:+ e) (String.length p + 1 + k) = "." +:+ e).
  { induction k as [|k IH]; intros Hk.
    - replace (String.length p + 1 + 0)%nat with (S (String.length p)) by lia.
      cbn [filepath.ext_loop].
      rewrite <- (Nat.add_0_r (String.length p)) at 1. rewrite get_append_r.
      cbn [String.get append].
      replace (String.length (p +:+ "." +:+ e) - String.length p)%nat
        with (String.length ("." +:+ e)).
      2:{ rewrite !length_append. cbn [String.length]. lia. }
      change (filepath.IsPathSeparator ".") with false. cbn [Ascii.eqb Bool.eqb].
      apply substring_append_r.
    - replace (String.length p + 1 + S k)%nat with (S (String.length p + (1 + k))) by lia.
      cbn [filepath.ext_loop]. rewrite get_append_r.
      change (String.get (1 + k) ("." +:+ e)) with (String.get k e).
      destruct (get_lt k e) as [c Hc]; [lia|]. rewrite Hc.
      apply get_in in Hc.
      unfold filepath.IsPathSeparator.
      destruct (Ascii.eqb_spec c "/") as [->|_]; [done|].
      destruct (Ascii.eqb_spec c ".") as [->|_]; [done|].
      replace (String.length p + (1 + k))%nat with (String.length p + 1 + k)%nat by lia.
      apply IH. lia. }
  etrans; [|apply (Hloop (String.length e)); lia]. f_equal.
  rewrite !length_append. simpl. lia.
Qed.

(** The [switch] of [GetFileInfo] is the lookup in the table. *)
Lemma switch_is_table (ext : string) :
  (if (ext =? ".jpg")%string || (ext =? ".jpeg")%string then "image/jpeg"
   else if (ext =? ".png")%string then "image/png"
   else if (ext =? ".gif")%string then "image/gif"
   else if (ext =? ".webp")%string then "image/webp"
   else if (ext =? ".svg")%string then "image/svg+xml"
   else if (ext =? ".bmp")%string then "image/bmp"
   else if (ext =? ".mp4")%string then "video/mp4"
   else if (ext =? ".webm")%string then "video/webm"
   else if (ext =? ".mov")%string then "video/quicktime"
   else if (ext =? ".pdf")%string then "application/pdf"
   else "application/octet-stream")
  = content_type_for ext.
Proof.
  unfold content_type_for, mime_table, octet_stream. cbn [lookup_table].
  repeat match goal with
         | |- context [ (ext =? ?e)%string ] => destruct (ext =? e)%string
         end; reflexivity.
Qed.

Lemma lookup_table_None (table : list (string * string)) (ext : string) :
  ~ In ext (map fst table) -> lookup_table table ext = None.
Proof.
  induction table as [|[e ct] table IH]; [done|]. simpl. intros Hn.
  destruct (String.eqb_spec ext e) as [->|_]; [by destruct Hn; left|].
  apply IH. intros Hin. apply Hn. by right.
Qed.

Lemma table_entries (e ct : string) :
  In (e, ct) mime_table -> content_type_for e = ct.
Proof.
  unfold mime_table. intros Hin.
  repeat (destruct Hin as [[= <- <-]|Hin]; [reflexivity|]). destruct Hin.
Qed.

Lemma ToLower_ascii (lower : string -> string) (s : string) :
  strings.isASCII s = true ->
  strings.ToLower lower s = string_of (map strings.lower_byte (bytes_of s)).
Proof. unfold strings.ToLower. by intros ->. Qed.

Context `{Runtime}.

(** C8.  When [os.Stat] succeeds, [GetFileInfo] returns the size the
    filesystem reports, no error, and the content type the table gives the
    extension of the path in lower case, whatever the file holds: the type
    of the table's entry for a listed extension, the generic binary type for
    any other extension and for a path without extension.  For an extension
    of ASCII characters the letter case of the path does not matter. *)
Theorem get_file_info_by_extension (filePath : string) (w : World) (info : os.FileInfo) :
  os_Stat filePath (disk w) = inr info ->
  let ext := strings.ToLower lower_unicode (filepath.Ext filePath) in
  files.GetFileInfo filePath w = ((os.Size info, content_type_for ext, None), w)
  /\ (forall e ct, In (e, ct) mime_table -> ext = e -> content_type_for ext = ct)
  /\ (~ In ext (map fst mime_table) -> content_type_for ext = octet_stream)
  /\ (filepath.Ext filePath = "" -> content_type_for ext = octet_stream)
  /\ (forall dir name,
        filePath = dir +:+ "." +:+ name ->
        ~ In "/"%char (bytes_of name) -> ~ In "."%char (bytes_of name) ->
        strings.isASCII name = true ->
        ext = "." +:+ string_of (map strings.lower_byte (bytes_of name))).
Proof.
  intros Hstat ext. split_and!.
  - unfold files.GetFileInfo. rewrite Hstat. fold ext. by rewrite switch_is_table.
  - intros e ct Hin ->. by apply table_entries.
  - intros Hn. unfold content_type_for. by rewrite lookup_table_None.
  - intros Hext. unfold ext. by rewrite Hext.
  - intros dir name -> Hsep Hdot Hascii. unfold ext.
    rewrite Ext_suffix by done.
    rewrite ToLower_ascii.
    + apply bytes_of_inj. by rewrite !bytes_of_app, !bytes_of_string_of.
    + unfold strings.isASCII in *. rewrite bytes_of_app, forallb_app, Hascii. done.
Qed.

End Metadata.

Lemma get_file_info_by_extension_witness :
  let R := sim.platform (inl "no network") in
  let w := {| disk := sim.one_file "shots/Screen.PNG" "data"; wire := [] |} in
  os_Stat "shots/Screen.PNG" (disk w) = inr {| os.Size := 4 |}
  /\ files.GetFileInfo "shots/Screen.PNG" w = ((4, "image/png", None), w).
Proof.
  intros R w.
  assert (Hstat : os_Stat "shots/Screen.PNG" (disk w) = inr {| os.Size := 4 |}).
  { vm_compute. reflexivity. }
  split; [exact Hstat|].
  exact (proj1 (get_file_info_by_extension "shots/Screen.PNG" w {| os.Size := 4 |} Hstat)).
Defined.

(** ** DownloadImage *)

Section Download.

Context `{Runtime}.

(** C1.  When the server answers a download with a status other than 200,
    [DownloadImage] returns the error that carries the status and leaves the
    filesystem as it was: the only effect is the request sent, before any
    call to the filesystem (no directory made, no file created or written,
    whatever those calls would have done). *)
Theorem download_fails_on_status (url outputPath authHeader : string) (w : World)
    (resp : http.Response) :
  url_error url = None ->
  client_Do (download_request url authHeader) = inr resp ->
  http.StatusCode resp <> 200 ->
  files.DownloadImage url outputPath authHeader w
  = (Some ("download failed with status: " +:+ http.Status resp),
     {| disk := disk w; wire := wire w ++ [download_request url authHeader] |}).
Proof.
  intros Hurl Hdo Hstatus.
  unfold files.DownloadImage, try, NewRequestWithContext, pure, Do.
  rewrite Hurl. cbn -[decide].
  assert (Hreq : (if decide (authHeader <> "")
                  then {| http.Method := "GET"; http.URL := url;
                          http.Header := http.Header_Set ∅ "Authorization" authHeader;
                          http.Body := None |}
                  else {| http.Method := "GET"; http.URL := url;
                          http.Header := ∅; http.Body := None |})
                 = download_request url authHeader).
  { unfold download_request. by destruct (decide (authHeader <> "")). }
  rewrite Hreq, Hdo.
  by destruct (decide (http.StatusCode resp <> http.StatusOK)).
Qed.

End Download.

Lemma download_fails_on_status_witness :
  let R := sim.platform (inr sim.not_found) in
  let w := {| disk := sim.one_file "out/a.png" "old bytes"; wire := [] |} in
  (url_error "https://x/a.png" = None
   /\ client_Do (download_request "https://x/a.png" "") = inr sim.not_found
   /\ http.StatusCode sim.not_found <> 200)
  /\ files.DownloadImage "https://x/a.png" "out/a.png" "" w
     = (Some "download failed with status: 404 Not Found",
        {| disk := sim.one_file "out/a.png" "old bytes";
           wire := [download_request "https://x/a.png" ""] |}).
Proof.
  intros R w.
  assert (H1 : url_error "https://x/a.png" = None) by reflexivity.
  assert (H2 : client_Do (download_request "https://x/a.png" "") = inr sim.not_found)
    by reflexivity.
  assert (H3 : http.StatusCode sim.not_found <> 200) by (simpl; lia).
  split; [done|].
  exact (download_fails_on_status "https://x/a.png" "out/a.png" "" w sim.not_found H1 H2 H3).
Defined.

(** With the status 200 the same call writes the file. *)
Example download_ok :
  let R := sim.platform (inr (sim.response 200 "200 OK" "new bytes")) in
  let w := {| disk := sim.one_file "out/a.png" "old bytes"; wire := [] |} in
  fst (files.DownloadImage "https://x/a.png" "out/a.png" "" w) = None
  /\ sim.contents (disk (snd (files.DownloadImage "https://x/a.png" "out/a.png" "" w)))
       !! "out/a.png" = Some "new bytes".
Proof. vm_compute. done. Qed.

(** ** UploadFileToLinear *)

Section Api.

Context `{Runtime}.

(** The URL a successful [UploadFileToLinear] returns is the asset URL of
    the grant [c.FileUpload] answered with. *)
Lemma upload_file_grant (c : api.Client) (filePath : string)
    (pick : gmap string string -> list (string * string)) (w w' : World) (url : string) :
  api.UploadFileToLinear c filePath pick w = ((url, None), w') ->
  exists size contentType w1 grant w2,
    api.FileUpload c (filepath_Base filePath) size contentType w1 = (inr grant, w2)
    /\ url = api.AssetURL grant.
Proof.
  unfold api.UploadFileToLinear.
  destruct (files.GetFileInfo filePath w) as [[[size contentType] [err|]] w0]; [done|].
  destruct (files.ReadFile filePath w0) as [[err|fileContent] w1]; [done|].
  destruct (api.FileUpload c (filepath_Base filePath) size contentType w1)
    as [[err|grant] w2] eqn:Hgrant; [done|].
  destruct (files.UploadToPresignedURL _ fileContent _ w2) as [[err|] w3]; [done|].
  intros [= <- <-]. by exists size, contentType, w1, grant, w2.
Qed.

End Api.

(** ** UploadToPresignedURL *)

Section Upload.

Context `{Runtime}.

(** The function once the request is made and answered. *)
Lemma upload_answered (info : files.UploadFileInfo) (fileContent : string)
    (pick : gmap string string -> list (string * string)) (w : World) (resp : http.Response) :
  url_error (files.UploadURL info) = None ->
  client_Do (upload_request info fileContent pick) = inr resp ->
  files.UploadToPresignedURL info fileContent pick w
  = ((if decide (http.StatusCode resp <> http.StatusOK /\
                 http.StatusCode resp <> http.StatusNoContent)
      then Some ("upload failed with status " +:+ http.Status resp +:+ ": "
                 +:+ http.delivered (http.RespBody resp))
      else None),
     {| disk := disk w; wire := wire w ++ [upload_request info fileContent pick] |}).
Proof.
  intros Hurl Hdo.
  unfold files.UploadToPresignedURL, try, NewRequestWithContext, pure, Do.
  rewrite Hurl. cbn -[decide files.with_headers].
  fold (upload_request info fileContent pick). rewrite Hdo.
  by destruct (decide _).
Qed.

(** C2.  When the server answers an upload, [UploadToPresignedURL] succeeds
    exactly for the statuses 200 and 204; for any other status it returns
    the error that carries the status and the text of the response body. *)
Theorem upload_succeeds_on_200_204 (info : files.UploadFileInfo) (fileContent : string)
    (pick : gmap string string -> list (string * string)) (w : World) (resp : http.Response) :
  url_error (files.UploadURL info) = None ->
  client_Do (upload_request info fileContent pick) = inr resp ->
  (fst (files.UploadToPresignedURL info fileContent pick w) = None
   <-> http.StatusCode resp = 200 \/ http.StatusCode resp = 204)
  /\ (http.StatusCode resp <> 200 -> http.StatusCode resp <> 204 ->
      fst (files.UploadToPresignedURL info fileContent pick w)
      = Some ("upload failed with status " +:+ http.Status resp +:+ ": "
              +:+ fst (http.ReadAll (http.RespBody resp)))).
Proof.
  intros Hurl Hdo. rewrite (upload_answered _ _ _ _ _ Hurl Hdo). cbn [fst].
  unfold http.StatusOK, http.StatusNoContent.
  destruct (decide (http.StatusCode resp <> 200 /\ http.StatusCode resp <> 204))
    as [[H1 H2]|Hn].
  - split; [|done]. split; [done|]. intros [?|?]; lia.
  - split; [|intros; tauto]. split; [lia|done].
Qed.

(** C10.  [UploadToPresignedURL] reads neither [AssetURL] nor [Size]: two
    targets that agree on the upload URL, the headers and the content type
    give, for the same content, the same request, the same result and the
    same effects.  The asset URL its caller [UploadFileToLinear] returns
    after a successful upload is the one of the grant [c.FileUpload]
    answered with. *)
Theorem upload_ignores_asset_url_and_size (info1 info2 : files.UploadFileInfo)
    (fileContent : string) (pick : gmap string string -> list (string * string)) (w : World) :
  files.UploadURL info1 = files.UploadURL info2 ->
  files.Headers info1 = files.Headers info2 ->
  files.ContentType info1 = files.ContentType info2 ->
  upload_request info1 fileContent pick = upload_request info2 fileContent pick
  /\ files.UploadToPresignedURL info1 fileContent pick w
     = files.UploadToPresignedURL info2 fileContent pick w
  /\ (forall (c : api.Client) filePath choice w0 w' url,
        api.UploadFileToLinear c filePath choice w0 = ((url, None), w') ->
        exists size contentType w1 grant w2,
          api.FileUpload c (filepath_Base filePath) size contentType w1 = (inr grant, w2)
          /\ url = api.AssetURL grant).
Proof.
  intros Hurl Hheaders Htype.
  assert (Hreq : forall req, files.with_headers req info1 pick
                             = files.with_headers req info2 pick).
  { intros req. unfold files.with_headers. by rewrite Htype, Hheaders. }
  split_and!.
  - unfold upload_request. by rewrite Hurl, Hreq.
  - unfold files.UploadToPresignedURL, try. rewrite Hurl.
    destruct (NewRequestWithContext "PUT" (files.UploadURL info2) (Some fileContent) w)
      as [[err|req] w']; [done|].
    by rewrite Hreq.
  - intros c filePath choice w0 w' url. apply upload_file_grant.
Qed.

End Upload.

Lemma upload_succeeds_on_200_204_witness :
  let R := sim.platform (inr (sim.response 403 "403 Forbidden" "<Error>expired</Error>")) in
  let info := {| files.UploadURL := "https://bucket/put"; files.AssetURL := "https://a/1";
                 files.Headers := ∅; files.ContentType := "image/png";
                 files.Size := 3 |} in
  let w := {| disk := sim.one_file "a.png" "abc"; wire := [] |} in
  (url_error (files.UploadURL info) = None
   /\ client_Do (upload_request info "abc" map_to_list)
      = inr (sim.response 403 "403 Forbidden" "<Error>expired</Error>"))
  /\ fst (files.UploadToPresignedURL info "abc" map_to_list w)
     = Some "upload failed with status 403 Forbidden: <Error>expired</Error>".
Proof.
  intros R info w.
  assert (H1 : url_error (files.UploadURL info) = None) by reflexivity.
  assert (H2 : client_Do (upload_request info "abc" map_to_list)
               = inr (sim.response 403 "403 Forbidden" "<Error>expired</Error>"))
    by reflexivity.
  split; [done|].
  apply (proj2 (upload_succeeds_on_200_204 info "abc" map_to_list w _ H1 H2)); simpl; lia.
Defined.

Lemma upload_ignores_asset_url_and_size_witness :
  let R := sim.platform (inr (sim.response 200 "200 OK" "")) in
  let info1 := {| files.UploadURL := "https://bucket/put"; files.AssetURL := "https://a/1";
                  files.Headers := {[ "x-amz-acl" := "public-read" ]};
                  files.ContentType := "image/png"; files.Size := 3 |} in
  let info2 := {| files.UploadURL := "https://bucket/put"; files.AssetURL := "https://b/2";
                  files.Headers := {[ "x-amz-acl" := "public-read" ]};
                  files.ContentType := "image/png"; files.Size := 77 |} in
  let w := {| disk := sim.one_file "a.png" "abc"; wire := [] |} in
  (files.UploadURL info1 = files.UploadURL info2
   /\ files.Headers info1 = files.Headers info2
   /\ files.ContentType info1 = files.ContentType info2)
  /\ files.UploadToPresignedURL info1 "abc" map_to_list w
     = files.UploadToPresignedURL info2 "abc" map_to_list w.
Proof.
  intros R info1 info2 w.
  split; [done|].
  exact (proj1 (proj2 (upload_ignores_asset_url_and_size info1 info2 "abc"
                  map_to_list w eq_refl eq_refl eq_refl))).
Defined.

(** ** The headers of the upload request *)

Section Headers.

Local Abbreviation canon := http.CanonicalMIMEHeaderKey.
Local Abbreviation overlay := (fold_left (fun (h : gmap string (list string)) (kv : string * string) =>
                        http.Header_Set h (fst kv) (snd kv))).

Lemma overlay_untouched (order : list (string * string)) (h : gmap string (list string))
    (K : string) :
  (forall kv, In kv order -> canon (fst kv) <> K) ->
  overlay order h !! K = h !! K.
Proof.
  revert h. induction order as [|kv order IH]; intros h Hno; [done|].
  cbn [fold_left]. rewrite IH by (intros; apply Hno; by right).
  unfold http.Header_Set. apply lookup_insert_ne. apply Hno. by left.
Qed.

Lemma overlay_keep (order : list (string * string)) (h : gmap string (list string))
    (K v : string) :
  h !! K = Some [v] ->
  (forall kv, In kv order -> canon (fst kv) = K -> snd kv = v) ->
  overlay order h !! K = Some [v].
Proof.
  revert h. induction order as [|kv order IH]; intros h Hh Hsame; [done|].
  cbn [fold_left]. apply IH; [|intros; apply Hsame; [by right|done]].
  unfold http.Header_Set. destruct (decide (canon (fst kv) = K)) as [Heq|Hne].
  - rewrite Heq, lookup_insert_eq. by rewrite (Hsame kv (or_introl eq_refl) Heq).
  - by rewrite lookup_insert_ne.
Qed.

(** An entry whose name, up to letter case, belongs to it alone (or to
    entries of the same value) is what the request carries under its name. *)
Lemma overlay_entry (order : list (string * string)) (h : gmap string (list string))
    (k v : string) :
  In (k, v) order ->
  (forall kv, In kv order -> canon (fst kv) = canon k -> snd kv = v) ->
  overlay order h !! canon k = Some [v].
Proof.
  revert h. induction order as [|kv order IH]; intros h Hin Hsame; [done|].
  cbn [fold_left]. destruct (in_dec (prod_eq_dec) (k, v) order) as [Hin'|Hnot].
  - apply IH; [done|]. intros. apply Hsame; [by right|done].
  - destruct Hin as [->|]; [|done]. apply overlay_keep.
    + unfold http.Header_Set. cbn [fst snd]. apply lookup_insert_eq.
    + intros. apply Hsame; [by right|done].
Qed.

Lemma visits_entry (order : list (string * string)) (m : gmap string string)
    (k v : string) :
  files.visits order m -> (In (k, v) order <-> m !! k = Some v).
Proof.
  unfold files.visits. intros Hperm.
  rewrite <- list_elem_of_In, Hperm. apply elem_of_map_to_list.
Qed.

(** C3, as the code has it.  The request is a PUT to the upload URL with
    the content as its body.  Names are compared as [net/http] stores them,
    by their canonical form ([CanonicalMIMEHeaderKey]).  For an entry of
    [info.Headers] whose name has the canonical form of no entry with
    another value, the request carries the entry's value under that name,
    also in place of the two defaults; the defaults [Content-Type] (from
    [info.ContentType]) and [Cache-Control] ([public, max-age=31536000])
    are carried when no entry has their canonical form.  Of several entries
    whose names have one canonical form, the one visited last decides: its
    value alone is stored under that form, and it is what the request
    carries under each of these names. *)
Theorem upload_request_headers (info : files.UploadFileInfo) (fileContent : string)
    (pick : gmap string string -> list (string * string)) :
  files.visits (pick (files.Headers info)) (files.Headers info) ->
  let req := upload_request info fileContent pick in
  http.Method req = "PUT" /\ http.URL req = files.UploadURL info
  /\ http.Body req = Some fileContent
  /\ (forall k v, files.Headers info !! k = Some v ->
        (forall k' v', files.Headers info !! k' = Some v' -> canon k' = canon k -> v' = v) ->
        http.Header_Get (http.Header req) k = v)
  /\ ((forall k v, files.Headers info !! k = Some v -> canon k <> "Content-Type") ->
      http.Header_Get (http.Header req) "Content-Type" = files.ContentType info)
  /\ ((forall k v, files.Headers info !! k = Some v -> canon k <> "Cache-Control") ->
      http.Header_Get (http.Header req) "Cache-Control" = "public, max-age=31536000")
  /\ (forall pre k v post,
        pick (files.Headers info) = pre ++ (k, v) :: post ->
        (forall kv, In kv post -> canon (fst kv) <> canon k) ->
        http.Header req !! canon k = Some [v]
        /\ forall k', canon k' = canon k -> http.Header_Get (http.Header req) k' = v).
Proof.
  intros Hvisits req. split_and!; [done..| | | |].
  - intros k v Hk Hsame. unfold http.Header_Get, req, upload_request, files.with_headers.
    cbn [http.Header]. rewrite (overlay_entry _ _ k v); [done| |].
    + by apply (visits_entry (pick (files.Headers info)) (files.Headers info)).
    + intros [k' v'] Hin Hc. apply (Hsame k'); [|done].
      by apply (visits_entry (pick (files.Headers info)) (files.Headers info)).
  - intros Hno. unfold http.Header_Get, req, upload_request, files.with_headers.
    cbn [http.Header]. rewrite overlay_untouched.
    + unfold http.Header_Set.
      change (canon "Content-Type") with "Content-Type".
      change (canon "Cache-Control") with "Cache-Control".
      rewrite lookup_insert_ne by done. by rewrite lookup_insert_eq.
    + intros [k v] Hin. change (canon "Content-Type") with "Content-Type".
      apply (Hno k v). by apply (visits_entry (pick (files.Headers info)) (files.Headers info)).
  - intros Hno. unfold http.Header_Get, req, upload_request, files.with_headers.
    cbn [http.Header]. rewrite overlay_untouched.
    + unfold http.Header_Set.
      change (canon "Cache-Control") with "Cache-Control".
      by rewrite lookup_insert_eq.
    + intros [k v] Hin. change (canon "Cache-Control") with "Cache-Control".
      apply (Hno k v). by apply (visits_entry (pick (files.Headers info)) (files.Headers info)).
  - intros pre k v post Hpick Hlast.
    assert (Hl : http.Header req !! canon k = Some [v]).
    { unfold req, upload_request, files.with_headers. cbn [http.Header].
      rewrite Hpick, fold_left_app. cbn [fold_left fst snd].
      rewrite overlay_untouched by exact Hlast.
      unfold http.Header_Set. apply lookup_insert_eq. }
    split; [exact Hl|]. intros k' Hc. unfold http.Header_Get. by rewrite Hc, Hl.
Qed.

Lemma upload_request_headers_witness :
  let info := {| files.UploadURL := "https://bucket/put"; files.AssetURL := "https://a/1";
                 files.Headers := {[ "content-type" := "image/webp" ]};
                 files.ContentType := "image/png"; files.Size := 3 |} in
  files.visits (map_to_list (files.Headers info)) (files.Headers info)
  /\ http.Header_Get (http.Header (upload_request info "abc" map_to_list)) "content-type"
     = "image/webp".
Proof.
  intros info.
  assert (Hv : files.visits (map_to_list (files.Headers info)) (files.Headers info)).
  { unfold files.visits. reflexivity. }
  split; [exact Hv|].
  destruct (upload_request_headers info "abc" map_to_list Hv) as (_ & _ & _ & Hentry & _).
  apply Hentry; unfold info; cbn [files.Headers].
  - apply lookup_singleton_eq.
  - intros k' v' Hk' _. apply lookup_singleton_Some in Hk' as [_ <-]. done.
Defined.

(** The claim as the specification words it, for every entry of the
    headers, fails for two names that differ only in letter case: both are
    stored under one name, so the request carries the value of the entry
    visited last, whichever order the map is visited in. *)
Lemma upload_headers_same_name_collide :
  ~ (forall (info : files.UploadFileInfo) (fileContent : string)
            (pick : gmap string string -> list (string * string)) (k v : string),
       files.visits (pick (files.Headers info)) (files.Headers info) ->
       files.Headers info !! k = Some v ->
       http.Header_Get (http.Header (upload_request info fileContent pick)) k = v).
Proof.
  intros Hclaim.
  assert (Hv : files.visits (map_to_list (files.Headers two_cases)) (files.Headers two_cases)).
  { unfold files.visits. reflexivity. }
  assert (L1 : files.Headers two_cases !! "x-a" = Some "1").
  { unfold two_cases. cbn [files.Headers]. by rewrite lookup_insert_eq. }
  assert (L2 : files.Headers two_cases !! "X-A" = Some "2").
  { unfold two_cases. cbn [files.Headers].
    rewrite lookup_insert_ne by done. by rewrite lookup_singleton_eq. }
  pose proof (Hclaim two_cases "abc" map_to_list "x-a" "1" Hv L1) as H1.
  pose proof (Hclaim two_cases "abc" map_to_list "X-A" "2" Hv L2) as H2.
  unfold http.Header_Get in H1, H2.
  change (canon "x-a") with "X-A" in H1. change (canon "X-A") with "X-A" in H2.
  rewrite H2 in H1. discriminate H1.
Qed.

(** What is sent for the two names when [x-a] is visited first. *)
Example upload_headers_two_cases :
  let req := upload_request two_cases "abc" (fun _ => [("x-a", "1"); ("X-A", "2")]) in
  http.Header_Get (http.Header req) "x-a" = "2"
  /\ http.Header_Get (http.Header req) "X-A" = "2"
  /\ http.Header req !! "X-A" = Some ["2"].
Proof. vm_compute. done. Qed.

(** A name that holds a byte not allowed in a field name, such as a space,
    is stored as it stands: two such names that differ in letter case stay
    apart and both values are carried. *)
Example upload_headers_spaced_names :
  let info := {| files.UploadURL := "https://bucket/put"; files.AssetURL := "https://a/1";
                 files.Headers := {[ "x a" := "1"; "X A" := "2" ]};
                 files.ContentType := "image/png"; files.Size := 3 |} in
  let req := upload_request info "abc" (fun _ => [("x a", "1"); ("X A", "2")]) in
  http.Header_Get (http.Header req) "x a" = "1"
  /\ http.Header_Get (http.Header req) "X A" = "2".
Proof. vm_compute. done. Qed.

End Headers.

(** * Further properties *)

(** ** DownloadImage: the other ways out *)

Section DownloadPaths.

Context `{Runtime}.

Lemma download_request_eq (url authHeader : string) :
  (if decide (authHeader <> "")
   then {| http.Method := "GET"; http.URL := url;
           http.Header := http.Header_Set ∅ "Authorization" authHeader;
           http.Body := None |}
   else {| http.Method := "GET"; http.URL := url;
           http.Header := ∅; http.Body := None |})
  = download_request url authHeader.
Proof. unfold download_request. by destruct (decide (authHeader <> "")). Qed.

(** The function once the request is made. *)
Lemma download_sent (url outputPath authHeader : string) (w : World) :
  url_error url = None ->
  files.DownloadImage url outputPath authHeader w
  = let w1 := {| disk := disk w; wire := wire w ++ [download_request url authHeader] |} in
    match client_Do (download_request url authHeader) with
    | inl err => (Some ("failed to download image: " +:+ err), w1)
    | inr resp =>
      if decide (http.StatusCode resp <> http.StatusOK)
      then (Some ("download failed with status: " +:+ http.Status resp), w1)
      else
        let d := os_MkdirAll (filepath_Dir outputPath) 493 (disk w) in
        match fst d with
        | Some err => (Some ("failed to create output directory: " +:+ err),
                       {| disk := snd d; wire := wire w1 |})
        | None =>
          let c := os_Create outputPath (snd d) in
          match fst c with
          | inl err => (Some ("failed to create output file: " +:+ err),
                        {| disk := snd c; wire := wire w1 |})
          | inr out =>
            let p := io_Copy out (http.RespBody resp) (snd c) in
            match fst p with
            | Some err => (Some ("failed to write image data: " +:+ err),
                           {| disk := snd p; wire := wire w1 |})
            | None => (None, {| disk := snd p; wire := wire w1 |})
            end
          end
        end
    end.
Proof.
  intros Hurl.
  unfold files.DownloadImage, try, NewRequestWithContext, pure, Do.
  rewrite Hurl. cbn -[decide]. rewrite download_request_eq.
  destruct (client_Do (download_request url authHeader)) as [err|resp]; [done|].
  destruct (decide (http.StatusCode resp <> http.StatusOK)); [done|].
  unfold MkdirAll, Create, Copy, on_disk, checked. cbn.
  destruct (os_MkdirAll (filepath_Dir outputPath) 493 (disk w)) as [[err|] fs1]; [done|].
  cbn. destruct (os_Create outputPath fs1) as [[err|out] fs2]; [done|].
  cbn. by destruct (io_Copy out (http.RespBody resp) fs2) as [[err|] fs3].
Qed.

(** X1.  A URL that does not parse: the error of the request, and nothing else
    happens; no request is sent, the filesystem is not called. *)
Theorem download_rejects_url (url outputPath authHeader : string) (w : World) (err : string) :
  url_error url = Some err ->
  files.DownloadImage url outputPath authHeader w
  = (Some ("failed to create request: " +:+ err), w).
Proof.
  intros Hurl. unfold files.DownloadImage, try, NewRequestWithContext, pure.
  by rewrite Hurl.
Qed.

(** X2.  The transport fails (no response): the error of the transport, the
    filesystem as it was. *)
Theorem download_transport_error (url outputPath authHeader : string) (w : World)
    (err : string) :
  url_error url = None ->
  client_Do (download_request url authHeader) = inl err ->
  files.DownloadImage url outputPath authHeader w
  = (Some ("failed to download image: " +:+ err),
     {| disk := disk w; wire := wire w ++ [download_request url authHeader] |}).
Proof. intros Hurl Hdo. rewrite download_sent by done. by rewrite Hdo. Qed.

(** X3.  The status 200: the directory of the output path is made with the mode
    0755, then the file is created, then the body is copied into it, in
    that order; when the three calls succeed the result is [nil]. *)
Theorem download_saves_body (url outputPath authHeader : string) (w : World)
    (resp : http.Response) (fs1 fs2 fs3 : FS) (out : File) :
  url_error url = None ->
  client_Do (download_request url authHeader) = inr resp ->
  http.StatusCode resp = 200 ->
  os_MkdirAll (filepath_Dir outputPath) 493 (disk w) = (None, fs1) ->
  os_Create outputPath fs1 = (inr out, fs2) ->
  io_Copy out (http.RespBody resp) fs2 = (None, fs3) ->
  files.DownloadImage url outputPath authHeader w
  = (None, {| disk := fs3; wire := wire w ++ [download_request url authHeader] |}).
Proof.
  intros Hurl Hdo Hst Hmk Hcr Hcp. rewrite download_sent by done. rewrite Hdo.
  destruct (decide (http.StatusCode resp <> http.StatusOK)) as [Hn|_]; [by destruct Hn|].
  cbn zeta. rewrite Hmk. cbn [fst snd]. rewrite Hcr. cbn [fst snd]. by rewrite Hcp.
Qed.

(** X4.  The directory cannot be made: the error says so and no file is
    created. *)
Theorem download_mkdir_fails (url outputPath authHeader : string) (w : World)
    (resp : http.Response) (fs1 : FS) (err : string) :
  url_error url = None ->
  client_Do (download_request url authHeader) = inr resp ->
  http.StatusCode resp = 200 ->
  os_MkdirAll (filepath_Dir outputPath) 493 (disk w) = (Some err, fs1) ->
  files.DownloadImage url outputPath authHeader w
  = (Some ("failed to create output directory: " +:+ err),
     {| disk := fs1; wire := wire w ++ [download_request url authHeader] |}).
Proof.
  intros Hurl Hdo Hst Hmk. rewrite download_sent by done. rewrite Hdo.
  destruct (decide (http.StatusCode resp <> http.StatusOK)) as [Hn|_]; [by destruct Hn|].
  cbn zeta. by rewrite Hmk.
Qed.

(** X5.  The file cannot be created: the error says so; the directory made
    before stays, nothing is copied. *)
Theorem download_create_fails (url outputPath authHeader : string) (w : World)
    (resp : http.Response) (fs1 fs2 : FS) (err : string) :
  url_error url = None ->
  client_Do (download_request url authHeader) = inr resp ->
  http.StatusCode resp = 200 ->
  os_MkdirAll (filepath_Dir outputPath) 493 (disk w) = (None, fs1) ->
  os_Create outputPath fs1 = (inl err, fs2) ->
  files.DownloadImage url outputPath authHeader w
  = (Some ("failed to create output file: " +:+ err),
     {| disk := fs2; wire := wire w ++ [download_request url authHeader] |}).
Proof.
  intros Hurl Hdo Hst Hmk Hcr. rewrite download_sent by done. rewrite Hdo.
  destruct (decide (http.StatusCode resp <> http.StatusOK)) as [Hn|_]; [by destruct Hn|].
  cbn zeta. rewrite Hmk. cbn [fst snd]. by rewrite Hcr.
Qed.

(** X6.  The copy of the body fails: the error says so, and the file stays as
    the copy left it; it is not removed. *)
Theorem download_copy_fails (url outputPath authHeader : string) (w : World)
    (resp : http.Response) (fs1 fs2 fs3 : FS) (out : File) (err : string) :
  url_error url = None ->
  client_Do (download_request url authHeader) = inr resp ->
  http.StatusCode resp = 200 ->
  os_MkdirAll (filepath_Dir outputPath) 493 (disk w) = (None, fs1) ->
  os_Create outputPath fs1 = (inr out, fs2) ->
  io_Copy out (http.RespBody resp) fs2 = (Some err, fs3) ->
  files.DownloadImage url outputPath authHeader w
  = (Some ("failed to write image data: " +:+ err),
     {| disk := fs3; wire := wire w ++ [download_request url authHeader] |}).
Proof.
  intros Hurl Hdo Hst Hmk Hcr Hcp. rewrite download_sent by done. rewrite Hdo.
  destruct (decide (http.StatusCode resp <> http.StatusOK)) as [Hn|_]; [by destruct Hn|].
  cbn zeta. rewrite Hmk. cbn [fst snd]. rewrite Hcr. cbn [fst snd]. by rewrite Hcp.
Qed.

(** X7.  Whatever the outcome, a URL that parses has exactly one request sent:
    a GET of the URL without body, with the single header [Authorization]
    when [authHeader] is not empty and with no header at all when it is. *)
Theorem download_sends_one_get (url outputPath authHeader : string) (w : World) :
  url_error url = None ->
  exists req,
    wire (snd (files.DownloadImage url outputPath authHeader w)) = wire w ++ [req]
    /\ http.Method req = "GET" /\ http.URL req = url /\ http.Body req = None
    /\ (authHeader = "" -> http.Header req = ∅)
    /\ (authHeader <> "" -> http.Header req = {[ "Authorization" := [authHeader] ]}).
Proof.
  intros Hurl. exists (download_request url authHeader). split_and!; try done.
  - rewrite download_sent by done. cbn zeta.
    destruct (client_Do (download_request url authHeader)) as [err|resp]; [done|].
    destruct (decide (http.StatusCode resp <> http.StatusOK)); [done|].
    destruct (fst (os_MkdirAll _ _ _)); [done|].
    destruct (fst (os_Create _ _)); [done|].
    by destruct (fst (io_Copy _ _ _)).
  - intros ->. unfold download_request. by destruct (decide ("" <> "")).
  - intros Hne. unfold download_request.
    destruct (decide (authHeader <> "")); [|done]. cbn [http.Header].
    unfold http.Header_Set. change (http.CanonicalMIMEHeaderKey "Authorization")
      with "Authorization". apply insert_empty.
Qed.

(** X8.  The result is [nil] exactly when every step succeeded: the URL parses,
    the server answers 200, the directory is made, the file is created and
    the body is copied to its end. *)
Theorem download_nil_iff (url outputPath authHeader : string) (w : World) :
  fst (files.DownloadImage url outputPath authHeader w) = None
  <-> url_error url = None
      /\ exists resp,
           client_Do (download_request url authHeader) = inr resp
           /\ http.StatusCode resp = 200
           /\ exists fs1 out fs2 fs3,
                os_MkdirAll (filepath_Dir outputPath) 493 (disk w) = (None, fs1)
                /\ os_Create outputPath fs1 = (inr out, fs2)
                /\ io_Copy out (http.RespBody resp) fs2 = (None, fs3).
Proof.
  destruct (url_error url) as [err|] eqn:Hurl.
  - unfold files.DownloadImage, try, NewRequestWithContext, pure. rewrite Hurl.
    split; [done|]. by intros [? _].
  - rewrite download_sent by done. cbn zeta.
    destruct (client_Do (download_request url authHeader)) as [err|resp].
    { split; [done|]. by intros (_ & resp & ? & _). }
    destruct (decide (http.StatusCode resp <> http.StatusOK)) as [Hn|Hst].
    { split; [done|]. intros (_ & resp' & [= <-] & Hst & _). by destruct Hn. }
    assert (Hst' : http.StatusCode resp = 200).
    { unfold http.StatusOK in Hst. destruct (decide (http.StatusCode resp = 200)); [done|].
      by destruct Hst. }
    destruct (os_MkdirAll (filepath_Dir outputPath) 493 (disk w)) as [[err|] fs1] eqn:Hmk.
    { split; [done|]. by intros (_ & resp' & _ & _ & fs1' & out & fs2 & fs3 & [=] & _). }
    cbn [fst snd]. destruct (os_Create outputPath fs1) as [[err|out] fs2] eqn:Hcr.
    { split; [done|].
      intros (_ & resp' & _ & _ & fs1' & out & fs2' & fs3 & [= <-] & Hcr' & _).
      rewrite Hcr in Hcr'. done. }
    cbn [fst snd]. destruct (io_Copy out (http.RespBody resp) fs2) as [[err|] fs3] eqn:Hcp.
    { split; [done|].
      intros (_ & resp' & [= <-] & _ & fs1' & out' & fs2' & fs3' & [= <-] & Hcr' & Hcp').
      rewrite Hcr in Hcr'. injection Hcr' as <- <-. rewrite Hcp in Hcp'. done. }
    split; [|done]. intros _. split; [done|]. exists resp. split_and!; [done..|].
    by exists fs1, out, fs2, fs3.
Qed.

End DownloadPaths.

Lemma download_rejects_url_witness :
  let R := sim.readonly (inr sim.not_found) in
  let w := {| disk := sim.one_file "out/a.png" "old bytes"; wire := [] |} in
  url_error "://x" = Some "parse ://x: missing protocol scheme"
  /\ files.DownloadImage "://x" "out/a.png" "" w
     = (Some "failed to create request: parse ://x: missing protocol scheme", w).
Proof.
  intros R w.
  assert (H1 : url_error "://x" = Some "parse ://x: missing protocol scheme") by reflexivity.
  split; [exact H1|].
  exact (download_rejects_url "://x" "out/a.png" "" w _ H1).
Defined.

Lemma download_transport_error_witness :
  let R := sim.platform (inl "dial tcp: no route to host") in
  let w := {| disk := sim.one_file "out/a.png" "old bytes"; wire := [] |} in
  (url_error "https://x/a.png" = None
   /\ client_Do (download_request "https://x/a.png" "") = inl "dial tcp: no route to host")
  /\ files.DownloadImage "https://x/a.png" "out/a.png" "" w
     = (Some "failed to download image: dial tcp: no route to host",
        {| disk := disk w; wire := [download_request "https://x/a.png" ""] |}).
Proof.
  intros R w.
  assert (H1 : url_error "https://x/a.png" = None) by reflexivity.
  assert (H2 : client_Do (download_request "https://x/a.png" "")
               = inl "dial tcp: no route to host") by reflexivity.
  split; [done|].
  exact (download_transport_error "https://x/a.png" "out/a.png" "" w _ H1 H2).
Defined.

Lemma download_saves_body_witness :
  let R := sim.platform (inr (sim.response 200 "200 OK" "new bytes")) in
  let w := {| disk := sim.one_file "out/a.png" "old bytes"; wire := [] |} in
  let fs1 := {| sim.dirs := ["out/a.png"]; sim.contents := {[ "out/a.png" := "old bytes" ]} |} in
  let fs2 := {| sim.dirs := ["out/a.png"];
                sim.contents := <["out/a.png" := ""]> {[ "out/a.png" := "old bytes" ]} |} in
  let fs3 := {| sim.dirs := ["out/a.png"];
                sim.contents := <["out/a.png" := "new bytes"]>
                                  (<["out/a.png" := ""]> {[ "out/a.png" := "old bytes" ]}) |} in
  (url_error "https://x/a.png" = None
   /\ client_Do (download_request "https://x/a.png" "tok")
      = inr (sim.response 200 "200 OK" "new bytes")
   /\ http.StatusCode (sim.response 200 "200 OK" "new bytes") = 200
   /\ os_MkdirAll (filepath_Dir "out/a.png") 493 (disk w) = (None, fs1)
   /\ os_Create "out/a.png" fs1 = (inr "out/a.png", fs2)
   /\ io_Copy "out/a.png" (http.RespBody (sim.response 200 "200 OK" "new bytes")) fs2
      = (None, fs3))
  /\ files.DownloadImage "https://x/a.png" "out/a.png" "tok" w
     = (None, {| disk := fs3; wire := [download_request "https://x/a.png" "tok"] |}).
Proof.
  intros R w fs1 fs2 fs3.
  split; [by split_and!|].
  exact (download_saves_body "https://x/a.png" "out/a.png" "tok" w
           (sim.response 200 "200 OK" "new bytes") fs1 fs2 fs3 "out/a.png"
           eq_refl eq_refl eq_refl eq_refl eq_refl eq_refl).
Defined.

Lemma download_mkdir_fails_witness :
  let R := sim.readonly (inr (sim.response 200 "200 OK" "new bytes")) in
  let w := {| disk := sim.one_file "a.png" "old bytes"; wire := [] |} in
  (url_error "https://x/a.png" = None
   /\ client_Do (download_request "https://x/a.png" "")
      = inr (sim.response 200 "200 OK" "new bytes")
   /\ http.StatusCode (sim.response 200 "200 OK" "new bytes") = 200
   /\ os_MkdirAll (filepath_Dir "out") 493 (disk w)
      = (Some "mkdir out: read-only file system", disk w))
  /\ files.DownloadImage "https://x/a.png" "out" "" w
     = (Some "failed to create output directory: mkdir out: read-only file system",
        {| disk := disk w; wire := [download_request "https://x/a.png" ""] |}).
Proof.
  intros R w.
  split; [by split_and!|].
  exact (download_mkdir_fails "https://x/a.png" "out" "" w
           (sim.response 200 "200 OK" "new bytes") (disk w) _
           eq_refl eq_refl eq_refl eq_refl).
Defined.

Lemma download_create_fails_witness :
  let R := sim.readonly (inr (sim.response 200 "200 OK" "new bytes")) in
  let w := {| disk := {| sim.dirs := ["out"]; sim.contents := ∅ |}; wire := [] |} in
  (url_error "https://x/a.png" = None
   /\ client_Do (download_request "https://x/a.png" "")
      = inr (sim.response 200 "200 OK" "new bytes")
   /\ http.StatusCode (sim.response 200 "200 OK" "new bytes") = 200
   /\ os_MkdirAll (filepath_Dir "out") 493 (disk w) = (None, disk w)
   /\ os_Create "out" (disk w) = (inl "open out: read-only file system", disk w))
  /\ files.DownloadImage "https://x/a.png" "out" "" w
     = (Some "failed to create output file: open out: read-only file system",
        {| disk := disk w; wire := [download_request "https://x/a.png" ""] |}).
Proof.
  intros R w.
  split; [by split_and!|].
  exact (download_create_fails "https://x/a.png" "out" "" w
           (sim.response 200 "200 OK" "new bytes") (disk w) (disk w) _
           eq_refl eq_refl eq_refl eq_refl eq_refl).
Defined.

Lemma download_copy_fails_witness :
  let cut := {| http.Status := "200 OK"; http.StatusCode := 200;
                http.RespBody := {| http.delivered := "new";
                                    http.broken := Some "unexpected EOF" |} |} in
  let R := sim.platform (inr cut) in
  let w := {| disk := sim.one_file "a.png" "old bytes"; wire := [] |} in
  let fs1 := {| sim.dirs := ["a.png"]; sim.contents := {[ "a.png" := "old bytes" ]} |} in
  let fs2 := {| sim.dirs := ["a.png"];
                sim.contents := <["a.png" := ""]> {[ "a.png" := "old bytes" ]} |} in
  let fs3 := {| sim.dirs := ["a.png"];
                sim.contents := <["a.png" := "new"]>
                                  (<["a.png" := ""]> {[ "a.png" := "old bytes" ]}) |} in
  (url_error "https://x/a.png" = None
   /\ client_Do (download_request "https://x/a.png" "") = inr cut
   /\ http.StatusCode cut = 200
   /\ os_MkdirAll (filepath_Dir "a.png") 493 (disk w) = (None, fs1)
   /\ os_Create "a.png" fs1 = (inr "a.png", fs2)
   /\ io_Copy "a.png" (http.RespBody cut) fs2 = (Some "unexpected EOF", fs3))
  /\ files.DownloadImage "https://x/a.png" "a.png" "" w
     = (Some "failed to write image data: unexpected EOF",
        {| disk := fs3; wire := [download_request "https://x/a.png" ""] |}).
Proof.
  intros cut R w fs1 fs2 fs3.
  split; [by split_and!|].
  exact (download_copy_fails "https://x/a.png" "a.png" "" w cut fs1 fs2 fs3 "a.png" _
           eq_refl eq_refl eq_refl eq_refl eq_refl eq_refl).
Defined.

Lemma download_sends_one_get_witness :
  let R := sim.platform (inr sim.not_found) in
  let w := {| disk := sim.one_file "a.png" "old bytes"; wire := [] |} in
  url_error "https://x/a.png" = None
  /\ exists req,
       wire (snd (files.DownloadImage "https://x/a.png" "a.png" "tok" w)) = wire w ++ [req]
       /\ http.Method req = "GET" /\ http.URL req = "https://x/a.png"
       /\ http.Body req = None
       /\ ("tok" = "" -> http.Header req = ∅)
       /\ ("tok" <> "" -> http.Header req = {[ "Authorization" := ["tok"] ]}).
Proof.
  intros R w.
  assert (H1 : url_error "https://x/a.png" = None) by reflexivity.
  split; [exact H1|].
  exact (download_sends_one_get "https://x/a.png" "a.png" "tok" w H1).
Defined.

(** ** UploadToPresignedURL: errors, effects and headers *)

Section UploadPaths.

Context `{Runtime}.

(** The function, case by case. *)
Lemma upload_cases (info : files.UploadFileInfo) (fileContent : string)
    (pick : gmap string string -> list (string * string)) (w : World) :
  files.UploadToPresignedURL info fileContent pick w
  = match url_error (files.UploadURL info) with
    | Some err => (Some ("failed to create upload request: " +:+ err), w)
    | None =>
      let w1 := {| disk := disk w;
                   wire := wire w ++ [upload_request info fileContent pick] |} in
      match client_Do (upload_request info fileContent pick) with
      | inl err => (Some ("failed to upload file: " +:+ err), w1)
      | inr resp =>
        (if decide (http.StatusCode resp <> http.StatusOK /\
                    http.StatusCode resp <> http.StatusNoContent)
         then Some ("upload failed with status " +:+ http.Status resp +:+ ": "
                    +:+ http.delivered (http.RespBody resp))
         else None, w1)
      end
    end.
Proof.
  unfold files.UploadToPresignedURL, try, NewRequestWithContext, pure, Do.
  destruct (url_error (files.UploadURL info)) as [err|]; [done|].
  cbn -[decide files.with_headers].
  fold (upload_request info fileContent pick).
  destruct (client_Do (upload_request info fileContent pick)) as [err|resp]; [done|].
  by destruct (decide _).
Qed.

(** X9.  A URL that does not parse: the error of the request; nothing is sent. *)
Theorem upload_rejects_url (info : files.UploadFileInfo) (fileContent : string)
    (pick : gmap string string -> list (string * string)) (w : World) (err : string) :
  url_error (files.UploadURL info) = Some err ->
  files.UploadToPresignedURL info fileContent pick w
  = (Some ("failed to create upload request: " +:+ err), w).
Proof. intros Hurl. by rewrite upload_cases, Hurl. Qed.

(** X10.  The transport fails (no response): the error of the transport. *)
Theorem upload_transport_error (info : files.UploadFileInfo) (fileContent : string)
    (pick : gmap string string -> list (string * string)) (w : World) (err : string) :
  url_error (files.UploadURL info) = None ->
  client_Do (upload_request info fileContent pick) = inl err ->
  files.UploadToPresignedURL info fileContent pick w
  = (Some ("failed to upload file: " +:+ err),
     {| disk := disk w; wire := wire w ++ [upload_request info fileContent pick] |}).
Proof. intros Hurl Hdo. rewrite upload_cases, Hurl. cbn zeta. by rewrite Hdo. Qed.

(** X11.  An upload never calls the filesystem, and sends one request at most:
    none for a URL that does not parse, else the PUT request. *)
Theorem upload_leaves_disk (info : files.UploadFileInfo) (fileContent : string)
    (pick : gmap string string -> list (string * string)) (w : World) :
  disk (snd (files.UploadToPresignedURL info fileContent pick w)) = disk w
  /\ (url_error (files.UploadURL info) <> None ->
      wire (snd (files.UploadToPresignedURL info fileContent pick w)) = wire w)
  /\ (url_error (files.UploadURL info) = None ->
      wire (snd (files.UploadToPresignedURL info fileContent pick w))
      = wire w ++ [upload_request info fileContent pick]).
Proof.
  rewrite upload_cases.
  destruct (url_error (files.UploadURL info)) as [err|]; [by split_and!|].
  cbn zeta.
  destruct (client_Do (upload_request info fileContent pick)) as [err|resp];
    by split_and!.
Qed.

End UploadPaths.

Lemma upload_rejects_url_witness :
  let R := sim.readonly (inr sim.not_found) in
  let info := {| files.UploadURL := ":bucket"; files.AssetURL := "https://a/1";
                 files.Headers := ∅; files.ContentType := "image/png";
                 files.Size := 3 |} in
  let w := {| disk := sim.one_file "a.png" "abc"; wire := [] |} in
  url_error (files.UploadURL info) = Some "parse :bucket: missing protocol scheme"
  /\ files.UploadToPresignedURL info "abc" map_to_list w
     = (Some "failed to create upload request: parse :bucket: missing protocol scheme", w).
Proof.
  intros R info w.
  assert (H1 : url_error (files.UploadURL info)
               = Some "parse :bucket: missing protocol scheme") by reflexivity.
  split; [exact H1|].
  exact (upload_rejects_url info "abc" map_to_list w _ H1).
Defined.

Lemma upload_transport_error_witness :
  let R := sim.platform (inl "dial tcp: no route to host") in
  let info := {| files.UploadURL := "https://bucket/put"; files.AssetURL := "https://a/1";
                 files.Headers := ∅; files.ContentType := "image/png";
                 files.Size := 3 |} in
  let w := {| disk := sim.one_file "a.png" "abc"; wire := [] |} in
  (url_error (files.UploadURL info) = None
   /\ client_Do (upload_request info "abc" map_to_list) = inl "dial tcp: no route to host")
  /\ fst (files.UploadToPresignedURL info "abc" map_to_list w)
     = Some "failed to upload file: dial tcp: no route to host".
Proof.
  intros R info w.
  assert (H1 : url_error (files.UploadURL info) = None) by reflexivity.
  assert (H2 : client_Do (upload_request info "abc" map_to_list)
               = inl "dial tcp: no route to host") by reflexivity.
  split; [done|].
  exact (f_equal fst (upload_transport_error info "abc" map_to_list w _ H1 H2)).
Defined.

Section HeaderSet.

Local Abbreviation canon := http.CanonicalMIMEHeaderKey.
Local Abbreviation sets := (fold_left (fun (h : gmap string (list string)) (kv : string * string) =>
                        http.Header_Set h (fst kv) (snd kv))).

(** What a sequence of [Set] leaves under a name: a value set, or what was
    there. *)
Lemma sets_lookup (order : list (string * string)) (h : gmap string (list string))
    (K : string) (vs : list string) :
  sets order h !! K = Some vs ->
  h !! K = Some vs \/ exists k v, In (k, v) order /\ K = canon k /\ vs = [v].
Proof.
  revert h. induction order as [|[k v] order IH]; intros h Hl; [by left|].
  cbn [fold_left] in Hl. apply IH in Hl as [Hl|(k' & v' & Hin & -> & ->)].
  - unfold http.Header_Set in Hl. cbn [fst snd] in Hl.
    destruct (decide (canon k = K)) as [<-|Hne].
    + rewrite lookup_insert_eq in Hl. injection Hl as <-.
      right. exists k, v. split_and!; [by left|done..].
    + rewrite lookup_insert_ne in Hl by done. by left.
  - right. exists k', v'. split_and!; [by right|done..].
Qed.

(** The two defaults, before the entries of the target are set. *)
Lemma defaults_lookup (contentType : string) (K : string) (vs : list string) :
  http.Header_Set (http.Header_Set ∅ "Content-Type" contentType)
                  "Cache-Control" "public, max-age=31536000" !! K = Some vs ->
  (K = "Content-Type" /\ vs = [contentType])
  \/ (K = "Cache-Control" /\ vs = ["public, max-age=31536000"]).
Proof.
  unfold http.Header_Set.
  change (canon "Content-Type") with "Content-Type".
  change (canon "Cache-Control") with "Cache-Control".
  intros Hl. apply lookup_insert_Some in Hl as [[<- <-]|[_ Hl]]; [by right|].
  apply lookup_insert_Some in Hl as [[<- <-]|[_ Hl]]; [by left|].
  by rewrite lookup_empty in Hl.
Qed.

(** X12.  Every header of the upload request is one of the two defaults or an
    entry of [info.Headers], filed under its canonical name with a single
    value: nothing else is sent, and no header has two values. *)
Theorem upload_sends_known_headers (info : files.UploadFileInfo) (fileContent : string)
    (pick : gmap string string -> list (string * string)) (K : string) (vs : list string) :
  files.visits (pick (files.Headers info)) (files.Headers info) ->
  http.Header (upload_request info fileContent pick) !! K = Some vs ->
  (K = "Content-Type" /\ vs = [files.ContentType info])
  \/ (K = "Cache-Control" /\ vs = ["public, max-age=31536000"])
  \/ (exists k v, files.Headers info !! k = Some v /\ K = canon k /\ vs = [v]).
Proof.
  intros Hvisits Hl. unfold upload_request, files.with_headers in Hl.
  cbn [http.Header] in Hl.
  apply sets_lookup in Hl as [Hl|(k & v & Hin & -> & ->)].
  - apply defaults_lookup in Hl as [?|?]; [by left|by right; left].
  - right; right. exists k, v. split_and!; [|done..].
    by apply (visits_entry (pick (files.Headers info)) (files.Headers info)).
Qed.

(** X13.  A target without headers of its own: the request carries the two
    defaults and nothing else. *)
Theorem upload_default_headers (info : files.UploadFileInfo) (fileContent : string)
    (pick : gmap string string -> list (string * string)) :
  files.visits (pick (files.Headers info)) (files.Headers info) ->
  files.Headers info = ∅ ->
  http.Header (upload_request info fileContent pick)
  = {[ "Content-Type" := [files.ContentType info];
       "Cache-Control" := ["public, max-age=31536000"] ]}.
Proof.
  intros Hvisits Hempty. unfold files.visits in Hvisits.
  rewrite Hempty, map_to_list_empty in Hvisits.
  apply Permutation_nil_r in Hvisits.
  unfold upload_request, files.with_headers. cbn [http.Header].
  rewrite Hempty, Hvisits. cbn [fold_left]. unfold http.Header_Set.
  change (canon "Content-Type") with "Content-Type".
  change (canon "Cache-Control") with "Cache-Control".
  rewrite insert_empty. apply insert_insert_ne. done.
Qed.

(** X14.  The order in which the map of headers is visited does not show in the
    request, provided that entries whose names differ only in letter case
    (if there are any) carry the same value. *)
Theorem upload_order_independent (info : files.UploadFileInfo) (fileContent : string)
    (pick1 pick2 : gmap string string -> list (string * string)) :
  files.visits (pick1 (files.Headers info)) (files.Headers info) ->
  files.visits (pick2 (files.Headers info)) (files.Headers info) ->
  (forall k1 v1 k2 v2, files.Headers info !! k1 = Some v1 ->
                       files.Headers info !! k2 = Some v2 ->
                       canon k1 = canon k2 -> v1 = v2) ->
  upload_request info fileContent pick1 = upload_request info fileContent pick2.
Proof.
  intros Hv1 Hv2 Hsame. unfold upload_request, files.with_headers.
  cbn [http.Method http.URL http.Body http.Header]. f_equal.
  set (h := http.Header_Set _ "Cache-Control" _).
  apply map_eq. intros K.
  assert (Hcase : forall pick, files.visits (pick (files.Headers info)) (files.Headers info) ->
            (exists k v, files.Headers info !! k = Some v /\ canon k = K
                         /\ sets (pick (files.Headers info)) h !! K = Some [v])
            \/ ((forall k v, files.Headers info !! k = Some v -> canon k <> K)
                /\ sets (pick (files.Headers info)) h !! K = h !! K)).
  { intros pick Hv.
    destruct (decide (Exists (fun kv => canon (fst kv) = K) (pick (files.Headers info))))
      as [Hex|Hno].
    - left. apply Exists_exists in Hex as ([k v] & Hin & Hk). cbn [fst] in Hk.
      apply list_elem_of_In in Hin.
      exists k, v. split_and!; [by apply (visits_entry _ _ k v Hv)|done|].
      rewrite <- Hk. apply overlay_entry; [done|].
      intros [k' v'] Hin' Hc. cbn [fst snd] in *.
      apply (Hsame k' v' k v); [by apply (visits_entry _ _ k' v' Hv)| |done].
      by apply (visits_entry _ _ k v Hv).
    - right. rewrite <- Forall_Exists_neg, Forall_forall in Hno. split.
      + intros k v Hk. apply (visits_entry _ _ k v Hv) in Hk.
        apply list_elem_of_In in Hk. apply (Hno _ Hk).
      + apply overlay_untouched. intros kv Hin. apply Hno. by apply list_elem_of_In. }
  destruct (Hcase pick1 Hv1) as [(k1 & v1 & Hk1 & Hc1 & ->)|[Hno1 ->]];
    destruct (Hcase pick2 Hv2) as [(k2 & v2 & Hk2 & Hc2 & ->)|[Hno2 ->]].
  - f_equal. f_equal. apply (Hsame k1 v1 k2 v2); [done..|]. by rewrite Hc1, Hc2.
  - by destruct (Hno2 k1 v1 Hk1).
  - by destruct (Hno1 k2 v2 Hk2).
  - done.
Qed.

End HeaderSet.

Lemma upload_sends_known_headers_witness :
  let info := {| files.UploadURL := "https://bucket/put"; files.AssetURL := "https://a/1";
                 files.Headers := {[ "x-amz-acl" := "public-read" ]};
                 files.ContentType := "image/png"; files.Size := 3 |} in
  (files.visits (map_to_list (files.Headers info)) (files.Headers info)
   /\ http.Header (upload_request info "abc" map_to_list) !! "X-Amz-Acl"
      = Some ["public-read"])
  /\ exists k v, files.Headers info !! k = Some v
                 /\ "X-Amz-Acl" = http.CanonicalMIMEHeaderKey k /\ ["public-read"] = [v].
Proof.
  intros info.
  assert (Hv : files.visits (map_to_list (files.Headers info)) (files.Headers info)).
  { unfold files.visits. reflexivity. }
  assert (Hl : http.Header (upload_request info "abc" map_to_list) !! "X-Amz-Acl"
               = Some ["public-read"]).
  { unfold upload_request, files.with_headers, info. cbn [files.Headers http.Header].
    rewrite map_to_list_singleton. cbn [fold_left fst snd]. unfold http.Header_Set at 1.
    change (http.CanonicalMIMEHeaderKey "x-amz-acl") with "X-Amz-Acl".
    apply lookup_insert_eq. }
  split; [exact (conj Hv Hl)|].
  destruct (upload_sends_known_headers info "abc" map_to_list _ _ Hv Hl)
    as [[Hk _]|[[Hk _]|Hentry]]; [discriminate Hk|discriminate Hk|exact Hentry].
Defined.

Lemma upload_default_headers_witness :
  let info := {| files.UploadURL := "https://bucket/put"; files.AssetURL := "https://a/1";
                 files.Headers := ∅; files.ContentType := "image/png";
                 files.Size := 3 |} in
  (files.visits (map_to_list (files.Headers info)) (files.Headers info)
   /\ files.Headers info = ∅)
  /\ http.Header (upload_request info "abc" map_to_list)
     = {[ "Content-Type" := ["image/png"];
          "Cache-Control" := ["public, max-age=31536000"] ]}.
Proof.
  intros info.
  assert (Hv : files.visits (map_to_list (files.Headers info)) (files.Headers info)).
  { unfold files.visits. reflexivity. }
  split; [exact (conj Hv eq_refl)|].
  exact (upload_default_headers info "abc" map_to_list Hv eq_refl).
Defined.

Lemma upload_order_independent_witness :
  let acl := ("x-amz-acl", "public-read") in
  let date := ("x-amz-date", "20240101T000000Z") in
  let info := {| files.UploadURL := "https://bucket/put"; files.AssetURL := "https://a/1";
                 files.Headers := {[ "x-amz-acl" := "public-read";
                                     "x-amz-date" := "20240101T000000Z" ]};
                 files.ContentType := "image/png"; files.Size := 3 |} in
  (files.visits [acl; date] (files.Headers info)
   /\ files.visits [date; acl] (files.Headers info)
   /\ [acl; date] <> [date; acl])
  /\ upload_request info "abc" (fun _ => [acl; date])
     = upload_request info "abc" (fun _ => [date; acl]).
Proof.
  intros acl date info.
  assert (Hv1 : files.visits [acl; date] (files.Headers info)).
  { unfold files.visits, info. cbn [files.Headers].
    rewrite map_to_list_insert by done. by rewrite map_to_list_singleton. }
  assert (Hv2 : files.visits [date; acl] (files.Headers info)).
  { unfold files.visits. rewrite <- Hv1. apply perm_swap. }
  split; [split_and!; [exact Hv1|exact Hv2|discriminate]|].
  apply (upload_order_independent info "abc" (fun _ => [acl; date]) (fun _ => [date; acl])
           Hv1 Hv2).
  intros k1 v1 k2 v2 H1 H2 Hc. unfold info in H1, H2. cbn [files.Headers] in H1, H2.
  apply lookup_insert_Some in H1 as [[<- <-]|[_ [<- <-]%lookup_singleton_Some]];
    apply lookup_insert_Some in H2 as [[<- <-]|[_ [<- <-]%lookup_singleton_Some]];
    solve [reflexivity | vm_compute in Hc; discriminate Hc].
Defined.

(** ** UploadFileToLinear, step by step *)

Section ApiPaths.

Context `{Runtime}.

Lemma get_file_info_ok (filePath : string) (w : World) (info : os.FileInfo) :
  os_Stat filePath (disk w) = inr info ->
  files.GetFileInfo filePath w
  = ((os.Size info,
      content_type_for (strings.ToLower lower_unicode (filepath.Ext filePath)), None), w).
Proof. intros Hstat. unfold files.GetFileInfo. by rewrite Hstat, switch_is_table. Qed.

(** The function once the file is read and the grant obtained. *)
Lemma upload_file_granted (c : api.Client) (filePath : string)
    (pick : gmap string string -> list (string * string)) (w w2 : World)
    (info : os.FileInfo) (data : string) (grant : api.UploadFile) :
  os_Stat filePath (disk w) = inr info ->
  os_ReadFile filePath (disk w) = inr data ->
  api.FileUpload c (filepath_Base filePath) (os.Size info)
    (content_type_for (strings.ToLower lower_unicode (filepath.Ext filePath))) w
  = (inr grant, w2) ->
  api.UploadFileToLinear c filePath pick w
  = let r := files.UploadToPresignedURL (target_of grant (os.Size info)) data pick w2 in
    (match fst r with
     | Some err => ("", Some ("failed to upload file: " +:+ err))
     | None => (api.AssetURL grant, None)
     end, snd r).
Proof.
  intros Hstat Hread Hgrant. unfold api.UploadFileToLinear.
  rewrite (get_file_info_ok _ _ _ Hstat). unfold files.ReadFile. rewrite Hread, Hgrant.
  fold (target_of grant (os.Size info)). cbn zeta.
  by destruct (files.UploadToPresignedURL _ data pick w2) as [[err|] w3].
Qed.

(** X15.  The file cannot be examined: the error says so, twice wrapped, and
    nothing else is done, whatever the client: no grant is asked for,
    nothing is sent. *)
Theorem upload_file_stat_error (c : api.Client) (filePath : string)
    (pick : gmap string string -> list (string * string)) (w : World) (err : string) :
  os_Stat filePath (disk w) = inl err ->
  api.UploadFileToLinear c filePath pick w
  = (("", Some ("failed to get file info: failed to stat file: " +:+ err)), w).
Proof.
  intros Hstat. unfold api.UploadFileToLinear, files.GetFileInfo. by rewrite Hstat.
Qed.

(** X16.  The file cannot be read: the error names the path, and no grant is
    asked for. *)
Theorem upload_file_read_error (c : api.Client) (filePath : string)
    (pick : gmap string string -> list (string * string)) (w : World)
    (info : os.FileInfo) (err : string) :
  os_Stat filePath (disk w) = inr info ->
  os_ReadFile filePath (disk w) = inl err ->
  api.UploadFileToLinear c filePath pick w
  = (("", Some ("failed to read file: failed to read file " +:+ filePath +:+ ": " +:+ err)),
     w).
Proof.
  intros Hstat Hread. unfold api.UploadFileToLinear.
  rewrite (get_file_info_ok _ _ _ Hstat). unfold files.ReadFile. by rewrite Hread.
Qed.

(** X17.  [c.FileUpload] is called with the base name of the path, the size the
    filesystem reports and the content type of the extension; when it fails
    the error says so and no upload is attempted: the world is as
    [c.FileUpload] left it. *)
Theorem upload_file_grant_error (c : api.Client) (filePath : string)
    (pick : gmap string string -> list (string * string)) (w w2 : World)
    (info : os.FileInfo) (data err : string) :
  os_Stat filePath (disk w) = inr info ->
  os_ReadFile filePath (disk w) = inr data ->
  api.FileUpload c (filepath_Base filePath) (os.Size info)
    (content_type_for (strings.ToLower lower_unicode (filepath.Ext filePath))) w
  = (inl err, w2) ->
  api.UploadFileToLinear c filePath pick w
  = (("", Some ("failed to request upload URL: " +:+ err)), w2).
Proof.
  intros Hstat Hread Hgrant. unfold api.UploadFileToLinear.
  rewrite (get_file_info_ok _ _ _ Hstat). unfold files.ReadFile. by rewrite Hread, Hgrant.
Qed.

(** X18.  The whole way: the content read from the file is PUT to the upload URL
    of the grant, with the content type and the headers of the grant; when
    the server answers 200 or 204 the result is the asset URL of the grant,
    and the request is the only thing added to what [c.FileUpload] left. *)
Theorem upload_file_succeeds (c : api.Client) (filePath : string)
    (pick : gmap string string -> list (string * string)) (w w2 : World)
    (info : os.FileInfo) (data : string) (grant : api.UploadFile) (resp : http.Response) :
  os_Stat filePath (disk w) = inr info ->
  os_ReadFile filePath (disk w) = inr data ->
  api.FileUpload c (filepath_Base filePath) (os.Size info)
    (content_type_for (strings.ToLower lower_unicode (filepath.Ext filePath))) w
  = (inr grant, w2) ->
  url_error (api.UploadURL grant) = None ->
  client_Do (upload_request (target_of grant (os.Size info)) data pick) = inr resp ->
  http.StatusCode resp = 200 \/ http.StatusCode resp = 204 ->
  api.UploadFileToLinear c filePath pick w
  = ((api.AssetURL grant, None),
     {| disk := disk w2;
        wire := wire w2 ++ [upload_request (target_of grant (os.Size info)) data pick] |})
  /\ http.Method (upload_request (target_of grant (os.Size info)) data pick) = "PUT"
  /\ http.URL (upload_request (target_of grant (os.Size info)) data pick)
     = api.UploadURL grant
  /\ http.Body (upload_request (target_of grant (os.Size info)) data pick) = Some data.
Proof.
  intros Hstat Hread Hgrant Hurl Hdo Hst. split; [|done].
  rewrite (upload_file_granted c filePath pick w w2 info data grant) by done.
  rewrite upload_cases. cbn [files.UploadURL target_of]. rewrite Hurl. cbn zeta.
  fold (target_of grant (os.Size info)). rewrite Hdo.
  unfold http.StatusOK, http.StatusNoContent.
  destruct (decide (http.StatusCode resp <> 200 /\ http.StatusCode resp <> 204))
    as [[H1 H2]|_]; [|done].
  destruct Hst; done.
Qed.

(** X19.  The server refuses the upload: the error carries the status and the
    body of the response, and no URL is returned although the grant held
    one. *)
Theorem upload_file_refused (c : api.Client) (filePath : string)
    (pick : gmap string string -> list (string * string)) (w w2 : World)
    (info : os.FileInfo) (data : string) (grant : api.UploadFile) (resp : http.Response) :
  os_Stat filePath (disk w) = inr info ->
  os_ReadFile filePath (disk w) = inr data ->
  api.FileUpload c (filepath_Base filePath) (os.Size info)
    (content_type_for (strings.ToLower lower_unicode (filepath.Ext filePath))) w
  = (inr grant, w2) ->
  url_error (api.UploadURL grant) = None ->
  client_Do (upload_request (target_of grant (os.Size info)) data pick) = inr resp ->
  http.StatusCode resp <> 200 -> http.StatusCode resp <> 204 ->
  fst (api.UploadFileToLinear c filePath pick w)
  = ("", Some ("failed to upload file: upload failed with status " +:+ http.Status resp
               +:+ ": " +:+ http.delivered (http.RespBody resp))).
Proof.
  intros Hstat Hread Hgrant Hurl Hdo H1 H2.
  rewrite (upload_file_granted c filePath pick w w2 info data grant) by done.
  rewrite upload_cases. cbn [files.UploadURL target_of]. rewrite Hurl. cbn zeta.
  fold (target_of grant (os.Size info)). rewrite Hdo.
  unfold http.StatusOK, http.StatusNoContent.
  by destruct (decide (http.StatusCode resp <> 200 /\ http.StatusCode resp <> 204))
    as [_|[]].
Qed.

(** X20.  An error never comes with a URL: the result is the empty URL or no
    error. *)
Theorem upload_file_url_or_error (c : api.Client) (filePath : string)
    (pick : gmap string string -> list (string * string)) (w : World) :
  fst (fst (api.UploadFileToLinear c filePath pick w)) = ""
  \/ snd (fst (api.UploadFileToLinear c filePath pick w)) = None.
Proof.
  unfold api.UploadFileToLinear.
  destruct (files.GetFileInfo filePath w) as [[[size contentType] [err|]] w0]; [by left|].
  destruct (files.ReadFile filePath w0) as [[err|fileContent] w1]; [by left|].
  destruct (api.FileUpload c (filepath_Base filePath) size contentType w1)
    as [[err|grant] w2]; [by left|].
  destruct (files.UploadToPresignedURL _ fileContent _ w2) as [[err|] w3];
    [by left|by right].
Qed.

End ApiPaths.

Section GrantHeaders.

Local Abbreviation collect := (fold_left (fun (headers : gmap string string) h =>
                                <[api.Key h := api.Value h]> headers)).

Lemma collect_absent (l : list api.HeaderEntry) (m : gmap string string) (k : string) :
  (forall h, In h l -> api.Key h <> k) -> collect l m !! k = m !! k.
Proof.
  revert m. induction l as [|h l IH]; intros m Hno; [done|].
  cbn [fold_left]. rewrite IH by (intros; apply Hno; by right).
  apply lookup_insert_ne. apply Hno. by left.
Qed.

(** X21.  The list of headers of a grant becomes a map: of several entries with
    one key the last counts, and a key the list does not hold has no
    entry. *)
Theorem grant_headers_last_wins (grant : api.UploadFile) (size : Z) :
  (forall pre h post,
     api.Headers grant = pre ++ h :: post ->
     (forall h', In h' post -> api.Key h' <> api.Key h) ->
     files.Headers (target_of grant size) !! api.Key h = Some (api.Value h))
  /\ (forall k, (forall h, In h (api.Headers grant) -> api.Key h <> k) ->
                files.Headers (target_of grant size) !! k = None).
Proof.
  unfold target_of. cbn [files.Headers]. split.
  - intros pre h post -> Hlast. rewrite fold_left_app. cbn [fold_left].
    rewrite collect_absent by done. apply lookup_insert_eq.
  - intros k Hno. by rewrite collect_absent.
Qed.

End GrantHeaders.

Lemma upload_file_stat_error_witness :
  let R := sim.platform (inl "no network") in
  let c := sim.client (inl "not asked") in
  let w := {| disk := sim.one_file "a.png" "abc"; wire := [] |} in
  os_Stat "b.png" (disk w) = inl "stat b.png: no such file or directory"
  /\ api.UploadFileToLinear c "b.png" map_to_list w
     = (("", Some "failed to get file info: failed to stat file: stat b.png: no such file or directory"),
        w).
Proof.
  intros R c w.
  assert (H1 : os_Stat "b.png" (disk w) = inl "stat b.png: no such file or directory")
    by reflexivity.
  split; [exact H1|].
  exact (upload_file_stat_error c "b.png" map_to_list w _ H1).
Defined.

Lemma upload_file_read_error_witness :
  let R := sim.locked (inl "no network") in
  let c := sim.client (inl "not asked") in
  let w := {| disk := sim.one_file "a.png" "abc"; wire := [] |} in
  (os_Stat "a.png" (disk w) = inr {| os.Size := 3 |}
   /\ os_ReadFile "a.png" (disk w) = inl "open a.png: permission denied")
  /\ api.UploadFileToLinear c "a.png" map_to_list w
     = (("", Some "failed to read file: failed to read file a.png: open a.png: permission denied"),
        w).
Proof.
  intros R c w.
  assert (H1 : os_Stat "a.png" (disk w) = inr {| os.Size := 3 |}) by reflexivity.
  assert (H2 : os_ReadFile "a.png" (disk w) = inl "open a.png: permission denied")
    by reflexivity.
  split; [exact (conj H1 H2)|].
  exact (upload_file_read_error c "a.png" map_to_list w _ _ H1 H2).
Defined.

Lemma upload_file_grant_error_witness :
  let R := sim.platform (inl "no network") in
  let c := sim.client (inl "not authenticated") in
  let w := {| disk := sim.one_file "a.png" "abc"; wire := [] |} in
  (os_Stat "a.png" (disk w) = inr {| os.Size := 3 |}
   /\ os_ReadFile "a.png" (disk w) = inr "abc"
   /\ api.FileUpload c (filepath_Base "a.png") 3 "image/png" w
      = (inl "not authenticated", w))
  /\ api.UploadFileToLinear c "a.png" map_to_list w
     = (("", Some "failed to request upload URL: not authenticated"), w).
Proof.
  intros R c w.
  assert (H1 : os_Stat "a.png" (disk w) = inr {| os.Size := 3 |}) by reflexivity.
  assert (H2 : os_ReadFile "a.png" (disk w) = inr "abc") by reflexivity.
  assert (H3 : api.FileUpload c (filepath_Base "a.png") 3 "image/png" w
               = (inl "not authenticated", w)) by reflexivity.
  split; [exact (conj H1 (conj H2 H3))|].
  exact (upload_file_grant_error c "a.png" map_to_list w w _ "abc" _ H1 H2 H3).
Defined.

Lemma upload_file_succeeds_witness :
  let R := sim.platform (inr (sim.response 200 "200 OK" "")) in
  let grant := {| api.UploadURL := "https://bucket/put"; api.AssetURL := "https://a/1";
                  api.Headers := [ {| api.Key := "x-amz-acl"; api.Value := "public-read" |} ];
                  api.ContentType := "image/png" |} in
  let c := sim.client (inr grant) in
  let w := {| disk := sim.one_file "a.png" "abc"; wire := [] |} in
  (os_Stat "a.png" (disk w) = inr {| os.Size := 3 |}
   /\ os_ReadFile "a.png" (disk w) = inr "abc"
   /\ api.FileUpload c (filepath_Base "a.png") 3 "image/png" w = (inr grant, w)
   /\ url_error (api.UploadURL grant) = None
   /\ client_Do (upload_request (target_of grant 3) "abc" map_to_list)
      = inr (sim.response 200 "200 OK" ""))
  /\ fst (api.UploadFileToLinear c "a.png" map_to_list w) = ("https://a/1", None).
Proof.
  intros R grant c w.
  assert (H1 : os_Stat "a.png" (disk w) = inr {| os.Size := 3 |}) by reflexivity.
  assert (H2 : os_ReadFile "a.png" (disk w) = inr "abc") by reflexivity.
  assert (H3 : api.FileUpload c (filepath_Base "a.png") 3 "image/png" w = (inr grant, w))
    by reflexivity.
  assert (H4 : url_error (api.UploadURL grant) = None) by reflexivity.
  assert (H5 : client_Do (upload_request (target_of grant 3) "abc" map_to_list)
               = inr (sim.response 200 "200 OK" "")) by reflexivity.
  split; [exact (conj H1 (conj H2 (conj H3 (conj H4 H5))))|].
  exact (f_equal fst (proj1 (upload_file_succeeds c "a.png" map_to_list w w _ "abc" grant _
                               H1 H2 H3 H4 H5 (or_introl eq_refl)))).
Defined.

Lemma upload_file_refused_witness :
  let R := sim.platform (inr (sim.response 403 "403 Forbidden" "expired")) in
  let grant := {| api.UploadURL := "https://bucket/put"; api.AssetURL := "https://a/1";
                  api.Headers := []; api.ContentType := "image/png" |} in
  let c := sim.client (inr grant) in
  let w := {| disk := sim.one_file "a.png" "abc"; wire := [] |} in
  (os_Stat "a.png" (disk w) = inr {| os.Size := 3 |}
   /\ os_ReadFile "a.png" (disk w) = inr "abc"
   /\ api.FileUpload c (filepath_Base "a.png") 3 "image/png" w = (inr grant, w)
   /\ url_error (api.UploadURL grant) = None
   /\ client_Do (upload_request (target_of grant 3) "abc" map_to_list)
      = inr (sim.response 403 "403 Forbidden" "expired"))
  /\ fst (api.UploadFileToLinear c "a.png" map_to_list w)
     = ("", Some "failed to upload file: upload failed with status 403 Forbidden: expired").
Proof.
  intros R grant c w.
  assert (H1 : os_Stat "a.png" (disk w) = inr {| os.Size := 3 |}) by reflexivity.
  assert (H2 : os_ReadFile "a.png" (disk w) = inr "abc") by reflexivity.
  assert (H3 : api.FileUpload c (filepath_Base "a.png") 3 "image/png" w = (inr grant, w))
    by reflexivity.
  assert (H4 : url_error (api.UploadURL grant) = None) by reflexivity.
  assert (H5 : client_Do (upload_request (target_of grant 3) "abc" map_to_list)
               = inr (sim.response 403 "403 Forbidden" "expired")) by reflexivity.
  split; [exact (conj H1 (conj H2 (conj H3 (conj H4 H5))))|].
  refine (upload_file_refused c "a.png" map_to_list w w _ "abc" grant _
            H1 H2 H3 H4 H5 _ _); simpl; lia.
Defined.

(** ** GetFileInfo: dots outside the base name *)

Section MetadataPaths.


Context `{Runtime}.


End MetadataPaths.


(** ** SanitizeFilename: the shape of the result *)

Section SanitizeShape.

Import utf8 regexp.

Local Arguments byte_val : simpl never.

(** The result, rune by rune. *)
Lemma sanitize_bytes (name : string) :
  exists out,
    files.SanitizeFilename name = Some out
    /\ bytes_of out
       = take 200 (flat_map (replaced unsafe (bytes_of "_")) (runes (bytes_of name))).
Proof.
  unfold files.SanitizeFilename.
  set (safe := ReplaceAllString files.unsafeRegex name "_").
  assert (Hsafe : bytes_of safe
                  = flat_map (replaced unsafe (bytes_of "_")) (runes (bytes_of name))).
  { unfold safe. apply (ReplaceAllString_cls unsafe). }
  rewrite <- Hsafe.
  destruct (Z.ltb_spec 200 (len safe)) as [Hlong|Hshort].
  - unfold files.slice_to.
    destruct (Z.leb_spec 200 (len safe)) as [_|]; [|lia]. cbn [andb Z.leb].
    eexists. split; [done|]. by rewrite bytes_of_substring.
  - exists safe. split; [done|]. rewrite take_ge; [done|].
    rewrite len_bytes in Hshort. lia.
Qed.

Lemma replaced_length (t : token) :
  tok_ok t -> length (replaced unsafe (bytes_of "_") t) = 1%nat.
Proof.
  intros Ht. unfold replaced. rewrite in_unsafe.
  destruct (in_ranges safe_ranges (fst t)) eqn:Hr; cbn [negb]; [|done].
  pose proof (safe_ranges_ascii _ Hr) as Hlt.
  destruct Ht as [(d & -> & Hd)|(Hge & _)]; [done|lia].
Qed.

Lemma replaced_count (ts : list token) :
  Forall tok_ok ts ->
  length (flat_map (replaced unsafe (bytes_of "_")) ts) = length ts.
Proof.
  induction 1 as [|t ts Ht _ IH]; [done|].
  cbn [flat_map]. rewrite List.length_app, replaced_length, IH by done. done.
Qed.

Lemma runes_count (ts : list token) :
  Forall tok_ok ts -> (length ts <= length (text ts))%nat.
Proof.
  induction 1 as [|t ts Ht _ IH]; [done|].
  rewrite text_cons, List.length_app. cbn [length].
  assert (snd t <> []) as Hne.
  { destruct Ht as [(d & -> & _)|(_ & Hne & _)]; done. }
  destruct (snd t); [done|]. cbn [length]. lia.
Qed.

Lemma runes_ascii (b : list ascii) :
  forallb (fun c => byte_val c <? RuneSelf) b = true -> runes b = map tk b.
Proof.
  induction b as [|c b IH]; [done|]. cbn [forallb map].
  intros [Hc Hb]%andb_true_iff. apply Z.ltb_lt in Hc.
  rewrite runes_cons_ascii by done. by rewrite IH.
Qed.

(** X23.  The names [SanitizeFilename] returns unchanged are exactly those of at
    most 200 characters, all of the set [A-Za-z0-9._-]. *)
Theorem sanitize_fixed_points (name : string) :
  files.SanitizeFilename name = Some name
  <-> Forall in_set (bytes_of name) /\ len name <= 200.
Proof.
  split.
  - intros Hfix. destruct (sanitize_bytes name) as (out & Hout & Hbytes).
    rewrite Hfix in Hout. injection Hout as <-. split.
    + rewrite Hbytes. apply Forall_take, replaced_in_set, runes_ok.
    + rewrite len_bytes, Hbytes, length_take. lia.
  - intros [Hset Hlen]. by apply sanitize_fixed.
Qed.

Lemma replaced_scrub (t : token) :
  tok_ok t -> replaced unsafe (bytes_of "_") t = [scrub_rune t].
Proof.
  intros Ht. unfold replaced, scrub_rune, scrub. rewrite in_unsafe.
  destruct Ht as [(d & -> & Hd)|(Hge & Hne & Hall)]; cbn [fst snd].
  - by destruct (in_ranges safe_ranges (byte_val d)).
  - destruct (in_ranges safe_ranges (fst t)) eqn:Hr.
    { apply safe_ranges_ascii in Hr. lia. }
    cbn [negb]. destruct (snd t) as [|c [|c' l]]; [done| |done].
    apply Forall_cons in Hall as [Hc _].
    destruct (in_ranges safe_ranges (byte_val c)) eqn:Hrc; [|done].
    apply safe_ranges_ascii in Hrc. lia.
Qed.

Lemma lookup_map {A B : Type} (f : A -> B) (l : list A) (i : nat) (x : A) :
  l !! i = Some x -> map f l !! i = Some (f x).
Proof.
  revert i. induction l as [|y l IH]; intros [|i]; cbn; try done.
  - by intros [= ->].
  - apply IH.
Qed.

Lemma replaced_map (ts : list token) :
  Forall tok_ok ts ->
  flat_map (replaced unsafe (bytes_of "_")) ts = map scrub_rune ts.
Proof.
  induction 1 as [|t ts Ht _ IH]; [done|].
  cbn [flat_map map]. by rewrite replaced_scrub, IH.
Qed.

(** X24.  The result has one character for each rune of the name (a byte that
    is not part of a valid encoding counts as one rune), up to 200: the
    character a rune of a single byte gives is that byte when it is of the
    set [A-Za-z0-9._-] and an underscore otherwise, and a rune of several
    bytes becomes a single underscore, so the result is never longer than
    the name. *)
Theorem sanitize_one_per_rune (name : string) :
  exists out,
    files.SanitizeFilename name = Some out
    /\ bytes_of out = take 200 (map scrub_rune (runes (bytes_of name)))
    /\ (forall (i : nat) (t : token),
          runes (bytes_of name) !! i = Some t -> (i < 200)%nat ->
          (forall c, snd t = [c] -> in_set c -> bytes_of out !! i = Some c)
          /\ (forall c, snd t = [c] -> ~ in_set c -> bytes_of out !! i = Some "_"%char)
          /\ ((1 < length (snd t))%nat -> bytes_of out !! i = Some "_"%char))
    /\ len out = Z.min (Z.of_nat (length (runes (bytes_of name)))) 200
    /\ len out <= len name.
Proof.
  destruct (sanitize_bytes name) as (out & Hout & Hbytes).
  exists out. split; [done|].
  rewrite replaced_map in Hbytes by apply runes_ok.
  split; [done|]. split.
  - intros i t Hi Hlt.
    assert (Hat : bytes_of out !! i = Some (scrub_rune t)).
    { rewrite Hbytes, lookup_take. destruct (decide (i < 200)%nat); [|lia].
      by apply lookup_map. }
    rewrite Hat. unfold scrub_rune, scrub. split_and!.
    + intros c -> Hc. apply safe_ranges_set in Hc. by rewrite Hc.
    + intros c -> Hc. destruct (in_ranges safe_ranges (byte_val c)) eqn:Hr; [|done].
      by apply safe_ranges_set in Hr.
    + intros Hlen. by destruct (snd t) as [|c [|c' l]]; [simpl in Hlen; lia..|].
  - pose proof (runes_count _ (runes_ok (bytes_of name))) as Hle.
    rewrite runes_text in Hle.
    rewrite !len_bytes, Hbytes, length_take, length_map.
    lia.
Qed.

(** The two bytes 0xC3 0xA9 encode one rune and give one underscore; the
    lone byte 0xFF is no encoding and gives one underscore too. *)
Example sanitize_runes_example :
  files.SanitizeFilename
    (String (ascii_of_nat 195) (String (ascii_of_nat 169)
       (String (ascii_of_nat 255) ".png")))
  = Some "__.png".
Proof. vm_compute. reflexivity. Qed.

(** X25.  A name of ASCII bytes is treated byte by byte: a byte of the set is
    kept, any other becomes an underscore, and the first 200 are
    returned. *)
Theorem sanitize_ascii_bytewise (name : string) :
  strings.isASCII name = true ->
  files.SanitizeFilename name = Some (string_of (take 200 (map scrub (bytes_of name)))).
Proof.
  intros Hascii. destruct (sanitize_bytes name) as (out & -> & Hbytes).
  f_equal. apply bytes_of_inj. rewrite Hbytes, bytes_of_string_of. f_equal.
  rewrite runes_ascii by done.
  clear. induction (bytes_of name) as [|c b IH]; [done|].
  cbn [map flat_map]. rewrite IH. unfold replaced, scrub, tk. cbn [fst snd].
  rewrite in_unsafe. by destruct (in_ranges safe_ranges (byte_val c)).
Qed.

Lemma sanitize_ascii_bytewise_witness :
  strings.isASCII "a b/c.png" = true
  /\ files.SanitizeFilename "a b/c.png" = Some "a_b_c.png".
Proof.
  split; [reflexivity|].
  exact (sanitize_ascii_bytewise "a b/c.png" eq_refl).
Defined.

End SanitizeShape.

(** ** InjectImageIntoMarkdown, applied again *)

Section InjectAgain.

Import utf8.

Lemma mark_not_blank (pre post : string) : ~ blank (pre +:+ "!" +:+ post).
Proof.
  unfold blank. rewrite !bytes_of_app.
  change (bytes_of "!" ++ bytes_of post) with ("!"%char :: bytes_of post).
  destruct (runes_app_ascii (bytes_of pre) "!" (bytes_of post)) as (ta & -> & _); [done|].
  rewrite runes_cons_ascii by done.
  intros [_ Hb]%Forall_app. apply Forall_cons in Hb as [Hb _]. done.
Qed.

Lemma inject_shape (markdown imageURL altText : string) :
  exists pre post, files.InjectImageIntoMarkdown markdown imageURL altText
                   = pre +:+ "!" +:+ post.
Proof.
  unfold files.InjectImageIntoMarkdown.
  set (alt := if decide (altText = "") then "image" else altText).
  destruct (decide (strings.TrimSpace markdown = "")).
  - exists "", ("[" +:+ alt +:+ "](" +:+ imageURL +:+ ")"). reflexivity.
  - exists (markdown +:+ files.newline +:+ files.newline),
           ("[" +:+ alt +:+ "](" +:+ imageURL +:+ ")").
    apply bytes_of_inj. rewrite !bytes_of_app.
    rewrite <- !app_assoc. reflexivity.
Qed.

(** X26.  The result of [InjectImageIntoMarkdown] is never blank, so that a
    second image goes after the first: the first result, two line feeds,
    the second reference.  No reference is ever replaced or dropped. *)
Theorem inject_twice_appends (markdown url1 alt1 url2 alt2 : string) :
  strings.TrimSpace (files.InjectImageIntoMarkdown markdown url1 alt1) <> ""
  /\ files.InjectImageIntoMarkdown (files.InjectImageIntoMarkdown markdown url1 alt1)
       url2 alt2
     = files.InjectImageIntoMarkdown markdown url1 alt1
       +:+ files.newline +:+ files.newline +:+ reference url2 alt2.
Proof.
  assert (Hnb : strings.TrimSpace (files.InjectImageIntoMarkdown markdown url1 alt1) <> "").
  { rewrite TrimSpace_empty.
    destruct (inject_shape markdown url1 alt1) as (pre & post & ->).
    apply mark_not_blank. }
  split; [done|].
  unfold files.InjectImageIntoMarkdown at 1.
  by destruct (decide (strings.TrimSpace _ = "")).
Qed.

End InjectAgain.

(** ** ExtractImagesFromMarkdown: what the images hold *)

Section ExtractParts.

Import utf8 regexp.

(** Every occurrence a scan reports lies in the text scanned. *)
Lemma scanned_within {X : Type} (at_head : list ascii -> X -> list ascii -> Prop)
    (s : list ascii) (xs : list X) :
  (forall s' x rest, at_head s' x rest -> exists m, s' = m ++ rest) ->
  scanned at_head s xs ->
  Forall (fun x => exists pre s' rest, s = pre ++ s' /\ at_head s' x rest) xs.
Proof.
  intros Hsuffix. induction 1 as [|s pre s' x rest xs Hs Hat _ _ IH]; constructor.
  - by exists pre, s', rest.
  - destruct (Hsuffix _ _ _ Hat) as [m Hm].
    eapply Forall_impl; [exact IH|]. intros y (pre' & s'' & rest' & Hrest & Hat').
    exists (pre ++ m ++ pre'), s'', rest'. split; [|done].
    by rewrite Hs, Hm, Hrest, <- !app_assoc.
Qed.

Lemma formA_suffix (s : list ascii) (parts : list (list ascii)) (rest : list ascii) :
  formA_at s parts rest -> exists m, s = m ++ rest.
Proof.
  intros (alt & url & _ & -> & _).
  exists (bytes_of "![" ++ alt ++ bytes_of "](" ++ url ++ bytes_of ")").
  by rewrite <- !app_assoc.
Qed.

Lemma formB_suffix (s : list ascii) (parts : list (list ascii)) (rest : list ascii) :
  formB_at s parts rest -> exists m, s = m ++ rest.
Proof.
  intros (junk & url & _ & (-> & _) & _).
  exists (bytes_of "<img" ++ junk ++ bytes_of "src=" ++ [files.dq] ++ url ++ [files.dq]).
  by rewrite <- !app_assoc.
Qed.

(** The images, each with the place it was read at. *)
Lemma extract_places (markdown : string) (img : files.ImageInfo) :
  In img (files.ExtractImagesFromMarkdown markdown) ->
  (exists pre alt url rest,
     bytes_of markdown
     = pre ++ bytes_of "![" ++ alt ++ bytes_of "](" ++ url ++ bytes_of ")" ++ rest
     /\ ~ In "]"%char alt /\ url <> [] /\ ~ In ")"%char url
     /\ img = imageA [alt; url])
  \/ (exists pre junk url rest,
        bytes_of markdown
        = pre ++ bytes_of "<img" ++ junk ++ bytes_of "src=" ++ [files.dq] ++ url
          ++ [files.dq] ++ rest
        /\ junk <> [] /\ ~ In ">"%char junk /\ url <> [] /\ ~ In files.dq url
        /\ img = imageB [url]).
Proof.
  rewrite extract_scans, in_app_iff, !in_map_iff.
  intros [(parts & <- & Hin)|(parts & <- & Hin)].
  - left. pose proof (scanned_within _ _ _ formA_suffix (scan_formA markdown)) as Hall.
    rewrite Forall_forall in Hall. apply list_elem_of_In, Hall in Hin.
    destruct Hin as (pre & s' & rest & Hs & alt & url & -> & -> & H1 & H2 & H3).
    by exists pre, alt, url, rest.
  - right. pose proof (scanned_within _ _ _ formB_suffix (scan_formB markdown)) as Hall.
    rewrite Forall_forall in Hall. apply list_elem_of_In, Hall in Hin.
    destruct Hin as (pre & s' & rest & Hs & junk & url & -> & (-> & H1 & H2 & H3 & H4) & _).
    by exists pre, junk, url, rest.
Qed.

Lemma string_of_nonempty (b : list ascii) : b <> [] -> string_of b <> "".
Proof. by destruct b. Qed.

(** X27.  No image has an empty URL.  An image either comes from the markdown
    form (no closing parenthesis in its URL, no closing bracket in its alt
    text) or from a tag (empty alt text, no double quote in its URL). *)
Theorem extract_urls_not_empty (markdown : string) (img : files.ImageInfo) :
  In img (files.ExtractImagesFromMarkdown markdown) ->
  files.URL img <> ""
  /\ ((~ In ")"%char (bytes_of (files.URL img)) /\ ~ In "]"%char (bytes_of (files.AltText img)))
      \/ (files.AltText img = "" /\ ~ In files.dq (bytes_of (files.URL img)))).
Proof.
  intros [(pre & alt & url & rest & _ & H1 & H2 & H3 & ->)
         |(pre & junk & url & rest & _ & _ & _ & H2 & H3 & ->)]%extract_places.
  - unfold imageA. cbn [files.URL files.AltText nth]. split.
    + by apply string_of_nonempty.
    + left. by rewrite !bytes_of_string_of.
  - unfold imageB. cbn [files.URL files.AltText nth]. split.
    + by apply string_of_nonempty.
    + right. by rewrite !bytes_of_string_of.
Qed.

Lemma substring_of_bytes (sub s : string) (pre post : list ascii) :
  bytes_of s = pre ++ bytes_of sub ++ post -> substring_of sub s.
Proof.
  intros Hs. exists (string_of pre), (string_of post).
  apply bytes_of_inj. by rewrite !bytes_of_app, !bytes_of_string_of.
Qed.


(** X29.  A text that holds neither the two characters that open a markdown
    image nor the four that open a tag has no image. *)
Theorem extract_needs_opening (markdown : string) :
  ~ substring_of "![" markdown -> ~ substring_of "<img" markdown ->
  files.ExtractImagesFromMarkdown markdown = [].
Proof.
  intros HA HB. rewrite (extract_of_scans markdown [] []); [done| |].
  - apply scanned_none. intros pre s' x rest Hs (alt & url & _ & -> & _).
    apply HA. by apply (substring_of_bytes _ _ pre _ Hs).
  - apply scanned_none. intros pre s' x rest Hs (junk & url & _ & (-> & _) & _).
    apply HB. by apply (substring_of_bytes _ _ pre _ Hs).
Qed.

Lemma split_inside {A : Type} (X Y pre : list A) (c : A) (t : list A) :
  X ++ Y = pre ++ c :: t -> (length pre < length X)%nat -> In c X.
Proof.
  intros Heq Hlt. apply list_elem_of_In, list_elem_of_lookup. exists (length pre).
  rewrite <- (lookup_app_l X Y) by done. rewrite Heq.
  by rewrite lookup_app_r, Nat.sub_diag by lia.
Qed.

(** X30.  An image appended to a document that holds neither [!] nor [<] is
    the one image of the result, with its URL and its alt text (or the
    word [image]).  The alt text must be free of the closing bracket, the
    URL not empty and free of the closing parenthesis, and both free of
    [<]. *)
Theorem extract_after_inject (markdown imageURL altText : string) :
  ~ In "!"%char (bytes_of markdown) -> ~ In "<"%char (bytes_of markdown) ->
  ~ In "]"%char (bytes_of altText) -> ~ In "<"%char (bytes_of altText) ->
  imageURL <> "" ->
  ~ In ")"%char (bytes_of imageURL) -> ~ In "<"%char (bytes_of imageURL) ->
  files.ExtractImagesFromMarkdown (files.InjectImageIntoMarkdown markdown imageURL altText)
  = [ {| files.URL := imageURL;
         files.AltText := if decide (altText = "") then "image" else altText;
         files.IsLinearURL := strings.Contains imageURL "linear.app" |} ].
Proof.
  intros Hbang Hlt0 Hrb Hlt Hne Hrp Hlt'.
  set (alt := if decide (altText = "") then "image" else altText).
  assert (Halt : ~ In "]"%char (bytes_of alt) /\ ~ In "<"%char (bytes_of alt)).
  { unfold alt. destruct (decide (altText = "")); [|done].
    split; by apply not_in_image. }
  destruct Halt as [Hrb' Hlt''].
  assert (Hdoc : exists X, ~ In "!"%char X /\ ~ In "<"%char X
            /\ bytes_of (files.InjectImageIntoMarkdown markdown imageURL altText)
               = X ++ bytes_of "![" ++ bytes_of alt ++ bytes_of "](" ++ bytes_of imageURL
                 ++ bytes_of ")" ++ []).
  { unfold files.InjectImageIntoMarkdown. fold alt.
    destruct (decide (strings.TrimSpace markdown = "")).
    - exists []. split_and!; [intros []..|]. by rewrite !bytes_of_app.
    - exists (bytes_of markdown ++ bytes_of files.newline ++ bytes_of files.newline).
      split_and!.
      + rewrite !in_app_iff. simpl. intuition congruence.
      + rewrite !in_app_iff. simpl. intuition congruence.
      + rewrite !bytes_of_app, <- !app_assoc. done. }
  destruct Hdoc as (X & HX1 & HX2 & Hdoc).
  rewrite (extract_of_scans _ [[bytes_of alt; bytes_of imageURL]] []).
  - unfold imageA. simpl. by rewrite !string_of_bytes_of.
  - rewrite Hdoc.
    apply (scanned_next formA_at _ X
             (bytes_of "![" ++ bytes_of alt ++ bytes_of "](" ++ bytes_of imageURL
              ++ bytes_of ")" ++ []) _ []).
    + done.
    + exists (bytes_of alt), (bytes_of imageURL). split_and!; try done.
      intros Hnil. apply Hne. apply bytes_of_inj. by rewrite Hnil.
    + intros pre2 s2 x2 rest2 Heq Hlen (alt' & url' & _ & -> & _).
      apply HX1. by apply (split_inside _ _ _ _ _ Heq).
    + apply scanned_none. intros pre s' x rest Heq (alt' & url' & _ & -> & _).
      by destruct pre.
  - apply scanned_none. intros pre s' x rest Heq (junk & url & _ & (-> & _) & _).
    assert (Hin : In "<"%char
                    (bytes_of (files.InjectImageIntoMarkdown markdown imageURL altText))).
    { rewrite Heq. apply in_or_app. right. by left. }
    rewrite Hdoc, !in_app_iff in Hin. simpl in Hin.
    intuition congruence.
Qed.

End ExtractParts.

Lemma extract_urls_not_empty_witness :
  let img := imageB [bytes_of "b.png"] in
  let doc := string_of (bytes_of "<img src=" ++ [files.dq] ++ bytes_of "b.png" ++ [files.dq]
                        ++ bytes_of ">") in
  In img (files.ExtractImagesFromMarkdown doc)
  /\ files.URL img <> "".
Proof.
  intros img doc.
  assert (Hin : In img (files.ExtractImagesFromMarkdown doc)).
  { vm_compute. by left. }
  split; [exact Hin|].
  exact (proj1 (extract_urls_not_empty doc img Hin)).
Defined.


Lemma extract_needs_opening_witness :
  (~ substring_of "![" "wait! [link](a.png) <b>" /\ ~ substring_of "<img" "wait! [link](a.png) <b>")
  /\ files.ExtractImagesFromMarkdown "wait! [link](a.png) <b>" = [].
Proof.
  assert (HA : ~ substring_of "![" "wait! [link](a.png) <b>").
  { intros Hs%Contains_spec. discriminate Hs. }
  assert (HB : ~ substring_of "<img" "wait! [link](a.png) <b>").
  { intros Hs%Contains_spec. discriminate Hs. }
  split; [exact (conj HA HB)|].
  exact (extract_needs_opening "wait! [link](a.png) <b>" HA HB).
Defined.

Lemma extract_after_inject_witness :
  (~ In "!"%char (bytes_of "Steps to reproduce") /\ ~ In "<"%char (bytes_of "Steps to reproduce")
   /\ ~ In "]"%char (bytes_of "shot") /\ ~ In "<"%char (bytes_of "shot")
   /\ "https://uploads.linear.app/a.png" <> ""
   /\ ~ In ")"%char (bytes_of "https://uploads.linear.app/a.png")
   /\ ~ In "<"%char (bytes_of "https://uploads.linear.app/a.png"))
  /\ files.ExtractImagesFromMarkdown
       (files.InjectImageIntoMarkdown "Steps to reproduce"
          "https://uploads.linear.app/a.png" "shot")
     = [ {| files.URL := "https://uploads.linear.app/a.png";
            files.AltText := "shot";
            files.IsLinearURL := true |} ].
Proof.
  assert (H : ~ In "!"%char (bytes_of "Steps to reproduce")
              /\ ~ In "<"%char (bytes_of "Steps to reproduce")
              /\ ~ In "]"%char (bytes_of "shot") /\ ~ In "<"%char (bytes_of "shot")
              /\ "https://uploads.linear.app/a.png" <> ""
              /\ ~ In ")"%char (bytes_of "https://uploads.linear.app/a.png")
              /\ ~ In "<"%char (bytes_of "https://uploads.linear.app/a.png")).
  { split_and!; solve [done | simpl; intuition congruence]. }
  split; [exact H|].
  destruct H as (H1 & H2 & H3 & H4 & H5 & H6 & H7).
  exact (extract_after_inject "Steps to reproduce" "https://uploads.linear.app/a.png" "shot"
           H1 H2 H3 H4 H5 H6 H7).
Defined.
